(** * Micromouse flood-fill controller (micromouse_floodfill.py)

    A shallow embedding of the [MicromouseFloodfill] class: the maze model
    (wall bit masks), the flood-fill engine, the orientation control and
    the navigation loop, followed by the properties of the specification.

    Python integers are [Z]; Python lists are [list] with Python's
    indexing rules ([py_get], [py_set]: negative indices count from the
    end, anything else out of range raises [IndexError]); the set of
    visited cells is a [gset]; [float('inf')] is the constructor [Inf] of
    [fval].  Exceptions and unbounded [while] loops are made explicit by
    the type [outcome].  The commands printed for the simulator are kept
    as a trace; [self.log], which writes to stderr, is left out. *)

From Stdlib Require Import ZArith Lia Ascii String.
From stdpp Require Import base tactics option list numbers strings gmap.

Local Open Scope Z_scope.
#[local] Set Warnings "-clear-no-such-hyp".

(** ** Outcomes: normal return, a raised exception, or loop fuel exhausted *)

Inductive exn := IndexError | ValueError.

Inductive outcome (A : Type) : Type :=
| Done (a : A)
| Raise (e : exn)
| Timeout.
Arguments Done {A} a.
Arguments Raise {A} e.
Arguments Timeout {A}.

#[global] Instance outcome_ret : MRet outcome := λ A a, Done a.
#[global] Instance outcome_bind : MBind outcome := λ A B f o,
  match o with
  | Done a => f a
  | Raise e => Raise e
  | Timeout => Timeout
  end.

(** [for v in xs: body] over a state that the body may update or abort. *)
Fixpoint for_each {St : Type} (xs : list Z) (body : Z → St → outcome St) (s : St)
  : outcome St :=
  match xs with
  | [] => Done s
  | v :: rest => s' ← body v s; for_each rest body s'
  end.

(** Python's [range(n)]. *)
Definition range (n : Z) : list Z := seqZ 0 n.

(** ** Python list indexing *)

Definition py_norm {A} (l : list A) (i : Z) : outcome nat :=
  let n := Z.of_nat (length l) in
  if bool_decide (0 ≤ i < n) then Done (Z.to_nat i)
  else if bool_decide (- n ≤ i < 0) then Done (Z.to_nat (n + i))
  else Raise IndexError.

Definition py_get {A} (l : list A) (i : Z) : outcome A :=
  k ← py_norm l i;
  match l !! k with
  | Some a => Done a
  | None => Raise IndexError
  end.

Definition py_set {A} (l : list A) (i : Z) (v : A) : outcome (list A) :=
  k ← py_norm l i; Done (<[k := v]> l).

(** [g[x][y]] and [g[x][y] = v] on a list of columns. *)
Definition grid_get {A} (g : list (list A)) (x y : Z) : outcome A :=
  col ← py_get g x; py_get col y.

Definition grid_set {A} (g : list (list A)) (x y : Z) (v : A)
  : outcome (list (list A)) :=
  col ← py_get g x; col' ← py_set col y v; py_set g x col'.

(** [[[v for _ in range(h)] for _ in range(w)]] *)
Definition make_grid {A} (w h : Z) (v : A) : list (list A) :=
  replicate (Z.to_nat w) (replicate (Z.to_nat h) v).

(** ** Data model *)

Definition cell : Type := Z * Z.

(** A flood value: a Python int, or [float('inf')]. *)
Inductive fval := Fin (n : Z) | Inf.

(** [v + k] and [v - k] for an int [k]: infinity absorbs. *)
Definition fval_add (v : fval) (k : Z) : fval :=
  match v with Fin n => Fin (n + k) | Inf => Inf end.

(** [a < b] *)
Definition fval_lt (a b : fval) : bool :=
  match a, b with
  | Fin n, Fin m => bool_decide (n < m)
  | Fin _, Inf => true
  | Inf, _ => false
  end.

Inductive phase_t := explore | speed_run.

#[global] Instance phase_t_eq_dec : EqDecision phase_t.
Proof. solve_decision. Defined.

(** The fields of [self].  [self.x], [self.y] are [self_x], [self_y]. *)
Record mouse := Mouse {
  width : Z;
  height : Z;
  self_x : Z;
  self_y : Z;
  direction : Z;                      (* 0=North, 1=East, 2=South, 3=West *)
  walls : list (list Z);              (* walls[x][y]: North=1 East=2 South=4 West=8 *)
  flood_values : list (list fval);
  goals : list cell;
  phase : phase_t;
  visited : gset cell
}.

Definition set_walls (m : mouse) (ws : list (list Z)) : mouse :=
  Mouse (width m) (height m) (self_x m) (self_y m) (direction m) ws
        (flood_values m) (goals m) (phase m) (visited m).

Definition set_flood_values (m : mouse) (fv : list (list fval)) : mouse :=
  Mouse (width m) (height m) (self_x m) (self_y m) (direction m) (walls m)
        fv (goals m) (phase m) (visited m).

Definition set_direction (m : mouse) (d : Z) : mouse :=
  Mouse (width m) (height m) (self_x m) (self_y m) d (walls m)
        (flood_values m) (goals m) (phase m) (visited m).

Definition set_position (m : mouse) (x y : Z) : mouse :=
  Mouse (width m) (height m) x y (direction m) (walls m)
        (flood_values m) (goals m) (phase m) (visited m).

Definition set_goals (m : mouse) (gs : list cell) : mouse :=
  Mouse (width m) (height m) (self_x m) (self_y m) (direction m) (walls m)
        (flood_values m) gs (phase m) (visited m).

Definition set_phase (m : mouse) (p : phase_t) : mouse :=
  Mouse (width m) (height m) (self_x m) (self_y m) (direction m) (walls m)
        (flood_values m) (goals m) p (visited m).

Definition set_visited (m : mouse) (v : gset cell) : mouse :=
  Mouse (width m) (height m) (self_x m) (self_y m) (direction m) (walls m)
        (flood_values m) (goals m) (phase m) v.

(** [0 <= x < self.width and 0 <= y < self.height] *)
Definition in_bounds (m : mouse) (x y : Z) : bool :=
  bool_decide (0 ≤ x < width m) && bool_decide (0 ≤ y < height m).

(** ** Maze model *)

(** [1 << direction]; Python refuses a negative shift count. *)
Definition get_direction_bit (d : Z) : outcome Z :=
  if bool_decide (d < 0) then Raise ValueError else Done (Z.shiftl 1 d).

Definition offsets : list cell := [(0, 1); (1, 0); (0, -1); (-1, 0)].

Definition get_direction_offset (d : Z) : outcome cell := py_get offsets d.

Definition is_wall (m : mouse) (x y d : Z) : outcome bool :=
  if (x <? 0) || (x >=? width m) || (y <? 0) || (y >=? height m)
  then Done true
  else
    w ← grid_get (walls m) x y;
    b ← get_direction_bit d;
    Done (negb (Z.land w b =? 0)).

(** [self.walls[x][y] |= bit] *)
Definition or_wall (ws : list (list Z)) (x y bit : Z) : outcome (list (list Z)) :=
  w ← grid_get ws x y; grid_set ws x y (Z.lor w bit).

Definition set_wall (m : mouse) (x y d : Z) : outcome mouse :=
  if in_bounds m x y then
    w ← grid_get (walls m) x y;
    b ← get_direction_bit d;
    ws ← grid_set (walls m) x y (Z.lor w b);
    '(dx, dy) ← get_direction_offset d;
    let adj_x := x + dx in
    let adj_y := y + dy in
    if in_bounds m adj_x adj_y then
      let opposite_dir := (d + 2) `mod` 4 in
      w' ← grid_get ws adj_x adj_y;
      b' ← get_direction_bit opposite_dir;
      ws' ← grid_set ws adj_x adj_y (Z.lor w' b');
      Done (set_walls m ws')
    else Done (set_walls m ws)
  else Done m.

Definition initialize_boundaries (m : mouse) : outcome mouse :=
  ws1 ← for_each (range (width m)) (λ x ws,
           ws' ← or_wall ws x 0 4;
           or_wall ws' x (height m - 1) 1) (walls m);
  ws2 ← for_each (range (height m)) (λ y ws,
           ws' ← or_wall ws 0 y 8;
           or_wall ws' (width m - 1) y 2) ws1;
  Done (set_walls m ws2).

(** The goal cells at the centre of the maze; the same block of code
    appears in [__init__] and in the reset branch of [run]. *)
Definition center_goals (w h : Z) : list cell :=
  let center_x := w `div` 2 in
  let center_y := h `div` 2 in
  if bool_decide (w `mod` 2 = 0) && bool_decide (h `mod` 2 = 0) then
    [(center_x - 1, center_y - 1); (center_x, center_y - 1);
     (center_x - 1, center_y); (center_x, center_y)]
  else if bool_decide (w `mod` 2 = 0) then
    [(center_x - 1, center_y); (center_x, center_y)]
  else if bool_decide (h `mod` 2 = 0) then
    [(center_x, center_y - 1); (center_x, center_y)]
  else [(center_x, center_y)].

(** [MicromouseFloodfill.__init__], given the simulator's answers to
    [mazeWidth] and [mazeHeight]. *)
Definition init (maze_width maze_height : Z) : outcome mouse :=
  initialize_boundaries
    (Mouse maze_width maze_height 0 0 0
           (make_grid maze_width maze_height 0)
           (make_grid maze_width maze_height (Fin 0))
           (center_goals maze_width maze_height)
           explore {[ (0, 0) ]}).

(** ** Flood-fill engine *)

(** The first loop nest of [floodfill]: every cell becomes [float('inf')]. *)
Definition fill_inf (m : mouse) : outcome (list (list fval)) :=
  for_each (range (width m)) (λ x fv,
    for_each (range (height m)) (λ y fv, grid_set fv x y Inf) fv)
    (flood_values m).

(** [for goal_x, goal_y in self.goals]: distance 0, appended to the queue. *)
Fixpoint seed_goals (gs : list cell) (fv : list (list fval)) (queue : list cell)
  : outcome (list (list fval) * list cell) :=
  match gs with
  | [] => Done (fv, queue)
  | (goal_x, goal_y) :: rest =>
    fv' ← grid_set fv goal_x goal_y (Fin 0);
    seed_goals rest fv' (queue ++ [(goal_x, goal_y)])
  end.

(** The body of [for direction in range(4)] for the dequeued cell [(x, y)]. *)
Definition flood_step (m : mouse) (x y : Z) (current_value : fval) (d : Z)
    (st : list (list fval) * list cell) : outcome (list (list fval) * list cell) :=
  let '(fv, queue) := st in
  blocked ← is_wall m x y d;
  if blocked : bool then Done (fv, queue)
  else
    '(dx, dy) ← get_direction_offset d;
    let next_x := x + dx in
    let next_y := y + dy in
    if in_bounds m next_x next_y then
      next_value ← grid_get fv next_x next_y;
      if fval_lt (fval_add current_value 1) next_value then
        fv' ← grid_set fv next_x next_y (fval_add current_value 1);
        Done (fv', queue ++ [(next_x, next_y)])
      else Done (fv, queue)
    else Done (fv, queue).

(** [while queue:]; one unit of fuel per dequeued cell. *)
Fixpoint flood_loop (fuel : nat) (m : mouse) (fv : list (list fval))
    (queue : list cell) : outcome (list (list fval)) :=
  match queue with
  | [] => Done fv
  | (x, y) :: rest =>
    match fuel with
    | O => Timeout
    | S fuel' =>
      current_value ← grid_get fv x y;
      '(fv', queue') ← for_each (range 4) (flood_step m x y current_value) (fv, rest);
      flood_loop fuel' m fv' queue'
    end
  end.

Inductive color := Green | Red | Blue | Yellow.   (* 'G', 'R', 'B', 'Y' *)

(** The lines written to the simulator by the [API] commands. *)
Inductive command :=
| moveForward
| turnRight
| turnLeft
| setWall (x y : Z) (c : ascii)
| setColor (x y : Z) (c : color)
| clearAllColor
| clearAllText
| setText (x y : Z) (text : Z)
| ackReset.

Definition display_flood_values (m : mouse) : outcome (list command) :=
  for_each (range (width m)) (λ x cmds,
    for_each (range (height m)) (λ y cmds,
      v ← grid_get (flood_values m) x y;
      match v with
      | Fin n => Done (cmds ++ [setText x y n])
      | Inf => Done cmds
      end) cmds)
    [clearAllText].

Definition floodfill (fuel : nat) (m : mouse) : outcome (mouse * list command) :=
  fv0 ← fill_inf m;
  '(fv1, queue) ← seed_goals (goals m) fv0 [];
  fv2 ← flood_loop fuel m fv1 queue;
  let m' := set_flood_values m fv2 in
  cmds ← display_flood_values m';
  Done (m', cmds).

(** ** Move selection *)

Definition best_step (m : mouse) (d : Z) (best : option Z * fval)
  : outcome (option Z * fval) :=
  let '(best_direction, best_value) := best in
  blocked ← is_wall m (self_x m) (self_y m) d;
  if blocked : bool then Done best
  else
    '(dx, dy) ← get_direction_offset d;
    let next_x := self_x m + dx in
    let next_y := self_y m + dy in
    if in_bounds m next_x next_y then
      next_value ← grid_get (flood_values m) next_x next_y;
      if fval_lt next_value best_value then Done (Some d, next_value)
      else Done best
    else Done best.

Definition get_best_direction (m : mouse) : outcome (option Z) :=
  current_value ← grid_get (flood_values m) (self_x m) (self_y m);
  best ← for_each (range 4) (best_step m) (None, Inf);
  Done (best.1).

(** The exploration branch of [run]: unvisited neighbours score 100 less. *)
Definition explore_step (m : mouse) (d : Z) (best : option Z * fval)
  : outcome (option Z * fval) :=
  let '(best_direction, best_value) := best in
  blocked ← is_wall m (self_x m) (self_y m) d;
  if blocked : bool then Done best
  else
    '(dx, dy) ← get_direction_offset d;
    let next_x := self_x m + dx in
    let next_y := self_y m + dy in
    if in_bounds m next_x next_y then
      v ← grid_get (flood_values m) next_x next_y;
      let next_value :=
        if bool_decide ((next_x, next_y) ∉ visited m) then fval_add v (-100)
        else v in
      if fval_lt next_value best_value then Done (Some d, next_value)
      else Done best
    else Done best.

Definition explore_direction (m : mouse) : outcome (option Z) :=
  best ← for_each (range 4) (explore_step m) (None, Inf);
  Done (best.1).

Definition at_goal (m : mouse) : bool :=
  bool_decide ((self_x m, self_y m) ∈ goals m).

(** The loop of [should_explore_more]: [true] as soon as an open, in-bounds,
    unvisited neighbour is found. *)
Fixpoint unvisited_neighbour (m : mouse) (dirs : list Z) : outcome bool :=
  match dirs with
  | [] => Done false
  | d :: rest =>
    blocked ← is_wall m (self_x m) (self_y m) d;
    if blocked : bool then unvisited_neighbour m rest
    else
      '(dx, dy) ← get_direction_offset d;
      let next_x := self_x m + dx in
      let next_y := self_y m + dy in
      if in_bounds m next_x next_y
         && bool_decide ((next_x, next_y) ∉ visited m)
      then Done true
      else unvisited_neighbour m rest
  end.

Section Controller.

(** The simulator's typed answers: [sensor k] is the answer to the
    [k]-th boolean query ([wasReset], [wallFront], ...). *)
Variable sensor : nat → bool.

(** [n > cells * 0.7] and [n < cells * 0.9]: the products are double
    precision floats and are left abstract. *)
Variable above_70_percent : Z → Z → bool.
Variable below_90_percent : Z → Z → bool.

(** The controller and the simulator's side: number of boolean queries
    answered so far and the commands received so far. *)
Record world := World {
  self : mouse;
  tick : nat;
  out : list command
}.

Definition emit (w : world) (cmds : list command) : world :=
  World (self w) (tick w) (out w ++ cmds).

Definition query (w : world) : bool * world :=
  (sensor (tick w), World (self w) (S (tick w)) (out w)).

Definition should_explore_more (m : mouse) : outcome bool :=
  match phase m with
  | speed_run => Done false
  | explore =>
    current_value ← grid_get (flood_values m) (self_x m) (self_y m);
    found ← unvisited_neighbour m (range 4);
    if found : bool then Done true
    else
      let n := Z.of_nat (size (visited m)) in
      if at_goal m && above_70_percent n (width m * height m) then Done false
      else Done (below_90_percent n (width m * height m))
  end.

Definition nsew : list ascii := ["n"; "s"; "e"; "w"]%char.

(** [for i, has_wall in enumerate(wall_checks)], with [directions[i] = i]. *)
Fixpoint scan_checks (i : Z) (wall_checks : list bool) (w : world)
  : outcome world :=
  match wall_checks with
  | [] => Done w
  | has_wall :: rest =>
    if has_wall then
      let m := self w in
      let abs_direction := (direction m + i) `mod` 4 in
      m' ← set_wall m (self_x m) (self_y m) abs_direction;
      c ← py_get nsew abs_direction;
      scan_checks (i + 1) rest
        (World m' (tick w) (out w ++ [setWall (self_x m) (self_y m) c]))
    else scan_checks (i + 1) rest w
  end.

Definition scan_walls (w : world) : outcome world :=
  let '(wall_front, w) := query w in
  let '(wall_right, w) := query w in
  let '(wall_back, w) := query w in
  let '(wall_left, w) := query w in
  scan_checks 0 [wall_front; wall_right; wall_back; wall_left] w.

(** [while self.direction != target_direction]; one unit of fuel per
    execution of the loop body. *)
Fixpoint turn_to_direction (fuel : nat) (target_direction : Z) (w : world)
  : outcome world :=
  let m := self w in
  if bool_decide (direction m ≠ target_direction) then
    match fuel with
    | O => Timeout
    | S fuel' =>
      let diff := (target_direction - direction m) `mod` 4 in
      turn_to_direction fuel' target_direction
        (if bool_decide (diff = 1) then
           World (set_direction m ((direction m + 1) `mod` 4)) (tick w)
                 (out w ++ [turnRight])
         else if bool_decide (diff = 3) then
           World (set_direction m ((direction m - 1) `mod` 4)) (tick w)
                 (out w ++ [turnLeft])
         else if bool_decide (diff = 2) then
           World (set_direction m ((direction m + 2) `mod` 4)) (tick w)
                 (out w ++ [turnRight; turnRight])
         else w)
    end
  else Done w.

Definition move_forward (w : world) : outcome world :=
  let m := self w in
  '(dx, dy) ← get_direction_offset (direction m);
  let m1 := set_position m (self_x m + dx) (self_y m + dy) in
  let m2 := set_visited m1 ({[ (self_x m1, self_y m1) ]} ∪ visited m1) in
  Done (World m2 (tick w) (out w ++ [moveForward])).

(** ** The navigation loop *)

Inductive stop := speed_run_complete | no_valid_moves | maximum_steps.
Inductive flow := Continue | Break (why : stop).

Definition mark_goals (gs : list cell) : list command :=
  (λ g : cell, setColor g.1 g.2 Red) <$> gs.

(** The assignments of the reset branch, [self.x = 0] down to
    [self.goals = ...]. *)
Definition reset_self (m : mouse) : outcome mouse :=
  let m1 := set_direction (set_position m 0 0) 0 in
  let m2 := set_visited (set_phase m1 explore) {[ (0, 0) ]} in
  let m3 := set_walls m2 (make_grid (width m) (height m) 0) in
  m4 ← initialize_boundaries m3;
  Done (set_goals m4 (center_goals (width m) (height m))).

Definition reset_handler (w : world) : outcome world :=
  m ← reset_self (self w);
  Done (World m (tick w)
          (out w ++ [ackReset] ++ [clearAllColor; clearAllText; setColor 0 0 Green]
                 ++ mark_goals (goals m))).

(** The loop body of [run] from "Scan current position" to "Update
    flood fill values". *)
Definition observe (fuel : nat) (w : world) : outcome world :=
  w ← scan_walls w;
  let m := self w in
  let w := emit w [setColor (self_x m) (self_y m)
                     (match phase m with explore => Blue | speed_run => Yellow end)] in
  '(m, cmds) ← floodfill fuel m;
  Done (World m (tick w) (out w ++ cmds)).

(** The loop body of [run] from "Check if we've reached the goal" to the
    safety check at its end. *)
Definition advance (fuel : nat) (step_count : Z) (w : world)
  : outcome (world * flow) :=
  let m := self w in
  if at_goal m then
    match phase m with
    | explore =>
      Done (World (set_goals (set_phase m speed_run) [(0, 0)]) (tick w)
                  (out w ++ [setColor (self_x m) (self_y m) Green]),
            Continue)
    | speed_run =>
      Done (emit w [setColor (self_x m) (self_y m) Green],
            Break speed_run_complete)
    end
  else
    more ← should_explore_more m;
    best_direction ←
      (if more && bool_decide (phase m = explore) then explore_direction m
       else get_best_direction m);
    match best_direction with
    | Some d =>
      w ← turn_to_direction fuel d w;
      w ← move_forward w;
      if bool_decide (step_count > 10000) then Done (w, Break maximum_steps)
      else Done (w, Continue)
    | None => Done (w, Break no_valid_moves)
    end.

(** One iteration of [while True] in [run]; [step_count] is the value
    after the increment at the top of the iteration. *)
Definition cycle (fuel : nat) (step_count : Z) (w : world)
  : outcome (world * flow) :=
  let '(was_reset, w) := query w in
  if was_reset then
    w ← reset_handler w; Done (w, Continue)
  else
    w ← observe fuel w; advance fuel step_count w.

(** At most [n] iterations of the loop of [run], from [step_count]. *)
Fixpoint cycles (n : nat) (fuel : nat) (step_count : Z) (w : world)
  : outcome (Z * world * flow) :=
  match n with
  | O => Done (step_count, w, Continue)
  | S n' =>
    let step_count := step_count + 1 in
    '(w', fl) ← cycle fuel step_count w;
    match fl with
    | Continue => cycles n' fuel step_count w'
    | Break why => Done (step_count, w', Break why)
    end
  end.

Definition start (m : mouse) : world :=
  World m 0 ([setColor 0 0 Green] ++ mark_goals (goals m)).

(** [run]: [Timeout] when the loop is still going after [n] iterations. *)
Definition run (n fuel : nat) (m : mouse) : outcome (Z * world * stop) :=
  '(step_count, w, fl) ← cycles n fuel 0 (start m);
  match fl with
  | Break why => Done (step_count, w, why)
  | Continue => Timeout
  end.

End Controller.


(** * Specification predicates *)

(** A [w] by [h] grid: [w] columns of [h] entries. *)
Definition grid_shape {A} (w h : Z) (g : list (list A)) : Prop :=
  Z.of_nat (length g) = w ∧ Forall (λ col, Z.of_nat (length col) = h) g.

(** A cell of the data model: coordinates inside the grid. *)
Definition is_cell (m : mouse) (c : cell) : Prop :=
  0 ≤ c.1 < width m ∧ 0 ≤ c.2 < height m.

Definition is_direction (d : Z) : Prop := 0 ≤ d < 4.

(** A grid whose entry at every cell [(x, y)] is [f x y]. *)
Definition grid_is {A} (w h : Z) (g : list (list A)) (f : Z → Z → A) : Prop :=
  grid_shape w h g
  ∧ ∀ x y, 0 ≤ x < w → 0 ≤ y < h → grid_get g x y = Done (f x y).

(** The test [mask & (1 << d)] of [is_wall]. *)
Definition has_bit (mask d : Z) : bool := negb (Z.land mask (Z.shiftl 1 d) =? 0).

(** The wall mask of cell [(x, y)] in a [w] by [h] maze with only its
    boundary walls: South=4 on row 0, North=1 on the top row, West=8 on
    column 0, East=2 on the last column. *)
Definition boundary_mask (w h x y : Z) : Z :=
  Z.lor (Z.lor (Z.lor (if decide (y = 0) then 4 else 0)
                      (if decide (y = h - 1) then 1 else 0))
               (if decide (x = 0) then 8 else 0))
        (if decide (x = w - 1) then 2 else 0).

(** The cell next to [c] in direction [d], by the table of
    [get_direction_offset]. *)
Definition neighbor (c : cell) (d : Z) : cell :=
  match get_direction_offset d with
  | Done (dx, dy) => (c.1 + dx, c.2 + dy)
  | _ => c
  end.

(** [(direction + 2) % 4] *)
Definition opposite (d : Z) : Z := (d + 2) `mod` 4.

(** The invariants of the maze model: positive dimensions and a wall
    grid of that size. *)
Record maze_ok (m : mouse) : Prop := {
  maze_width_pos : 1 ≤ width m;
  maze_height_pos : 1 ≤ height m;
  maze_walls_shape : grid_shape (width m) (height m) (walls m)
}.

(** A sequence of [set_wall(x, y, d)] calls. *)
Fixpoint set_wall_calls (calls : list (Z * Z * Z)) (m : mouse) : outcome mouse :=
  match calls with
  | [] => Done m
  | (x, y, d) :: rest => m' ← set_wall m x y d; set_wall_calls rest m'
  end.

(** The wall sides written by [set_wall(a, b, e)]: side [e] of [(a, b)]
    and the opposite side of its neighbour. *)
Definition touched (a b e x y d : Z) : bool :=
  bool_decide ((x, y) = (a, b) ∧ d = e)
  || bool_decide ((x, y) = neighbor (a, b) e ∧ d = opposite e).

(** Wall symmetry: a wall seen from a cell is seen from the neighbouring
    cell on its opposite side. *)
Definition walls_symmetric (m : mouse) : Prop :=
  ∀ x y d, is_cell m (x, y) → is_direction d → is_cell m (neighbor (x, y) d) →
    is_wall m x y d
    = is_wall m (neighbor (x, y) d).1 (neighbor (x, y) d).2 (opposite d).

(** A goal cell sits at the centre of a [w] by [h] maze: it is a cell and
    the midpoint of each axis lies within its span. *)
Definition at_center (w h : Z) (c : cell) : Prop :=
  (0 ≤ c.1 < w ∧ 0 ≤ c.2 < h)
  ∧ 2 * c.1 ≤ w ≤ 2 * c.1 + 2 ∧ 2 * c.2 ≤ h ≤ 2 * c.2 + 2.

(** The turn commands the orientation algorithm prescribes for
    [diff = (target - heading) mod 4]. *)
Definition turns (diff : Z) : list command :=
  match diff with
  | 0 => []
  | 1 => [turnRight]
  | 3 => [turnLeft]
  | _ => [turnRight; turnRight]
  end.

(** ** Paths and distances *)

(** One hop: from cell [u] through its side [d], which has no wall, to
    the neighbouring cell [v] of the grid. *)
Definition hop (m : mouse) (u : cell) (d : Z) (v : cell) : Prop :=
  is_direction d ∧ is_wall m u.1 u.2 d = Done false
  ∧ v = neighbor u d ∧ is_cell m v.

(** A wall-respecting path of [n] hops from a cell to some goal cell. *)
Inductive path_to_goal (m : mouse) : cell → nat → Prop :=
| path_goal c : c ∈ goals m → path_to_goal m c 0
| path_hop c d c' n :
    hop m c d c' → path_to_goal m c' n → path_to_goal m c (S n).

(** The same path walked from the goal outwards, the way the flood
    crosses the cell sides. *)
Inductive flooded (m : mouse) : cell → nat → Prop :=
| flooded_goal c : c ∈ goals m → flooded m c 0
| flooded_hop u d c n :
    flooded m u n → hop m u d c → flooded m c (S n).

(** The flood value stored for a cell. *)
Definition flood_at (g : list (list fval)) (c : cell) : outcome fval :=
  grid_get g c.1 c.2.

#[global] Instance fval_eq_dec : EqDecision fval.
Proof. solve_decision. Defined.

(** Number of cells still at infinity. *)
Definition count_inf (g : list (list fval)) : nat :=
  sum_list ((λ col, length (filter (λ v, v = Inf) col)) <$> g).

(** The invariant of the [while queue] loop of [floodfill]. *)
Record flood_inv (m : mouse) (g : list (list fval)) (queue : list cell) : Prop := {
  fi_shape : grid_shape (width m) (height m) g;
  fi_queue : Forall (is_cell m) queue;
  fi_level : ∃ n front back,
      queue = front ++ back
      ∧ Forall (λ c, flood_at g c = Done (Fin n)) front
      ∧ Forall (λ c, flood_at g c = Done (Fin (n + 1))) back
      ∧ ∀ c k, is_cell m c → flood_at g c = Done (Fin k) → k ≤ n + 1;
  fi_sound : ∀ c k, is_cell m c → flood_at g c = Done (Fin k) →
      0 ≤ k ∧ flooded m c (Z.to_nat k);
  fi_closed : ∀ c k, is_cell m c → flood_at g c = Done (Fin k) →
      c ∈ queue
      ∨ ∀ d c', hop m c d c' → ∃ k', flood_at g c' = Done (Fin k') ∧ k' ≤ k + 1;
  fi_goals : ∀ c, c ∈ goals m → flood_at g c = Done (Fin 0)
}.

(** A command that turns or moves the robot. *)
Definition is_motion (c : command) : bool :=
  match c with
  | moveForward | turnRight | turnLeft => true
  | _ => false
  end.

(** What the four-direction loop of [floodfill] does for the dequeued
    cell [u] of distance [n]: from grid [g] to grid [g'], appending
    [added] to the queue, the sides [ds] being dealt with. *)
Record flood_dirs_post (m : mouse) (u : cell) (n : Z) (ds : list Z)
    (g g' : list (list fval)) (added : list cell) : Prop := {
  fd_shape : grid_shape (width m) (height m) g';
  fd_keep : ∀ c k, is_cell m c → flood_at g c = Done (Fin k) →
      flood_at g' c = Done (Fin k);
  fd_new : ∀ c k, is_cell m c → flood_at g' c = Done (Fin k) →
      flood_at g c = Done (Fin k)
      ∨ (k = n + 1 ∧ c ∈ added ∧ ∃ d, hop m u d c);
  fd_added : Forall (λ c, is_cell m c ∧ flood_at g' c = Done (Fin (n + 1))) added;
  fd_done : ∀ d c', d ∈ ds → hop m u d c' → ∃ k, flood_at g' c' = Done (Fin k);
  fd_count : (count_inf g' + length added = count_inf g)%nat
}.

(** The controller just after [__init__] for a 3 by 3 maze. *)
Definition maze_3x3 : mouse :=
  Mouse 3 3 0 0 0 [[12; 8; 9]; [4; 0; 1]; [6; 2; 3]]
        (make_grid 3 3 (Fin 0)) [(1, 1)] explore {[ (0, 0) ]}.

(** The invariant of the controller between two navigation cycles. *)
Record mouse_ok (m : mouse) : Prop := {
  mo_maze : maze_ok m;
  mo_flood : grid_shape (width m) (height m) (flood_values m);
  mo_goals : Forall (is_cell m) (goals m);
  mo_goals_len : (length (goals m) ≤ 4)%nat;
  mo_pos : is_cell m (self_x m, self_y m);
  mo_dir : is_direction (direction m)
}.

(** Fuel that is enough for the inner loops of one navigation cycle of a
    [w] by [h] maze. *)
Definition cycle_fuel (w h : Z) : nat := (4 + Z.to_nat (w * h))%nat.

(** A selected direction, if any, leads through an open side of the
    robot's cell to a cell of the grid. *)
Definition open_move (m : mouse) (best_direction : option Z) : Prop :=
  ∀ d, best_direction = Some d →
    is_direction d
    ∧ is_wall m (self_x m) (self_y m) d = Done false
    ∧ is_cell m (neighbor (self_x m, self_y m) d).

(** ** Move selection, specified *)

(** The flood value [get_best_direction] weighs for direction [d]: that
    of the neighbouring cell, when that side of the robot's cell is open
    and the neighbour is in the grid. *)
Definition candidate (m : mouse) (d : Z) : option fval :=
  match is_wall m (self_x m) (self_y m) d with
  | Done false =>
    let c := neighbor (self_x m, self_y m) d in
    if in_bounds m c.1 c.2 then
      match grid_get (flood_values m) c.1 c.2 with
      | Done v => Some v
      | _ => None
      end
    else None
  | _ => None
  end.

(** The score the exploration branch weighs: 100 less for a neighbour
    that has not been visited. *)
Definition explore_score (m : mouse) (d : Z) : option fval :=
  match candidate m d with
  | Some v =>
    Some (if bool_decide (neighbor (self_x m, self_y m) d ∉ visited m)
          then fval_add v (-100) else v)
  | None => None
  end.

(** [o] is the first direction of 0..3 with the least score, provided
    that score is below infinity; [None] when there is none. *)
Definition least_first (score : Z → option fval) (o : option Z) : Prop :=
  match o with
  | Some d =>
    is_direction d
    ∧ ∃ v, score d = Some (Fin v)
           ∧ ∀ d' v', is_direction d' → score d' = Some v' →
               fval_lt v' (Fin v) = false
               ∧ (d' < d → fval_lt (Fin v) v' = true)
  | None => ∀ d' v', is_direction d' → score d' = Some v' → v' = Inf
  end.

(** A goal that Python's indexing of a [w] by [h] grid rejects. *)
Definition outside_indexing (w h : Z) (c : cell) : Prop :=
  ¬ (- w ≤ c.1 < w) ∨ ¬ (- h ≤ c.2 < h).

(** ** The navigation cycle, specified *)

(** The sides written by [scan_walls] at cell [(a, b)] and heading [dir]
    for the readings [checks], the first of them for relative direction
    [i] (front 0, right 1, back 2, left 3). *)
Fixpoint scanned (a b dir i : Z) (checks : list bool) (x y d : Z) : bool :=
  match checks with
  | [] => false
  | has_wall :: rest =>
    (has_wall && touched a b ((dir + i) `mod` 4) x y d)
    || scanned a b dir (i + 1) rest x y d
  end.

(** The character of ['nsew'] at index [e], for a direction [e]. *)
Definition wall_letter (e : Z) : ascii :=
  match e with
  | 0 => "n"
  | 1 => "s"
  | 2 => "e"
  | _ => "w"
  end%char.

(** The commands issued by [scan_walls] at cell [(a, b)] and heading [dir]
    for the readings [checks], the first of them for relative direction
    [i]: one [setWall] per reading that is true, in the order of the
    readings, with the letter of the absolute direction. *)
Fixpoint scan_commands (a b dir i : Z) (checks : list bool) : list command :=
  match checks with
  | [] => []
  | has_wall :: rest =>
    (if has_wall : bool
     then [setWall a b (wall_letter ((dir + i) `mod` 4))] else [])
    ++ scan_commands a b dir (i + 1) rest
  end.

(** The controller after the move of a cycle in direction [d]: heading
    [d], position one cell further, that cell visited. *)
Definition moved (m : mouse) (d : Z) : mouse :=
  let c := neighbor (self_x m, self_y m) d in
  set_visited (set_position (set_direction m d) c.1 c.2) ({[ c ]} ∪ visited m).

(** Invariants of [run]: the robot's cell has been visited, and the goal
    list is the centre of the maze while exploring and the start cell
    while speed running. *)
Definition position_visited (m : mouse) : Prop :=
  (self_x m, self_y m) ∈ visited m.

Definition goals_by_phase (m : mouse) : Prop :=
  match phase m with
  | explore => goals m = center_goals (width m) (height m)
  | speed_run => goals m = [(0, 0)]
  end.

(** ** The simulator protocol: [API.query] *)

(** Standard input is the list of lines still to be read; [input()] on
    the empty list raises [EOFError], here [None].  [strip] stands for
    Python's [str.strip]. *)
Fixpoint skip_acknowledgments (strip : string → string) (response : string)
    (lines : list string) : option (string * list string) :=
  if bool_decide (response ∈ ["ack"; "reset"]%string) then
    match lines with
    | [] => None
    | line :: rest => skip_acknowledgments strip (strip line) rest
    end
  else Some (response, lines).

(** [API.query]: the response and the lines left on standard input. *)
Definition API_query (strip : string → string) (lines : list string)
  : option (string * list string) :=
  match lines with
  | [] => None
  | line :: rest => skip_acknowledgments strip (strip line) rest
  end.

(** [API.wasReset], [API.wallFront], ...: [API.query(...) == "true"]. *)
Definition API_query_bool (strip : string → string) (lines : list string)
  : option (bool * list string) :=
  match API_query strip lines with
  | Some (response, rest) => Some (bool_decide (response = "true"%string), rest)
  | None => None
  end.

(** * Lists and grids under Python indexing *)

Lemma bind_Done {A B} (f : A → outcome B) (a : A) : (Done a ≫= f) = f a.
Proof. reflexivity. Qed.

Lemma bind_Done_inv {A B} (f : A → outcome B) (o : outcome A) (b : B) :
  (o ≫= f) = Done b → ∃ a, o = Done a ∧ f a = Done b.
Proof. destruct o; simpl; intros; [eauto | done | done]. Qed.

Lemma in_bounds_true m x y : in_bounds m x y = true ↔ is_cell m (x, y).
Proof.
  unfold in_bounds, is_cell. simpl.
  rewrite andb_true_iff, !bool_decide_eq_true. done.
Qed.

Lemma in_bounds_false m x y : in_bounds m x y = false ↔ ¬ is_cell m (x, y).
Proof. rewrite <- in_bounds_true. destruct (in_bounds m x y); naive_solver. Qed.

Lemma py_norm_in {A} (l : list A) i :
  0 ≤ i < Z.of_nat (length l) → py_norm l i = Done (Z.to_nat i).
Proof. intros H. unfold py_norm. by rewrite bool_decide_eq_true_2. Qed.

Lemma py_get_in {A} (l : list A) i :
  0 ≤ i < Z.of_nat (length l) →
  ∃ a, l !! Z.to_nat i = Some a ∧ py_get l i = Done a.
Proof.
  intros H. destruct (lookup_lt_is_Some_2 l (Z.to_nat i)) as [a Ha]; [lia|].
  exists a. split; [done|]. unfold py_get. rewrite py_norm_in by done.
  simpl. by rewrite Ha.
Qed.

Lemma py_set_in {A} (l : list A) i v :
  0 ≤ i < Z.of_nat (length l) → py_set l i v = Done (<[Z.to_nat i := v]> l).
Proof. intros H. unfold py_set. by rewrite py_norm_in. Qed.

Section Grid.
Context {A : Type}.
Implicit Types (g : list (list A)) (v : A).

Lemma make_grid_shape w h v : 0 ≤ w → 0 ≤ h → grid_shape w h (make_grid w h v).
Proof.
  intros Hw Hh. split.
  - unfold make_grid. rewrite length_replicate. lia.
  - unfold make_grid. apply Forall_replicate. rewrite length_replicate. lia.
Qed.

Lemma grid_get_Done w h g x y :
  grid_shape w h g → 0 ≤ x < w → 0 ≤ y < h → ∃ v, grid_get g x y = Done v.
Proof.
  intros [Hl Hc] Hx Hy.
  destruct (py_get_in g x) as (col & Hcol & Hget); [lia|].
  assert (Z.of_nat (length col) = h) as Hlen.
  { eapply (Forall_lookup_1 _ _ _ _ Hc Hcol). }
  destruct (py_get_in col y) as (v & Hv & Hget'); [lia|].
  exists v. unfold grid_get. rewrite Hget. simpl. done.
Qed.

Lemma grid_set_Done w h g x y v :
  grid_shape w h g → 0 ≤ x < w → 0 ≤ y < h →
  ∃ g', grid_set g x y v = Done g' ∧ grid_shape w h g'
        ∧ grid_get g' x y = Done v
        ∧ ∀ x' y', 0 ≤ x' < w → 0 ≤ y' < h → (x', y') ≠ (x, y) →
                   grid_get g' x' y' = grid_get g x' y'.
Proof.
  intros [Hl Hc] Hx Hy.
  destruct (py_get_in g x) as (col & Hcol & Hget); [lia|].
  assert (Z.of_nat (length col) = h) as Hlen.
  { eapply (Forall_lookup_1 _ _ _ _ Hc Hcol). }
  exists (<[Z.to_nat x := <[Z.to_nat y := v]> col]> g).
  split; [|split; [|split]].
  - unfold grid_set. rewrite Hget. simpl.
    rewrite py_set_in by lia. simpl. rewrite py_set_in by lia. done.
  - split; [rewrite length_insert; lia|].
    apply Forall_insert; [done|]. rewrite length_insert. done.
  - unfold grid_get, py_get. rewrite py_norm_in by (rewrite length_insert; lia).
    simpl. rewrite list_lookup_insert_eq by lia. simpl.
    rewrite py_norm_in by (rewrite length_insert; lia). simpl.
    rewrite list_lookup_insert_eq by lia. done.
  - intros x' y' Hx' Hy' Hne.
    unfold grid_get, py_get.
    rewrite !py_norm_in by (rewrite ?length_insert; lia). simpl.
    destruct (decide (x' = x)) as [->|Hxx].
    + rewrite list_lookup_insert_eq by lia. rewrite Hcol. simpl.
      rewrite !py_norm_in by (rewrite ?length_insert; lia). simpl.
      rewrite list_lookup_insert_ne; [done|].
      intros Heq. apply Hne. f_equal. lia.
    + rewrite list_lookup_insert_ne; [done|]. lia.
Qed.

End Grid.

(** * Loops over [range] *)

Lemma for_each_seqZ_ind {St} (P : Z → St → Prop) (body : Z → St → outcome St) k :
  ∀ a s,
    P a s →
    (∀ i s, a ≤ i < a + Z.of_nat k → P i s →
            ∃ s', body i s = Done s' ∧ P (i + 1) s') →
    ∃ s', for_each (seqZ a (Z.of_nat k)) body s = Done s' ∧ P (a + Z.of_nat k) s'.
Proof.
  induction k as [|k IH]; intros a s Hs Hbody.
  - exists s. rewrite Z.add_0_r. done.
  - rewrite seqZ_cons by lia. simpl.
    destruct (Hbody a s) as (s1 & Hb & Hs1); [lia | done |].
    rewrite Hb. simpl.
    replace (Z.pred (Z.of_nat (S k))) with (Z.of_nat k) by lia.
    destruct (IH (Z.succ a) s1) as (s2 & Hf & Hs2).
    + by replace (Z.succ a) with (a + 1) by lia.
    + intros i s' Hi. apply Hbody. lia.
    + exists s2. split; [done|].
      by replace (a + Z.of_nat (S k)) with (Z.succ a + Z.of_nat k) by lia.
Qed.

Lemma for_each_range_ind {St} (P : Z → St → Prop) (body : Z → St → outcome St) n s :
  0 ≤ n →
  P 0 s →
  (∀ i s, 0 ≤ i < n → P i s → ∃ s', body i s = Done s' ∧ P (i + 1) s') →
  ∃ s', for_each (range n) body s = Done s' ∧ P n s'.
Proof.
  intros Hn Hs Hbody. unfold range.
  destruct (for_each_seqZ_ind P body (Z.to_nat n) 0 s) as (s' & Hf & Hs').
  - done.
  - intros i s0 Hi. apply Hbody. lia.
  - exists s'. rewrite Z2Nat.id in Hf, Hs' by done. done.
Qed.

Section GridIs.
Context {A : Type}.
Implicit Types (g : list (list A)) (f : Z → Z → A).

Lemma grid_is_ext w h g f f' :
  (∀ x y, 0 ≤ x < w → 0 ≤ y < h → f x y = f' x y) →
  grid_is w h g f → grid_is w h g f'.
Proof.
  intros Hext [Hs Hg]. split; [done|].
  intros x y Hx Hy. rewrite Hg by done. by rewrite Hext.
Qed.

Lemma make_grid_is w h (v : A) :
  0 ≤ w → 0 ≤ h → grid_is w h (make_grid w h v) (λ _ _, v).
Proof.
  intros Hw Hh. split; [by apply make_grid_shape|].
  intros x y Hx Hy. unfold grid_get, py_get, make_grid.
  rewrite py_norm_in by (rewrite length_replicate; lia). simpl.
  rewrite lookup_replicate_2 by lia. simpl.
  rewrite py_norm_in by (rewrite length_replicate; lia). simpl.
  rewrite lookup_replicate_2 by lia. done.
Qed.

Lemma grid_set_is w h g f x y v :
  grid_is w h g f → 0 ≤ x < w → 0 ≤ y < h →
  ∃ g', grid_set g x y v = Done g'
        ∧ grid_is w h g'
            (λ x' y', if decide ((x', y') = (x, y)) then v else f x' y').
Proof.
  intros [Hs Hg] Hx Hy.
  destruct (grid_set_Done w h g x y v Hs Hx Hy) as (g' & Hset & Hs' & Hsame & Hother).
  exists g'. split; [done|]. split; [done|].
  intros x' y' Hx' Hy'. case_decide as Hc.
  - by simplify_eq.
  - rewrite Hother by done. by apply Hg.
Qed.

End GridIs.

(** * Wall bits and directions *)

Ltac dir_cases d :=
  let H := fresh in
  assert (d = 0 ∨ d = 1 ∨ d = 2 ∨ d = 3) as H by (unfold is_direction in *; lia);
  destruct H as [-> | [-> | [-> | ->]]].

Lemma has_bit_testbit w d : 0 ≤ d → has_bit w d = Z.testbit w d.
Proof.
  intros Hd. unfold has_bit. rewrite Z.shiftl_1_l.
  destruct (Z.testbit w d) eqn:Hb.
  - apply negb_true_iff, Z.eqb_neq. intros H0.
    assert (Z.testbit (Z.land w (2 ^ d)) d = true) as Ht.
    { rewrite Z.land_spec, Hb, Z.pow2_bits_true by done. done. }
    rewrite H0, Z.bits_0 in Ht. done.
  - apply negb_false_iff, Z.eqb_eq. apply Z.bits_inj_0. intros k.
    rewrite Z.land_spec. destruct (decide (k = d)) as [->|Hk].
    + by rewrite Hb.
    + destruct (decide (0 ≤ k)).
      * rewrite (Z.pow2_bits_false d k) by lia. apply andb_false_r.
      * rewrite (Z.testbit_neg_r w k) by lia. done.
Qed.

Lemma has_bit_lor w d d' :
  0 ≤ d → 0 ≤ d' →
  has_bit (Z.lor w (Z.shiftl 1 d)) d' = has_bit w d' || bool_decide (d' = d).
Proof.
  intros Hd Hd'. rewrite !has_bit_testbit by done.
  rewrite Z.lor_spec, Z.shiftl_1_l. f_equal.
  case_bool_decide as Heq.
  - subst. by apply Z.pow2_bits_true.
  - apply Z.pow2_bits_false. lia.
Qed.

Lemma get_direction_bit_Done d : 0 ≤ d → get_direction_bit d = Done (Z.shiftl 1 d).
Proof. intros H. unfold get_direction_bit. by rewrite bool_decide_eq_false_2 by lia. Qed.

Lemma get_direction_offset_Done x y d :
  is_direction d →
  ∃ dx dy, get_direction_offset d = Done (dx, dy)
           ∧ neighbor (x, y) d = (x + dx, y + dy).
Proof.
  intros Hd.
  dir_cases d; unfold neighbor; vm_compute get_direction_offset;
    (do 2 eexists; split; reflexivity).
Qed.

Lemma opposite_direction d : is_direction d → is_direction (opposite d).
Proof. unfold is_direction, opposite. intros. apply Z.mod_pos_bound. lia. Qed.

Lemma opposite_opposite d : is_direction d → opposite (opposite d) = d.
Proof. intros Hd. dir_cases d; reflexivity. Qed.

Lemma neighbor_opposite c d : is_direction d → neighbor (neighbor c d) (opposite d) = c.
Proof.
  intros Hd. destruct c as [x y].
  dir_cases d; unfold opposite, neighbor; simpl;
    vm_compute get_direction_offset; simpl; f_equal; lia.
Qed.

Lemma neighbor_neq c d : is_direction d → neighbor c d ≠ c.
Proof.
  intros Hd. destruct c as [x y].
  dir_cases d; unfold neighbor; vm_compute get_direction_offset; simpl;
    intros ?; simplify_eq; lia.
Qed.

Lemma is_wall_outside m x y d : ¬ is_cell m (x, y) → is_wall m x y d = Done true.
Proof.
  unfold is_cell, is_wall. simpl. intros H.
  destruct (_ || _) eqn:E; [done|].
  rewrite !orb_false_iff in E. destruct E as [[[? ?] ?] ?]. lia.
Qed.

Lemma is_wall_inside m x y d w :
  is_cell m (x, y) → 0 ≤ d → grid_get (walls m) x y = Done w →
  is_wall m x y d = Done (has_bit w d).
Proof.
  unfold is_cell, is_wall. simpl. intros H Hd Hw.
  destruct (_ || _) eqn:E.
  { rewrite !orb_true_iff in E. lia. }
  rewrite Hw. simpl. rewrite get_direction_bit_Done by done. done.
Qed.

(** * Boundary walls of a fresh maze *)

Ltac pair_neq :=
  repeat match goal with
  | H : (?a, ?b) ≠ (?c, ?d) |- _ =>
    assert (a ≠ c ∨ b ≠ d)
      by (destruct (decide (a = c)); destruct (decide (b = d));
          [exfalso; apply H; congruence | auto ..]);
    clear H
  end.

Ltac grid_cases :=
  repeat match goal with
  | |- context [decide ?P] => destruct (decide P)
  end;
  simplify_eq; pair_neq; first [lia | reflexivity].

Lemma or_wall_is w h g f x y bit :
  grid_is w h g f → 0 ≤ x < w → 0 ≤ y < h →
  ∃ g', or_wall g x y bit = Done g'
        ∧ grid_is w h g'
            (λ x' y', if decide ((x', y') = (x, y)) then Z.lor (f x y) bit
                      else f x' y').
Proof.
  intros Hg Hx Hy. unfold or_wall.
  destruct Hg as [Hs Hf]. rewrite Hf by done. simpl.
  by apply grid_set_is.
Qed.

Lemma initialize_boundaries_Done m :
  1 ≤ width m → 1 ≤ height m →
  grid_is (width m) (height m) (walls m) (λ _ _, 0) →
  ∃ ws, initialize_boundaries m = Done (set_walls m ws)
        ∧ grid_is (width m) (height m) ws (boundary_mask (width m) (height m)).
Proof.
  intros Hw Hh H0. unfold initialize_boundaries.
  set (W := width m) in *. set (H := height m) in *.
  pose (row := λ y : Z, Z.lor (if decide (y = 0) then 4 else 0)
                          (if decide (y = H - 1) then 1 else 0)).
  destruct (for_each_range_ind
    (λ k ws, grid_is W H ws (λ x y, if decide (x < k) then row y else 0))
    (λ x ws, ws' ← or_wall ws x 0 4; or_wall ws' x (H - 1) 1)
    W (walls m)) as (ws1 & Hloop1 & Hws1).
  - lia.
  - eapply grid_is_ext; [|exact H0]. intros x y ? ?. simpl.
    case_decide; [lia | done].
  - intros k ws Hk Hws.
    destruct (or_wall_is W H ws _ k 0 4 Hws) as (g1 & -> & Hg1); [lia..|].
    simpl.
    destruct (or_wall_is W H g1 _ k (H - 1) 1 Hg1) as (g2 & -> & Hg2); [lia..|].
    exists g2. split; [done|].
    eapply grid_is_ext; [|exact Hg2]. intros x y ? ?. simpl. unfold row.
    clear Hg1 Hg2 Hws. grid_cases.
  - rewrite Hloop1. simpl.
    destruct (for_each_range_ind
      (λ k ws, grid_is W H ws (λ x y,
         if decide (y < k)
         then Z.lor (Z.lor (row y) (if decide (x = 0) then 8 else 0))
                    (if decide (x = W - 1) then 2 else 0)
         else row y))
      (λ y ws, ws' ← or_wall ws 0 y 8; or_wall ws' (W - 1) y 2)
      H ws1) as (ws2 & Hloop2 & Hws2).
    + lia.
    + eapply grid_is_ext; [|exact Hws1]. intros x y ? ?. simpl.
      repeat case_decide; try lia; done.
    + intros k ws Hk Hws.
      destruct (or_wall_is W H ws _ 0 k 8 Hws) as (g1 & -> & Hg1); [lia..|].
      simpl.
      destruct (or_wall_is W H g1 _ (W - 1) k 2 Hg1) as (g2 & -> & Hg2); [lia..|].
      exists g2. split; [done|].
      eapply grid_is_ext; [|exact Hg2]. intros x y ? ?. simpl. unfold row.
      clear Hg1 Hg2 Hws. grid_cases.
    + rewrite Hloop2. simpl. exists ws2. split; [done|].
      eapply grid_is_ext; [|exact Hws2]. intros x y ? ?. simpl.
      unfold boundary_mask, row. case_decide; [done | lia].
Qed.

Lemma boundary_mask_bit w h x y d :
  0 ≤ x < w → 0 ≤ y < h → is_direction d →
  has_bit (boundary_mask w h x y) d
  = negb (bool_decide (0 ≤ (neighbor (x, y) d).1 < w ∧ 0 ≤ (neighbor (x, y) d).2 < h)).
Proof.
  intros Hx Hy Hd. unfold boundary_mask.
  dir_cases d; unfold neighbor; vm_compute get_direction_offset; simpl;
    repeat match goal with
    | |- context [decide ?P] => destruct (decide P)
    end;
    case_bool_decide; first [lia | reflexivity].
Qed.

Lemma init_Done w h :
  1 ≤ w → 1 ≤ h →
  ∃ ws, init w h = Done (Mouse w h 0 0 0 ws (make_grid w h (Fin 0))
                           (center_goals w h) explore {[ (0, 0) ]})
        ∧ grid_is w h ws (boundary_mask w h).
Proof.
  intros Hw Hh. unfold init.
  destruct (initialize_boundaries_Done
              (Mouse w h 0 0 0 (make_grid w h 0) (make_grid w h (Fin 0))
                     (center_goals w h) explore {[ (0, 0) ]}))
    as (ws & Hinit & Hws); simpl; [done | done | apply make_grid_is; lia |].
  exists ws. split; [|done]. rewrite Hinit. done.
Qed.

(** * The effect of [set_wall] *)

Lemma set_wall_inside m a b e :
  maze_ok m → is_cell m (a, b) → is_direction e →
  ∃ ws, set_wall m a b e = Done (set_walls m ws)
        ∧ grid_shape (width m) (height m) ws
        ∧ ∀ x y d, is_cell m (x, y) → is_direction d →
            ∃ b0, is_wall m x y d = Done b0
                  ∧ is_wall (set_walls m ws) x y d = Done (b0 || touched a b e x y d).
Proof.
  intros [Hw Hh Hs] Hab He. unfold set_wall.
  rewrite (proj2 (in_bounds_true m a b)) by done.
  destruct Hab as [Ha Hb]; simpl in Ha, Hb.
  destruct (grid_get_Done _ _ _ a b Hs Ha Hb) as (w0 & Hw0). rewrite Hw0. simpl.
  rewrite (get_direction_bit_Done e) by (unfold is_direction in He; lia). simpl.
  destruct (grid_set_Done _ _ _ a b (Z.lor w0 (Z.shiftl 1 e)) Hs Ha Hb)
    as (ws1 & -> & Hs1 & Hsame1 & Hother1). simpl.
  destruct (get_direction_offset_Done a b e He) as (dx & dy & -> & Hn). simpl.
  pose proof (neighbor_neq (a, b) e He) as Hne. rewrite Hn in Hne.
  pose proof (opposite_direction e He) as Hopp.
  assert (∀ x y d w1 (extra : bool),
    is_cell m (x, y) → is_direction d →
    ∀ ws', grid_get ws' x y = Done w1 →
    (∀ b0, is_wall m x y d = Done b0 → has_bit w1 d = b0 || extra) →
    ∃ b0, is_wall m x y d = Done b0
          ∧ is_wall (set_walls m ws') x y d = Done (b0 || extra)) as Hfin.
  { intros x y d w1 extra Hc Hd ws' Hw1 Hbit.
    destruct Hc as [Hx Hy]; simpl in Hx, Hy.
    destruct (grid_get_Done _ _ _ x y Hs Hx Hy) as (v & Hv).
    exists (has_bit v d). split.
    - apply is_wall_inside; [done | unfold is_direction in Hd; lia | done].
    - rewrite <- (Hbit (has_bit v d)).
      + apply is_wall_inside; [done | unfold is_direction in Hd; lia | done].
      + apply is_wall_inside; [done | unfold is_direction in Hd; lia | done]. }
  destruct (in_bounds m (a + dx) (b + dy)) eqn:Hadj.
  - apply in_bounds_true in Hadj. destruct Hadj as [Hax Hay]; simpl in Hax, Hay.
    destruct (grid_get_Done _ _ _ (a + dx) (b + dy) Hs1 Hax Hay) as (w' & Hw').
    rewrite Hw'. simpl.
    rewrite get_direction_bit_Done by (unfold is_direction in Hopp; fold (opposite e); lia).
    simpl.
    destruct (grid_set_Done _ _ _ (a + dx) (b + dy)
                (Z.lor w' (Z.shiftl 1 ((e + 2) `mod` 4))) Hs1 Hax Hay)
      as (ws2 & -> & Hs2 & Hsame2 & Hother2). simpl.
    exists ws2. split; [done|]. split; [done|].
    intros x y d Hc Hd.
    destruct (Hc) as [Hx Hy]; simpl in Hx, Hy.
    destruct (grid_get_Done _ _ _ x y Hs2 Hx Hy) as (w1 & Hw1).
    apply (Hfin x y d w1); [done..|].
    intros b0 Hb0.
    destruct (grid_get_Done _ _ _ x y Hs Hx Hy) as (v & Hv).
    rewrite (is_wall_inside m x y d v) in Hb0
      by (try done; unfold is_direction in Hd; lia).
    injection Hb0 as <-. unfold touched. rewrite Hn.
    destruct (decide ((x, y) = (a + dx, b + dy))) as [Heq|Hneq].
    + simplify_eq. rewrite Hsame2 in Hw1. injection Hw1 as <-.
      rewrite Hother1 in Hw' by (try done; congruence). rewrite Hv in Hw'.
      injection Hw' as <-.
      fold (opposite e). rewrite has_bit_lor
        by (unfold is_direction in *; lia).
      f_equal. rewrite (bool_decide_eq_false_2 (_ ∧ d = e)) by naive_solver.
      simpl. apply bool_decide_ext. naive_solver.
    + rewrite Hother2 in Hw1 by done.
      rewrite (bool_decide_eq_false_2 (_ ∧ d = opposite e)) by naive_solver.
      rewrite orb_false_r.
      destruct (decide ((x, y) = (a, b))) as [Heq|Hneq'].
      * simplify_eq. rewrite Hsame1 in Hw1. injection Hw1 as <-.
        rewrite Hw0 in Hv. injection Hv as <-.
        rewrite has_bit_lor by (unfold is_direction in *; lia).
        f_equal. apply bool_decide_ext. naive_solver.
      * rewrite Hother1 in Hw1 by done. rewrite Hv in Hw1. injection Hw1 as <-.
        rewrite (bool_decide_eq_false_2 (_ ∧ d = e)) by naive_solver.
        by rewrite orb_false_r.
  - apply in_bounds_false in Hadj.
    exists ws1. split; [done|]. split; [done|].
    intros x y d Hc Hd.
    destruct (Hc) as [Hx Hy]; simpl in Hx, Hy.
    destruct (grid_get_Done _ _ _ x y Hs1 Hx Hy) as (w1 & Hw1).
    apply (Hfin x y d w1); [done..|].
    intros b0 Hb0.
    destruct (grid_get_Done _ _ _ x y Hs Hx Hy) as (v & Hv).
    rewrite (is_wall_inside m x y d v) in Hb0
      by (try done; unfold is_direction in Hd; lia).
    injection Hb0 as <-. unfold touched. rewrite Hn.
    rewrite (bool_decide_eq_false_2 (_ ∧ d = opposite e)).
    2:{ intros [Heq _]. apply Hadj. by rewrite <- Heq. }
    rewrite orb_false_r.
    destruct (decide ((x, y) = (a, b))) as [Heq|Hneq'].
    + simplify_eq. rewrite Hsame1 in Hw1. injection Hw1 as <-.
      rewrite Hw0 in Hv. injection Hv as <-.
      rewrite has_bit_lor by (unfold is_direction in *; lia).
      f_equal. apply bool_decide_ext. naive_solver.
    + rewrite Hother1 in Hw1 by done. rewrite Hv in Hw1. injection Hw1 as <-.
      rewrite (bool_decide_eq_false_2 (_ ∧ d = e)) by naive_solver.
      by rewrite orb_false_r.
Qed.

Lemma touched_symmetric a b e x y d :
  is_direction e → is_direction d →
  touched a b e x y d
  = touched a b e (neighbor (x, y) d).1 (neighbor (x, y) d).2 (opposite d).
Proof.
  intros He Hd. unfold touched.
  dir_cases e; dir_cases d; unfold neighbor, opposite;
    vm_compute get_direction_offset; simpl; vm_compute (_ `mod` 4);
    repeat case_bool_decide; simpl; try reflexivity; exfalso;
    repeat match goal with
    | H : _ ∧ _ |- _ => destruct H
    | H : (_, _) = (_, _) |- _ => injection H as ? ?
    | H : ¬ (_ ∧ _) |- _ => apply H; split; [try f_equal; lia | lia]
    end; lia.
Qed.

Lemma set_wall_maze_ok m a b e m' :
  maze_ok m → is_cell m (a, b) → is_direction e → set_wall m a b e = Done m' →
  maze_ok m' ∧ width m' = width m ∧ height m' = height m.
Proof.
  intros Hok Hab He Hset.
  destruct (set_wall_inside m a b e Hok Hab He) as (ws & Heq & Hs & _).
  rewrite Heq in Hset. injection Hset as <-.
  destruct Hok. split; [|done]. by constructor.
Qed.

Lemma set_wall_symmetric m a b e m' :
  maze_ok m → walls_symmetric m → is_cell m (a, b) → is_direction e →
  set_wall m a b e = Done m' → walls_symmetric m'.
Proof.
  intros Hok Hsym Hab He Hset.
  destruct (set_wall_inside m a b e Hok Hab He) as (ws & Heq & Hs & Hbits).
  rewrite Heq in Hset. injection Hset as <-.
  intros x y d Hc Hd Hn.
  destruct (Hbits x y d Hc Hd) as (b0 & Hb0 & ->).
  destruct (Hbits (neighbor (x, y) d).1 (neighbor (x, y) d).2 (opposite d))
    as (b1 & Hb1 & ->).
  { by destruct (neighbor (x, y) d). }
  { by apply opposite_direction. }
  rewrite <- (Hsym x y d Hc Hd Hn), Hb0 in Hb1. injection Hb1 as <-.
  by rewrite <- touched_symmetric.
Qed.

Lemma fresh_is_wall w h ws m x y d :
  m = Mouse w h 0 0 0 ws (make_grid w h (Fin 0)) (center_goals w h) explore {[ (0, 0) ]} →
  grid_is w h ws (boundary_mask w h) →
  is_direction d →
  is_wall m x y d
  = Done (negb (bool_decide (is_cell m (x, y)))
          || negb (bool_decide (is_cell m (neighbor (x, y) d)))).
Proof.
  intros -> [Hs Hg] Hd.
  destruct (decide (is_cell (Mouse w h 0 0 0 ws (make_grid w h (Fin 0))
                               (center_goals w h) explore {[ (0, 0) ]}) (x, y)))
    as [Hc|Hc].
  - rewrite (bool_decide_eq_true_2 _ Hc). simpl.
    destruct Hc as [Hx Hy]; simpl in Hx, Hy.
    erewrite is_wall_inside;
      [| done | unfold is_direction in Hd; lia | by apply Hg].
    rewrite boundary_mask_bit by done. done.
  - rewrite (bool_decide_eq_false_2 _ Hc). simpl. by apply is_wall_outside.
Qed.

Lemma init_maze_ok w h m :
  1 ≤ w → 1 ≤ h → init w h = Done m →
  maze_ok m ∧ walls_symmetric m ∧ width m = w ∧ height m = h.
Proof.
  intros Hw Hh Hinit.
  destruct (init_Done w h Hw Hh) as (ws & Heq & Hws).
  rewrite Heq in Hinit. injection Hinit as Hm. symmetry in Hm.
  split; [|split]; [| |by subst].
  - subst m. constructor; simpl; [done | done | apply Hws].
  - intros x y d Hc Hd Hn.
    rewrite (fresh_is_wall w h ws m x y d Hm Hws Hd).
    rewrite (fresh_is_wall w h ws m _ _ (opposite d) Hm Hws)
      by by apply opposite_direction.
    replace ((neighbor (x, y) d).1, (neighbor (x, y) d).2)
      with (neighbor (x, y) d) by by destruct (neighbor (x, y) d).
    rewrite neighbor_opposite by done.
    rewrite !bool_decide_eq_true_2 by done. done.
Qed.

Lemma set_wall_calls_ok calls :
  ∀ m, maze_ok m → walls_symmetric m →
    Forall (λ c : Z * Z * Z, is_cell m (c.1.1, c.1.2) ∧ is_direction c.2) calls →
    ∃ m', set_wall_calls calls m = Done m'
          ∧ maze_ok m' ∧ walls_symmetric m'
          ∧ width m' = width m ∧ height m' = height m.
Proof.
  induction calls as [|[[a b] e] calls IH]; intros m Hok Hsym Hall.
  - exists m. done.
  - apply Forall_cons in Hall as [[Hab He] Hall]. simpl in Hab, He.
    destruct (set_wall_inside m a b e Hok Hab He) as (ws & Heq & _).
    simpl. rewrite Heq. simpl.
    destruct (set_wall_maze_ok m a b e _ Hok Hab He Heq) as (Hok' & Hw' & Hh').
    pose proof (set_wall_symmetric m a b e _ Hok Hsym Hab He Heq) as Hsym'.
    destruct (IH (set_walls m ws) Hok' Hsym') as (m' & Hcalls & ? & ? & ? & ?).
    { eapply Forall_impl; [exact Hall|]. intros [[? ?] ?]. unfold is_cell. done. }
    exists m'. done.
Qed.

(** * Properties of the maze model *)

(** C2 — Wall symmetry.  In a freshly initialised [w] by [h] maze, after
    any sequence of [set_wall] calls on cells of the grid, the maze is
    still [w] by [h] and every cell [(x, y)] and
    direction [d] whose neighbouring cell is in the grid satisfy
    [is_wall (x, y) d = is_wall (neighbor (x, y) d) (opposite d)]; and one
    call [set_wall (0, 0) East] makes both [is_wall (0, 0) East] and
    [is_wall (1, 0) West] true. *)
Theorem wall_symmetry (w h : Z) (calls : list (Z * Z * Z)) :
  1 ≤ w → 1 ≤ h →
  Forall (λ c : Z * Z * Z,
            (0 ≤ c.1.1 < w ∧ 0 ≤ c.1.2 < h) ∧ is_direction c.2) calls →
  ∃ m0 m,
    init w h = Done m0
    ∧ set_wall_calls calls m0 = Done m
    ∧ (width m0 = w ∧ height m0 = h)
    ∧ (width m = w ∧ height m = h)
    ∧ (∀ x y d,
         is_cell m (x, y) → is_direction d → is_cell m (neighbor (x, y) d) →
         ∃ b, is_wall m x y d = Done b
              ∧ is_wall m (neighbor (x, y) d).1 (neighbor (x, y) d).2 (opposite d)
                = Done b)
    ∧ ∃ m1, set_wall m0 0 0 1 = Done m1
            ∧ (width m1 = w ∧ height m1 = h)
            ∧ is_wall m1 0 0 1 = Done true
            ∧ is_wall m1 1 0 3 = Done true.
Proof.
  intros Hw Hh Hcalls.
  destruct (init_Done w h Hw Hh) as (ws & Hinit & Hws).
  destruct (init_maze_ok w h _ Hw Hh Hinit) as (Hok & Hsym & Hwm & Hhm).
  eexists. rewrite Hinit.
  edestruct (set_wall_calls_ok calls) as (m & Hm & Hok' & Hsym' & Hw' & Hh');
    [exact Hok | exact Hsym | | ].
  { eapply Forall_impl; [exact Hcalls|]. intros [[? ?] ?]. done. }
  exists m. split; [done|]. split; [done|].
  split; [done|]. split; [split; congruence|]. split.
  - intros x y d Hc Hd Hn. rewrite <- (Hsym' x y d Hc Hd Hn).
    destruct Hc as [Hx Hy]. destruct Hok' as [_ _ Hs].
    destruct (grid_get_Done _ _ _ x y Hs Hx Hy) as (v & Hv).
    exists (has_bit v d).
    split; (apply is_wall_inside; [done | unfold is_direction in Hd; lia | done]).
  - edestruct (set_wall_inside _ 0 0 1 Hok) as (ws1 & Hset & Hs1 & Hbits).
    { split; simpl; lia. }
    { unfold is_direction; lia. }
    eexists. split; [exact Hset|]. split; [done|]. split.
    + edestruct (Hbits 0 0 1) as (b0 & _ & ->).
      { split; simpl; lia. }
      { unfold is_direction; lia. }
      by rewrite orb_true_r.
    + destruct (decide (2 ≤ w)) as [Hw2|Hw1].
      * edestruct (Hbits 1 0 3) as (b0 & _ & ->).
        { split; simpl; lia. }
        { unfold is_direction; lia. }
        by rewrite orb_true_r.
      * apply is_wall_outside. unfold is_cell. simpl. lia.
Qed.

Lemma wall_symmetry_witness :
  ∃ m0 m,
    init 3 2 = Done m0
    ∧ set_wall_calls [(0, 0, 1); (1, 1, 2); (2, 1, 3)] m0 = Done m
    ∧ (width m0 = 3 ∧ height m0 = 2)
    ∧ (width m = 3 ∧ height m = 2)
    ∧ (∀ x y d,
         is_cell m (x, y) → is_direction d → is_cell m (neighbor (x, y) d) →
         ∃ b, is_wall m x y d = Done b
              ∧ is_wall m (neighbor (x, y) d).1 (neighbor (x, y) d).2 (opposite d)
                = Done b)
    ∧ ∃ m1, set_wall m0 0 0 1 = Done m1
            ∧ (width m1 = 3 ∧ height m1 = 2)
            ∧ is_wall m1 0 0 1 = Done true
            ∧ is_wall m1 1 0 3 = Done true.
Proof.
  apply (wall_symmetry 3 2 [(0, 0, 1); (1, 1, 2); (2, 1, 3)]); [lia | lia |].
  repeat constructor; simpl; lia.
Defined.

Lemma center_goals_spec (w h : Z) :
  1 ≤ w → 1 ≤ h →
  NoDup (center_goals w h)
  ∧ Forall (at_center w h) (center_goals w h)
  ∧ length (center_goals w h)
    = (if bool_decide (w `mod` 2 = 1 ∧ h `mod` 2 = 1) then 1%nat
       else if bool_decide (w `mod` 2 = 0 ∧ h `mod` 2 = 0) then 4%nat
       else 2%nat).
Proof.
  intros Hw Hh.
  assert (w `mod` 2 = 0 ∨ w `mod` 2 = 1) as Hwp
    by (pose proof (Z.mod_pos_bound w 2); lia).
  assert (h `mod` 2 = 0 ∨ h `mod` 2 = 1) as Hhp
    by (pose proof (Z.mod_pos_bound h 2); lia).
  pose proof (Z.div_mod w 2) as Hwd. pose proof (Z.div_mod h 2) as Hhd.
  split; [|split].
  - unfold center_goals.
    repeat case_bool_decide; simpl;
      repeat (apply NoDup_cons; split); try apply NoDup_nil_2;
      rewrite ?not_elem_of_cons; repeat split; try apply not_elem_of_nil;
      intros ?; simplify_eq; lia.
  - unfold center_goals, at_center.
    repeat case_bool_decide; simpl; repeat constructor; simpl; lia.
  - unfold center_goals.
    repeat case_bool_decide; simpl; try reflexivity; lia.
Qed.

Lemma reset_self_init (w h : Z) (m0 m : mouse) :
  init w h = Done m0 → width m = w → height m = h →
  reset_self m = Done (set_flood_values m0 (flood_values m)).
Proof.
  unfold init, reset_self, initialize_boundaries. simpl.
  intros Hinit <- <-.
  destruct (for_each (range (width m)) _ _) as [ws1| |]; simpl in *; try done.
  destruct (for_each (range (height m)) _ _) as [ws2| |]; simpl in *; try done.
  injection Hinit as <-. reflexivity.
Qed.

(** C5 — Goal set.  For a maze of width [w ≥ 1] and height [h ≥ 1] the goal
    list built by [__init__], and rebuilt by the reset branch, is
    [center_goals w h]: pairwise distinct cells at the centre of the maze,
    1 of them when [w] and [h] are odd, 4 when both are even and 2
    otherwise; for a 16 by 16 maze they are (7,7), (8,7), (7,8), (8,8). *)
Theorem goal_set_by_parity (w h : Z) :
  1 ≤ w → 1 ≤ h →
  (∃ m, init w h = Done m ∧ goals m = center_goals w h
        ∧ ∀ m1, width m1 = w → height m1 = h →
                ∃ m2, reset_self m1 = Done m2 ∧ goals m2 = center_goals w h)
  ∧ NoDup (center_goals w h)
  ∧ Forall (at_center w h) (center_goals w h)
  ∧ length (center_goals w h)
    = (if bool_decide (w `mod` 2 = 1 ∧ h `mod` 2 = 1) then 1%nat
       else if bool_decide (w `mod` 2 = 0 ∧ h `mod` 2 = 0) then 4%nat
       else 2%nat)
  ∧ center_goals 16 16 = [(7, 7); (8, 7); (7, 8); (8, 8)].
Proof.
  intros Hw Hh.
  split; [|split; [|split; [|split]]];
    [| apply (center_goals_spec w h Hw Hh) ..| reflexivity].
  destruct (init_Done w h Hw Hh) as (ws & Hinit & _).
  eexists. split; [exact Hinit|]. split; [done|].
  intros m1 Hw1 Hh1. eexists. split; [by eapply reset_self_init|]. done.
Qed.

Lemma goal_set_by_parity_witness :
  (1 ≤ 16 ∧ 1 ≤ 16)
  ∧ (∃ m, init 16 16 = Done m ∧ goals m = center_goals 16 16
        ∧ ∀ m1, width m1 = 16 → height m1 = 16 →
                ∃ m2, reset_self m1 = Done m2 ∧ goals m2 = center_goals 16 16)
  ∧ NoDup (center_goals 16 16)
  ∧ Forall (at_center 16 16) (center_goals 16 16)
  ∧ length (center_goals 16 16)
    = (if bool_decide (16 `mod` 2 = 1 ∧ 16 `mod` 2 = 1) then 1%nat
       else if bool_decide (16 `mod` 2 = 0 ∧ 16 `mod` 2 = 0) then 4%nat
       else 2%nat)
  ∧ center_goals 16 16 = [(7, 7); (8, 7); (7, 8); (8, 8)].
Proof. split; [lia | apply (goal_set_by_parity 16 16); lia]. Defined.

(** C6 — Boundary walls.  After initialisation of a [w] by [h] maze (the
    controller's [width] and [height] are [w] and [h]), for every position
    [(x, y)] and direction [d]: when [(x, y)] is outside the grid, or the
    neighbouring position in direction [d] is, [is_wall x y d] is true;
    and a cell of the grid whose neighbour in direction [d] is outside has
    bit [d] of its wall mask set. *)
Theorem boundary_walls_set (w h : Z) :
  1 ≤ w → 1 ≤ h →
  ∃ m, init w h = Done m
       ∧ (width m = w ∧ height m = h)
       ∧ ∀ x y d, is_direction d →
           ¬ is_cell m (x, y) ∨ ¬ is_cell m (neighbor (x, y) d) →
           is_wall m x y d = Done true
           ∧ (is_cell m (x, y) →
              ∃ mask, grid_get (walls m) x y = Done mask
                      ∧ Z.testbit mask d = true).
Proof.
  intros Hw Hh.
  destruct (init_Done w h Hw Hh) as (ws & Hinit & Hws).
  eexists. split; [exact Hinit|]. split; [done|].
  intros x y d Hd Hout. split.
  - rewrite (fresh_is_wall w h ws _ x y d eq_refl Hws Hd). f_equal.
    destruct Hout as [Hout|Hout]; rewrite (bool_decide_eq_false_2 _ Hout);
      simpl; [done | apply orb_true_r].
  - intros Hc. destruct Hout as [Hout|Hout]; [done|].
    exists (boundary_mask w h x y). destruct Hc as [Hx Hy]. simpl in *.
    split; [by apply Hws|].
    rewrite <- has_bit_testbit by (unfold is_direction in Hd; lia).
    rewrite boundary_mask_bit by done.
    apply negb_true_iff, bool_decide_eq_false_2. exact Hout.
Qed.

Lemma boundary_walls_set_witness :
  (1 ≤ 3 ∧ 1 ≤ 2)
  ∧ ∃ m, init 3 2 = Done m
       ∧ (width m = 3 ∧ height m = 2)
       ∧ ∀ x y d, is_direction d →
           ¬ is_cell m (x, y) ∨ ¬ is_cell m (neighbor (x, y) d) →
           is_wall m x y d = Done true
           ∧ (is_cell m (x, y) →
              ∃ mask, grid_get (walls m) x y = Done mask
                      ∧ Z.testbit mask d = true).
Proof. split; [lia | apply (boundary_walls_set 3 2); lia]. Defined.

(** C9 (as the code has it) — Out-of-range coordinates do not fail:
    [is_wall] answers [true] and [set_wall] returns normally with the maze
    unchanged, for any direction argument. *)
Theorem out_of_range_is_guarded (m : mouse) (x y d : Z) :
  ¬ is_cell m (x, y) →
  is_wall m x y d = Done true ∧ set_wall m x y d = Done m.
Proof.
  intros Hout. split; [by apply is_wall_outside|].
  unfold set_wall. by rewrite (proj2 (in_bounds_false m x y) Hout).
Qed.

Lemma out_of_range_is_guarded_witness :
  ∃ m, init 3 3 = Done m
       ∧ ¬ is_cell m (-1, 0)
       ∧ is_wall m (-1) 0 0 = Done true ∧ set_wall m (-1) 0 0 = Done m.
Proof.
  eexists. split; [vm_compute; reflexivity|].
  assert (∀ m, width m = 3 → ¬ is_cell m (-1, 0)) as Hout
    by (unfold is_cell; simpl; lia).
  split; [by apply Hout|].
  apply out_of_range_is_guarded. by apply Hout.
Defined.

(** C9, the claim as stated, fails: on a fresh 3 by 3 maze the calls
    [is_wall(-1, 0, North)] and [set_wall(-1, 0, North)] raise nothing;
    the first returns [True], the second returns with the maze as it was. *)
Lemma out_of_range_does_not_fail :
  ∃ m, init 3 3 = Done m
       ∧ is_wall m (-1) 0 0 = Done true
       ∧ set_wall m (-1) 0 0 = Done m
       ∧ ¬ (∃ e, is_wall m (-1) 0 0 = Raise e)
       ∧ ¬ (∃ e, set_wall m (-1) 0 0 = Raise e).
Proof.
  eexists. split; [vm_compute; reflexivity|].
  split; [reflexivity|]. split; [reflexivity|].
  split; intros [e He]; discriminate He.
Qed.

(** * Orientation control *)

Lemma turn_to_direction_turns (w : world) (target : Z) (fuel : nat) :
  is_direction (direction (self w)) → is_direction target → (1 ≤ fuel)%nat →
  turn_to_direction fuel target w
  = Done (World (set_direction (self w) target) (tick w)
                (out w ++ turns ((target - direction (self w)) `mod` 4))).
Proof.
  intros Hh Ht Hfuel.
  destruct w as [m tk o]. destruct m as [W H x y h ws fv gs ph vs].
  simpl in *.
  destruct fuel as [|fuel]; [lia|].
  dir_cases h; dir_cases target; simpl;
    rewrite ?app_nil_r; try reflexivity;
    destruct fuel; reflexivity.
Qed.

(** C4 — Orientation.  For each of the 16 combinations of current heading
    and target heading, [turn_to_direction] ends with the heading equal to
    the target after issuing exactly the turns of [turns diff] for
    [diff = (target - heading) mod 4]: none for 0, one [turnRight] for 1,
    one [turnLeft] for 3, two [turnRight] for 2; so at most 2 commands. *)
Theorem turn_to_direction_correct (w : world) (target : Z) (fuel : nat) :
  is_direction (direction (self w)) → is_direction target → (1 ≤ fuel)%nat →
  let diff := (target - direction (self w)) `mod` 4 in
  turn_to_direction fuel target w
  = Done (World (set_direction (self w) target) (tick w) (out w ++ turns diff))
  ∧ (length (turns diff) ≤ 2)%nat
  ∧ (diff = 0 → turns diff = [])
  ∧ (diff = 1 → turns diff = [turnRight])
  ∧ (diff = 3 → turns diff = [turnLeft])
  ∧ (diff = 2 → turns diff = [turnRight; turnRight]).
Proof.
  intros Hh Ht Hfuel. split; [by apply turn_to_direction_turns|].
  unfold is_direction in *.
  set (h := direction (self w)) in *. clearbody h.
  dir_cases h; dir_cases target; vm_compute; repeat split; (lia || done).
Qed.

Lemma turn_to_direction_correct_witness :
  turn_to_direction 1 1 (World (Mouse 3 3 0 0 0 [] [] [] explore ∅) 0 [])
  = Done (World (Mouse 3 3 0 0 1 [] [] [] explore ∅) 0 [turnRight]).
Proof.
  refine (proj1 (turn_to_direction_correct
                   (World (Mouse 3 3 0 0 0 [] [] [] explore ∅) 0 []) 1 1 _ _ _));
    unfold is_direction; simpl; lia.
Defined.

(** * Flood fill *)

(** ** Counting the cells at infinity *)

Lemma filter_inf_insert (l : list fval) i k :
  l !! i = Some Inf →
  (length (filter (λ v, v = Inf) (<[i := Fin k]> l)) + 1
   = length (filter (λ v, v = Inf) l))%nat.
Proof.
  revert i. induction l as [|a l IH]; intros [|i] Hi; [done | done | |].
  - injection Hi as ->.
    change (<[0%nat:=Fin k]> (Inf :: l)) with (Fin k :: l).
    rewrite !filter_cons. simpl. lia.
  - specialize (IH i Hi).
    change (<[S i:=Fin k]> (a :: l)) with (a :: <[i:=Fin k]> l).
    rewrite !filter_cons.
    destruct (decide (a = Inf)); simpl; lia.
Qed.

Lemma count_inf_insert (g : list (list fval)) x col col' :
  g !! x = Some col →
  (length (filter (λ v, v = Inf) col') + 1
   = length (filter (λ v, v = Inf) col))%nat →
  (count_inf (<[x := col']> g) + 1 = count_inf g)%nat.
Proof.
  unfold count_inf. revert x.
  induction g as [|c g IH]; intros [|x] Hx Hlen; simplify_eq/=.
  - lia.
  - specialize (IH x Hx Hlen). lia.
Qed.

Lemma count_inf_bound w h (g : list (list fval)) :
  grid_shape w h g → Z.of_nat (count_inf g) ≤ w * h.
Proof.
  intros [Hl Hc]. subst w. unfold count_inf.
  induction g as [|c g IH]; simpl; [lia|].
  apply Forall_cons in Hc as [Hc1 Hc].
  specialize (IH Hc).
  pose proof (length_filter (λ v, v = Inf) c).
  rewrite Nat2Z.inj_add, Nat2Z.inj_succ, Z.mul_succ_l.
  unfold fmap in IH. lia.
Qed.

Lemma grid_set_count w h (g g' : list (list fval)) x y k :
  grid_shape w h g → 0 ≤ x < w → 0 ≤ y < h →
  grid_get g x y = Done Inf →
  grid_set g x y (Fin k) = Done g' →
  (count_inf g' + 1 = count_inf g)%nat.
Proof.
  intros [Hl Hc] Hx Hy Hget Hset.
  destruct (py_get_in g x) as (col & Hcol & Hgetc); [lia|].
  assert (Z.of_nat (length col) = h) as Hlen.
  { eapply (Forall_lookup_1 _ _ _ _ Hc Hcol). }
  unfold grid_get in Hget. rewrite Hgetc in Hget. simpl in Hget.
  destruct (py_get_in col y) as (v & Hv & Hgetv); [lia|].
  rewrite Hgetv in Hget. injection Hget as ->.
  unfold grid_set in Hset. rewrite Hgetc in Hset. simpl in Hset.
  rewrite py_set_in in Hset by lia. simpl in Hset.
  rewrite py_set_in in Hset by lia. injection Hset as <-.
  eapply count_inf_insert; [exact Hcol|].
  by apply filter_inf_insert.
Qed.

(** ** One dequeued cell *)

Lemma is_wall_Done m x y d :
  maze_ok m → is_direction d → ∃ b, is_wall m x y d = Done b.
Proof.
  intros [_ _ Hs] Hd.
  destruct (decide (is_cell m (x, y))) as [Hc|Hc].
  - destruct Hc as [Hx Hy]; simpl in *.
    destruct (grid_get_Done _ _ _ x y Hs Hx Hy) as (v & Hv).
    exists (has_bit v d).
    apply is_wall_inside; [done | unfold is_direction in Hd; lia | done].
  - exists true. by apply is_wall_outside.
Qed.

Lemma flood_step_spec m x y n d g queue :
  maze_ok m → is_direction d →
  grid_shape (width m) (height m) g →
  (∀ c k, is_cell m c → flood_at g c = Done (Fin k) → k ≤ n + 1) →
  (flood_step m x y (Fin n) d (g, queue) = Done (g, queue)
   ∧ ∀ c', hop m (x, y) d c' → ∃ k, flood_at g c' = Done (Fin k))
  ∨ (∃ c1 g1,
       flood_step m x y (Fin n) d (g, queue) = Done (g1, queue ++ [c1])
       ∧ hop m (x, y) d c1
       ∧ flood_at g c1 = Done Inf
       ∧ grid_set g c1.1 c1.2 (Fin (n + 1)) = Done g1
       ∧ grid_shape (width m) (height m) g1
       ∧ flood_at g1 c1 = Done (Fin (n + 1))
       ∧ ∀ c, is_cell m c → c ≠ c1 → flood_at g1 c = flood_at g c).
Proof.
  intros Hok Hd Hs Hle. unfold flood_step.
  destruct (is_wall_Done m x y d Hok Hd) as (b & Hb). rewrite Hb. simpl.
  destruct b.
  { left. split; [done|]. intros c' (_ & Hopen & _). simpl in Hopen. congruence. }
  destruct (get_direction_offset_Done x y d Hd) as (dx & dy & -> & Hn). simpl.
  destruct (in_bounds m (x + dx) (y + dy)) eqn:Hin.
  2:{ left. split; [done|]. intros c' (_ & _ & -> & Hc').
      apply in_bounds_false in Hin. rewrite Hn in Hc'. done. }
  apply in_bounds_true in Hin. destruct (Hin) as [Hx Hy]; simpl in Hx, Hy.
  destruct (grid_get_Done _ _ _ _ _ Hs Hx Hy) as (nv & Hnv). rewrite Hnv. simpl.
  destruct nv as [k|].
  - left. simpl.
    rewrite bool_decide_eq_false_2
      by (specialize (Hle (x + dx, y + dy) k Hin Hnv); lia).
    split; [done|]. intros c' (_ & _ & -> & _). rewrite Hn. eauto.
  - right. simpl.
    destruct (grid_set_Done _ _ _ _ _ (Fin (n + 1)) Hs Hx Hy)
      as (g1 & Hset & Hs1 & Hsame & Hother).
    rewrite Hset. simpl.
    exists (x + dx, y + dy), g1. simpl.
    split; [done|]. split; [|split; [done|split; [done|split; [done|split; [done|]]]]].
    + split; [done|]. split; [done|]. split; [done | done].
    + intros [cx cy] [Hcx Hcy] Hne. simpl in *. unfold flood_at. simpl.
      by apply Hother.
Qed.

Lemma flood_dirs_spec m x y n :
  maze_ok m → is_cell m (x, y) →
  ∀ ds, Forall is_direction ds →
  ∀ g queue,
    grid_shape (width m) (height m) g →
    (∀ c k, is_cell m c → flood_at g c = Done (Fin k) → k ≤ n + 1) →
    ∃ g' added,
      for_each ds (flood_step m x y (Fin n)) (g, queue) = Done (g', queue ++ added)
      ∧ flood_dirs_post m (x, y) n ds g g' added.
Proof.
  intros Hok Hu ds. induction ds as [|d ds IH]; intros Hds g queue Hs Hle.
  - exists g, []. rewrite app_nil_r. split; [done|].
    constructor.
    + done.
    + done.
    + intros c k _ Hc. by left.
    + done.
    + intros d c' Hd. by apply elem_of_nil in Hd.
    + simpl. lia.
  - apply Forall_cons in Hds as [Hd Hds]. cbn [for_each].
    destruct (flood_step_spec m x y n d g queue Hok Hd Hs Hle)
      as [[-> Hdone] | (c1 & g1 & -> & Hhop & Hinf & Hset & Hs1 & Hc1 & Hother)];
      simpl.
    + destruct (IH Hds g queue Hs Hle) as (g' & added & -> & Hpost).
      exists g', added. split; [done|].
      destruct Hpost. constructor; try done.
      intros d' c' Hd' Hhop. apply elem_of_cons in Hd' as [->|Hd']; [|eauto].
      destruct (Hdone c' Hhop) as (k & Hk). exists k.
      apply fd_keep0; [|done]. by destruct Hhop as (_ & _ & _ & ?).
    + assert (is_cell m c1) as Hcell by by destruct Hhop as (_ & _ & _ & ?).
      destruct (IH Hds g1 (queue ++ [c1]) Hs1) as (g' & added & -> & Hpost).
      { intros c k Hc Hk. destruct (decide (c = c1)) as [->|Hne].
        - rewrite Hc1 in Hk. injection Hk as <-. lia.
        - rewrite Hother in Hk by done. by eapply Hle. }
      exists g', (c1 :: added). split; [by rewrite <- app_assoc|].
      destruct Hpost. constructor.
      * done.
      * intros c k Hc Hk. apply fd_keep0; [done|].
        rewrite Hother; [done | done |]. intros ->. congruence.
      * intros c k Hc Hk.
        destruct (fd_new0 c k Hc Hk) as [Hold | (-> & Hin & Hh)].
        -- destruct (decide (c = c1)) as [->|Hne].
           ++ right. rewrite Hc1 in Hold. injection Hold as <-.
              split; [done|]. split; [by left | eauto].
           ++ left. by rewrite <- Hother.
        -- right. split; [done|]. split; [by right | done].
      * apply Forall_cons. split; [|done]. split; [done|]. by apply fd_keep0.
      * intros d' c' Hd' Hhop'. apply elem_of_cons in Hd' as [->|Hd']; [|eauto].
        exists (n + 1). destruct Hhop as (_ & _ & -> & _).
        destruct Hhop' as (_ & _ & -> & _). by apply fd_keep0.
      * pose proof (grid_set_count _ _ g g1 c1.1 c1.2 (n + 1) Hs
                      (proj1 Hcell) (proj2 Hcell) Hinf Hset).
        simpl. lia.
Qed.

(** ** The queue loop *)

Lemma flood_level_head m g u rest :
  flood_inv m g (u :: rest) →
  ∃ n front back,
    rest = front ++ back
    ∧ flood_at g u = Done (Fin n)
    ∧ Forall (λ c, flood_at g c = Done (Fin n)) front
    ∧ Forall (λ c, flood_at g c = Done (Fin (n + 1))) back
    ∧ ∀ c k, is_cell m c → flood_at g c = Done (Fin k) → k ≤ n + 1.
Proof.
  intros [_ _ (n & front & back & Hq & Hf & Hb & Hle) _ _ _].
  destruct front as [|a front]; simpl in Hq.
  - subst back. apply Forall_cons in Hb as [Hu Hb].
    exists (n + 1), rest, []. rewrite app_nil_r.
    split; [done|]. split; [done|]. split; [done|]. split; [done|].
    intros c k Hc Hk. specialize (Hle c k Hc Hk). lia.
  - injection Hq as -> ->. apply Forall_cons in Hf as [Hu Hf].
    exists n, front, back. done.
Qed.

Lemma flood_loop_spec m :
  maze_ok m → Forall (is_cell m) (goals m) →
  ∀ fuel g queue,
    flood_inv m g queue →
    (length queue + count_inf g ≤ fuel)%nat →
    ∃ g', flood_loop fuel m g queue = Done g' ∧ flood_inv m g' [].
Proof.
  intros Hok Hgs fuel. induction fuel as [|fuel IH]; intros g queue Hinv Hfuel.
  { destruct queue; simpl in Hfuel; [|lia]. exists g. done. }
  destruct queue as [|[x y] rest]; [by exists g|].
  destruct (flood_level_head m g (x, y) rest Hinv)
    as (n & front & back & Hrest & Hu & Hfront & Hback & Hle).
  destruct Hinv as [Hs Hq _ Hsound Hclosed Hgoals].
  apply Forall_cons in Hq as [Hcell Hq].
  cbn [flood_loop]. unfold flood_at in Hu. simpl in Hu. rewrite Hu.
  cbn [mbind outcome_bind].
  destruct (flood_dirs_spec m x y n Hok Hcell (range 4)) with (g := g) (queue := rest)
    as (g' & added & -> & Hpost); [| done | done |].
  { repeat constructor; unfold is_direction; lia. }
  cbn [mbind outcome_bind].
  destruct Hpost as [Hs' Hkeep Hnew Hadded Hdone Hcount].
  apply IH.
  2:{ rewrite length_app. simpl in Hfuel. lia. }
  constructor.
  - done.
  - apply Forall_app. split; [done|].
    eapply Forall_impl; [exact Hadded|]. by intros c [? _].
  - exists n, front, (back ++ added). split; [by rewrite Hrest, app_assoc|].
    split; [|split].
    + rewrite Hrest in Hq. apply Forall_app in Hq as [Hq _].
      rewrite Forall_forall in Hq, Hfront.
      apply Forall_forall. intros c Hc. apply Hkeep; auto.
    + apply Forall_app. split.
      * rewrite Hrest in Hq. apply Forall_app in Hq as [_ Hq].
        rewrite Forall_forall in Hq, Hback.
        apply Forall_forall. intros c Hc. apply Hkeep; auto.
      * eapply Forall_impl; [exact Hadded|]. by intros c [_ ?].
    + intros c k Hc Hk.
      destruct (Hnew c k Hc Hk) as [Hold | (-> & _)]; [by eapply Hle | lia].
  - intros c k Hc Hk.
    destruct (Hnew c k Hc Hk) as [Hold | (-> & _ & d & Hhop)]; [by apply Hsound|].
    destruct (Hsound (x, y) n Hcell Hu) as [Hn0 Hfl].
    split; [lia|]. replace (Z.to_nat (n + 1)) with (S (Z.to_nat n)) by lia.
    by eapply flooded_hop.
  - intros c k Hc Hk.
    destruct (Hnew c k Hc Hk) as [Hold | (-> & Hin & _)].
    2:{ left. apply elem_of_app. by right. }
    destruct (Hclosed c k Hc Hold) as [Hin | Hcl].
    + apply elem_of_cons in Hin as [-> | Hin].
      * right. intros d c' Hhop.
        unfold flood_at in Hold. simpl in Hold. rewrite Hu in Hold.
        injection Hold as <-.
        destruct (Hdone d c') as (k' & Hk'); [|done|].
        { destruct Hhop as (Hd & _). dir_cases d; vm_compute; set_solver. }
        exists k'. split; [done|].
        destruct (Hnew c' k') as [Hold' | (-> & _)]; [| done | |lia].
        { by destruct Hhop as (_ & _ & _ & ?). }
        by eapply Hle; [|exact Hold']; destruct Hhop as (_ & _ & _ & ?).
      * left. apply elem_of_app. by left.
    + right. intros d c' Hhop. destruct (Hcl d c' Hhop) as (k' & Hk' & Hle').
      exists k'. split; [|done]. apply Hkeep; [|done].
      by destruct Hhop as (_ & _ & _ & ?).
  - intros c Hc. apply Hkeep; [|by apply Hgoals].
    rewrite Forall_forall in Hgs. by apply Hgs.
Qed.

(** ** Initialisation of the flood and the display *)

Lemma grid_shape_is {A} w h (g : list (list A)) (a : A) :
  grid_shape w h g → ∃ f, grid_is w h g f.
Proof.
  intros Hs.
  exists (λ x y, match grid_get g x y with Done v => v | _ => a end).
  split; [done|]. intros x y Hx Hy.
  destruct (grid_get_Done w h g x y Hs Hx Hy) as (v & ->). done.
Qed.

Lemma fill_inf_Done m :
  0 ≤ width m → 0 ≤ height m →
  grid_shape (width m) (height m) (flood_values m) →
  ∃ g, fill_inf m = Done g ∧ grid_is (width m) (height m) g (λ _ _, Inf).
Proof.
  intros Hw Hh Hs. unfold fill_inf.
  destruct (grid_shape_is _ _ _ Inf Hs) as (f0 & Hf0).
  set (W := width m) in *. set (H := height m) in *.
  destruct (for_each_range_ind
    (λ k g, grid_is W H g (λ x y, if decide (x < k) then Inf else f0 x y))
    (λ x fv, for_each (range H) (λ y fv, grid_set fv x y Inf) fv)
    W (flood_values m)) as (g & Hloop & Hg).
  - done.
  - eapply grid_is_ext; [|exact Hf0]. intros x y ? ?. simpl.
    case_decide; [lia | done].
  - intros k g Hk Hg.
    destruct (for_each_range_ind
      (λ j g, grid_is W H g
         (λ x y, if decide (x < k ∨ (x = k ∧ y < j)) then Inf else f0 x y))
      (λ y fv, grid_set fv k y Inf) H g) as (g' & Hloop' & Hg').
    + done.
    + eapply grid_is_ext; [|exact Hg]. intros x y ? ?. simpl.
      repeat case_decide; first [lia | done].
    + intros j g1 Hj Hg1.
      destruct (grid_set_is W H g1 _ k j Inf Hg1) as (g2 & -> & Hg2); [lia..|].
      exists g2. split; [done|].
      eapply grid_is_ext; [|exact Hg2]. intros x y ? ?. simpl.
      clear Hg Hg1 Hg2 Hf0.
      repeat match goal with
      | |- context [decide ?P] => destruct (decide P)
      end; simplify_eq; pair_neq; first [lia | reflexivity].
    + exists g'. split; [done|].
      eapply grid_is_ext; [|exact Hg']. intros x y ? ?. simpl.
      repeat case_decide; first [lia | done].
  - exists g. split; [done|].
    eapply grid_is_ext; [|exact Hg]. intros x y ? ?. simpl.
    case_decide; [done | lia].
Qed.

Lemma seed_goals_Done m :
  ∀ gs seen g queue,
    Forall (is_cell m) gs →
    grid_is (width m) (height m) g
      (λ x y, if decide ((x, y) ∈ seen) then Fin 0 else Inf) →
    ∃ g', seed_goals gs g queue = Done (g', queue ++ gs)
          ∧ grid_is (width m) (height m) g'
              (λ x y, if decide ((x, y) ∈ seen ++ gs) then Fin 0 else Inf).
Proof.
  induction gs as [|[gx gy] gs IH]; intros seen g queue Hgs Hg.
  - exists g. rewrite !app_nil_r. done.
  - apply Forall_cons in Hgs as [[Hx Hy] Hgs]. simpl in Hx, Hy.
    destruct (grid_set_is _ _ g _ gx gy (Fin 0) Hg Hx Hy) as (g1 & Hset & Hg1).
    cbn [seed_goals]. rewrite Hset. cbn [mbind outcome_bind].
    destruct (IH (seen ++ [(gx, gy)]) g1 (queue ++ [(gx, gy)]) Hgs)
      as (g' & -> & Hg').
    + eapply grid_is_ext; [|exact Hg1]. intros x y ? ?. simpl.
      repeat case_decide; try done.
      * exfalso. set_solver.
      * exfalso. set_solver.
      * exfalso. set_solver.
    + exists g'. rewrite <- !app_assoc in *. done.
Qed.

Lemma display_flood_values_Done m :
  0 ≤ width m → 0 ≤ height m →
  grid_shape (width m) (height m) (flood_values m) →
  ∃ cmds, display_flood_values m = Done cmds
          ∧ Forall (λ c, is_motion c = false) cmds.
Proof.
  intros Hw Hh Hs. unfold display_flood_values.
  destruct (for_each_range_ind
    (λ _ cmds, Forall (λ c, is_motion c = false) cmds)
    (λ x cmds, for_each (range (height m)) (λ y cmds,
       v ← grid_get (flood_values m) x y;
       match v with
       | Fin n => Done (cmds ++ [setText x y n])
       | Inf => Done cmds
       end) cmds)
    (width m) [clearAllText]) as (cmds & Hloop & Hcmds).
  - done.
  - by repeat constructor.
  - intros x cmds Hx Hcmds.
    apply (for_each_range_ind
      (λ _ cmds, Forall (λ c, is_motion c = false) cmds)); [done | done |].
    intros y cmds' Hy Hcmds'.
    destruct (grid_get_Done _ _ _ x y Hs Hx Hy) as (v & ->). simpl.
    destruct v; eexists; (split; [done|]); [|done].
    apply Forall_app. split; [done|]. by repeat constructor.
  - exists cmds. done.
Qed.

(** ** The whole of [floodfill] *)

Lemma floodfill_spec m fuel :
  maze_ok m →
  grid_shape (width m) (height m) (flood_values m) →
  Forall (is_cell m) (goals m) →
  (length (goals m) + Z.to_nat (width m * height m) ≤ fuel)%nat →
  ∃ g cmds,
    floodfill fuel m = Done (set_flood_values m g, cmds)
    ∧ flood_inv m g []
    ∧ Forall (λ c, is_motion c = false) cmds.
Proof.
  intros Hok Hfv Hgs Hfuel. unfold floodfill.
  pose proof (maze_width_pos m Hok) as Hw.
  pose proof (maze_height_pos m Hok) as Hh.
  destruct (fill_inf_Done m) as (g0 & -> & Hg0); [lia | lia | done |].
  cbn [mbind outcome_bind].
  destruct (seed_goals_Done m (goals m) [] g0 []) as (g1 & -> & Hg1); [done | |].
  { eapply grid_is_ext; [|exact Hg0]. intros x y ? ?. cbv beta.
    destruct (decide ((x, y) ∈ [])) as [Hin|]; [|done].
    by apply elem_of_nil in Hin. }
  cbn [mbind outcome_bind]. rewrite !app_nil_l in *.
  destruct Hg1 as [Hs1 Hat1].
  assert (∀ c, is_cell m c →
            flood_at g1 c = Done (if decide (c ∈ goals m) then Fin 0 else Inf))
    as Hat.
  { intros [x y] [Hx Hy]. by apply Hat1. }
  destruct (flood_loop_spec m Hok Hgs fuel g1 (goals m)) as (g2 & -> & Hinv).
  - rewrite Forall_forall in Hgs. constructor.
    + done.
    + by apply Forall_forall.
    + exists 0, (goals m), []. rewrite app_nil_r.
      split; [done|]. split; [|split; [done|]].
      * apply Forall_forall. intros c Hc. rewrite Hat by auto.
        by rewrite decide_True.
      * intros c k Hc Hk. rewrite Hat in Hk by done.
        case_decide; simplify_eq. lia.
    + intros c k Hc Hk. rewrite Hat in Hk by done.
      case_decide; simplify_eq. split; [lia|]. by apply flooded_goal.
    + intros c k Hc Hk. rewrite Hat in Hk by done.
      case_decide; simplify_eq. by left.
    + intros c Hc. rewrite Hat by auto. by rewrite decide_True.
  - pose proof (count_inf_bound _ _ g1 Hs1). lia.
  - cbn [mbind outcome_bind].
    destruct (display_flood_values_Done (set_flood_values m g2))
      as (cmds & -> & Hcmds); simpl; [lia | lia | by destruct Hinv |].
    exists g2, cmds. done.
Qed.

Lemma flooded_is_cell m c k :
  Forall (is_cell m) (goals m) → flooded m c k → is_cell m c.
Proof.
  intros Hgs Hfl. destruct Hfl as [c Hc | u d c n _ (_ & _ & _ & Hc)]; [|done].
  rewrite Forall_forall in Hgs. by apply Hgs.
Qed.

Lemma flood_inv_complete m g :
  Forall (is_cell m) (goals m) → flood_inv m g [] →
  ∀ c k, flooded m c k → ∃ n, flood_at g c = Done (Fin n) ∧ n ≤ Z.of_nat k.
Proof.
  intros Hgs Hinv c k Hfl. induction Hfl as [c Hc | u d c k Hfl IH Hhop].
  - exists 0. split; [by apply (fi_goals m g [] Hinv) | done].
  - destruct IH as (n & Hn & Hle).
    destruct (fi_closed m g [] Hinv u n) as [Hin | Hcl];
      [by eapply flooded_is_cell | done | by apply elem_of_nil in Hin |].
    destruct (Hcl d c Hhop) as (n' & Hn' & Hle').
    exists n'. split; [done | lia].
Qed.

Lemma hop_reverse m c d c' :
  walls_symmetric m → hop m c d c' → hop m c' (opposite d) c.
Proof.
  intros Hsym (Hd & Hopen & -> & Hc').
  destruct c as [x y]. simpl in Hopen.
  assert (is_cell m (x, y)) as Hc.
  { destruct (decide (is_cell m (x, y))) as [|Hout]; [done|].
    rewrite (is_wall_outside m x y d Hout) in Hopen. discriminate. }
  split; [by apply opposite_direction|].
  split; [by rewrite <- (Hsym x y d)|].
  split; [by rewrite neighbor_opposite | done].
Qed.

Lemma path_to_goal_flooded m c k :
  walls_symmetric m → path_to_goal m c k ↔ flooded m c k.
Proof.
  intros Hsym. split.
  - induction 1 as [c Hc | c d c' n Hhop Hp IH].
    + by apply flooded_goal.
    + eapply flooded_hop; [exact IH|]. by apply hop_reverse.
  - induction 1 as [c Hc | u d c n Hfl IH Hhop].
    + by apply path_goal.
    + eapply path_hop; [|exact IH]. by apply hop_reverse.
Qed.

(** C1 — Flood-fill correctness.  For a maze with symmetric walls and goal
    cells inside the grid, [floodfill] returns (given fuel for one dequeue
    per goal and per cell), and in the grid it leaves: every goal cell is
    at 0; a cell whose shortest wall-respecting path to a goal has [n]
    hops is at [n]; a cell with no such path is at infinity. *)
Theorem floodfill_correct (m : mouse) (fuel : nat) :
  maze_ok m →
  walls_symmetric m →
  grid_shape (width m) (height m) (flood_values m) →
  Forall (is_cell m) (goals m) →
  (length (goals m) + Z.to_nat (width m * height m) ≤ fuel)%nat →
  ∃ g cmds,
    floodfill fuel m = Done (set_flood_values m g, cmds)
    ∧ (∀ c, c ∈ goals m → flood_at g c = Done (Fin 0))
    ∧ (∀ c n, is_cell m c →
         path_to_goal m c n → (∀ k, path_to_goal m c k → (n ≤ k)%nat) →
         flood_at g c = Done (Fin (Z.of_nat n)))
    ∧ (∀ c, is_cell m c → (∀ k, ¬ path_to_goal m c k) → flood_at g c = Done Inf).
Proof.
  intros Hok Hsym Hfv Hgs Hfuel.
  destruct (floodfill_spec m fuel Hok Hfv Hgs Hfuel) as (g & cmds & Hrun & Hinv & _).
  exists g, cmds. split; [done|]. split; [|split].
  - apply (fi_goals m g [] Hinv).
  - intros c n Hc Hpath Hmin.
    apply path_to_goal_flooded in Hpath; [|done].
    destruct (flood_inv_complete m g Hgs Hinv c n Hpath) as (n' & Hn' & Hle).
    destruct (fi_sound m g [] Hinv c n' Hc Hn') as [Hpos Hfl].
    apply path_to_goal_flooded in Hfl; [|done].
    specialize (Hmin _ Hfl). rewrite Hn'. do 2 f_equal. lia.
  - intros c Hc Hnone.
    destruct Hc as [Hx Hy].
    destruct (grid_get_Done _ _ g c.1 c.2 (fi_shape m g [] Hinv) Hx Hy) as (v & Hv).
    unfold flood_at. rewrite Hv. destruct v as [k|]; [|done].
    destruct (fi_sound m g [] Hinv c k (conj Hx Hy) Hv) as [_ Hfl].
    apply path_to_goal_flooded in Hfl; [|done]. by apply Hnone in Hfl.
Qed.

Lemma init_3x3 : init 3 3 = Done maze_3x3.
Proof. vm_compute. reflexivity. Qed.

Lemma maze_3x3_ok :
  maze_ok maze_3x3 ∧ walls_symmetric maze_3x3
  ∧ grid_shape 3 3 (flood_values maze_3x3)
  ∧ Forall (is_cell maze_3x3) (goals maze_3x3).
Proof.
  destruct (init_maze_ok 3 3 maze_3x3) as (Hok & Hsym & _); [lia | lia | apply init_3x3 |].
  split; [done|]. split; [done|]. split.
  - apply make_grid_shape; lia.
  - repeat constructor; simpl; lia.
Qed.

Lemma floodfill_correct_witness :
  ∃ g cmds,
    floodfill 10 maze_3x3 = Done (set_flood_values maze_3x3 g, cmds)
    ∧ (∀ c, c ∈ goals maze_3x3 → flood_at g c = Done (Fin 0))
    ∧ (∀ c n, is_cell maze_3x3 c →
         path_to_goal maze_3x3 c n →
         (∀ k, path_to_goal maze_3x3 c k → (n ≤ k)%nat) →
         flood_at g c = Done (Fin (Z.of_nat n)))
    ∧ (∀ c, is_cell maze_3x3 c → (∀ k, ¬ path_to_goal maze_3x3 c k) →
         flood_at g c = Done Inf).
Proof.
  apply (floodfill_correct maze_3x3 10).
  - apply maze_3x3_ok.
  - apply maze_3x3_ok.
  - apply maze_3x3_ok.
  - apply maze_3x3_ok.
  - simpl. lia.
Defined.

(** The second example scenario: in a 16 by 16 maze without interior
    walls the four centre cells flood to 0 and the start cell to 14. *)
Example floodfill_16x16 :
  (m ← init 16 16;
   r ← floodfill 260 m;
   let g := flood_values r.1 in
   c ← flood_at g (0, 0);
   gs ← mapM (flood_at g) (goals m);
   Done (goals m, gs, c))
  = Done ([(7, 7); (8, 7); (7, 8); (8, 8)], [Fin 0; Fin 0; Fin 0; Fin 0], Fin 14).
Proof. vm_compute. reflexivity. Qed.

(** The first example scenario: a 3 by 3 maze without interior walls and
    goal (1,1) floods to 0 at the goal, 1 at its four neighbours and 2 at
    the corners. *)
Example floodfill_3x3 :
  fst <$> (match floodfill 10 maze_3x3 with Done r => Some r | _ => None end)
  = Some (set_flood_values maze_3x3
            [[Fin 2; Fin 1; Fin 2]; [Fin 1; Fin 0; Fin 1]; [Fin 2; Fin 1; Fin 2]]).
Proof. vm_compute. reflexivity. Qed.

(** * The navigation cycle *)

Lemma for_each_inv {St} (P : St → Prop) (body : Z → St → outcome St) ds s :
  P s →
  (∀ d s, d ∈ ds → P s → ∃ s', body d s = Done s' ∧ P s') →
  ∃ s', for_each ds body s = Done s' ∧ P s'.
Proof.
  revert s. induction ds as [|d ds IH]; intros s Hs Hbody.
  - by exists s.
  - destruct (Hbody d s) as (s1 & Hb & Hs1); [by left | done |].
    cbn [for_each]. rewrite Hb. cbn [mbind outcome_bind].
    apply IH; [done|]. intros d' s' Hd'. apply Hbody. by right.
Qed.

Lemma range_4 : range 4 = [0; 1; 2; 3].
Proof. reflexivity. Qed.

Lemma range_4_direction d : d ∈ range 4 → is_direction d.
Proof. rewrite range_4. unfold is_direction. set_solver by lia. Qed.

Lemma mouse_ok_set_walls m ws :
  mouse_ok m → grid_shape (width m) (height m) ws → mouse_ok (set_walls m ws).
Proof.
  intros [[Hw Hh _] Hfv Hgs Hlen Hpos Hdir] Hs.
  constructor; first [done | by constructor].
Qed.

Lemma mouse_ok_set_flood_values m g :
  mouse_ok m → grid_shape (width m) (height m) g →
  mouse_ok (set_flood_values m g).
Proof.
  intros [[Hw Hh Hws] Hfv Hgs Hlen Hpos Hdir] Hs.
  constructor; first [done | by constructor].
Qed.

Lemma scan_checks_spec checks :
  ∀ i w,
    maze_ok (self w) → is_cell (self w) (self_x (self w), self_y (self w)) →
    ∃ ws cmds,
      scan_checks i checks w
      = Done (World (set_walls (self w) ws) (tick w) (out w ++ cmds))
      ∧ grid_shape (width (self w)) (height (self w)) ws
      ∧ Forall (λ c, is_motion c = false) cmds.
Proof.
  induction checks as [|has_wall checks IH]; intros i w Hok Hpos.
  - exists (walls (self w)), []. rewrite app_nil_r.
    split; [|split; [by destruct Hok | done]].
    destruct w as [[] ? ?]. reflexivity.
  - cbn [scan_checks]. destruct has_wall; [|by apply IH].
    set (e := (direction (self w) + i) `mod` 4).
    assert (is_direction e) as He by (apply Z.mod_pos_bound; lia).
    destruct (set_wall_inside (self w) _ _ e Hok Hpos He) as (ws & -> & Hs & _).
    cbn [mbind outcome_bind].
    destruct (py_get_in nsew e) as (c & _ & ->); [simpl; unfold is_direction in He; lia|].
    cbn [mbind outcome_bind].
    edestruct (IH (i + 1)) as (ws' & cmds & -> & Hs' & Hcmds).
    { destruct Hok. constructor; simpl; done. }
    { done. }
    exists ws', (setWall (self_x (self w)) (self_y (self w)) c :: cmds).
    simpl. split; [|split; [done | by constructor]].
    rewrite <- app_assoc. done.
Qed.

Lemma best_step_ok m d best :
  mouse_ok m → is_direction d → open_move m best.1 →
  ∃ best', best_step m d best = Done best' ∧ open_move m best'.1.
Proof.
  intros Hok Hd Hbest. destruct best as [bd bv]. unfold best_step.
  destruct (is_wall_Done m (self_x m) (self_y m) d (mo_maze _ Hok) Hd) as (b & Hb).
  rewrite Hb. cbn [mbind outcome_bind]. destruct b; [by eexists|].
  destruct (get_direction_offset_Done (self_x m) (self_y m) d Hd)
    as (dx & dy & -> & Hn).
  cbn [mbind outcome_bind].
  destruct (in_bounds m _ _) eqn:Hin; [|by eexists].
  apply in_bounds_true in Hin. destruct (Hin) as [Hx Hy]; simpl in Hx, Hy.
  destruct (grid_get_Done _ _ _ _ _ (mo_flood _ Hok) Hx Hy) as (v & ->).
  cbn [mbind outcome_bind].
  destruct (fval_lt v bv); [|by eexists].
  eexists. split; [done|]. intros d' [= <-]. rewrite Hn. done.
Qed.

Lemma explore_step_ok m d best :
  mouse_ok m → is_direction d → open_move m best.1 →
  ∃ best', explore_step m d best = Done best' ∧ open_move m best'.1.
Proof.
  intros Hok Hd Hbest. destruct best as [bd bv]. unfold explore_step.
  destruct (is_wall_Done m (self_x m) (self_y m) d (mo_maze _ Hok) Hd) as (b & Hb).
  rewrite Hb. cbn [mbind outcome_bind]. destruct b; [by eexists|].
  destruct (get_direction_offset_Done (self_x m) (self_y m) d Hd)
    as (dx & dy & -> & Hn).
  cbn [mbind outcome_bind].
  destruct (in_bounds m _ _) eqn:Hin; [|by eexists].
  apply in_bounds_true in Hin. destruct (Hin) as [Hx Hy]; simpl in Hx, Hy.
  destruct (grid_get_Done _ _ _ _ _ (mo_flood _ Hok) Hx Hy) as (v & ->).
  cbn [mbind outcome_bind].
  destruct (fval_lt _ bv); [|by eexists].
  eexists. split; [done|]. intros d' [= <-]. rewrite Hn. done.
Qed.

Lemma get_best_direction_ok m :
  mouse_ok m → ∃ o, get_best_direction m = Done o ∧ open_move m o.
Proof.
  intros Hok. unfold get_best_direction.
  destruct (mo_pos _ Hok) as [Hx Hy]; simpl in Hx, Hy.
  destruct (grid_get_Done _ _ _ _ _ (mo_flood _ Hok) Hx Hy) as (v & ->).
  cbn [mbind outcome_bind].
  destruct (for_each_inv (λ best, open_move m best.1) (best_step m) (range 4)
              (None, Inf)) as (best & -> & Hbest).
  - by intros d.
  - intros d best Hd. apply best_step_ok; [done | by apply range_4_direction].
  - by exists best.1.
Qed.

Lemma explore_direction_ok m :
  mouse_ok m → ∃ o, explore_direction m = Done o ∧ open_move m o.
Proof.
  intros Hok. unfold explore_direction.
  destruct (for_each_inv (λ best, open_move m best.1) (explore_step m) (range 4)
              (None, Inf)) as (best & -> & Hbest).
  - by intros d.
  - intros d best Hd. apply explore_step_ok; [done | by apply range_4_direction].
  - by exists best.1.
Qed.

Lemma unvisited_neighbour_Done m dirs :
  mouse_ok m → Forall is_direction dirs →
  ∃ b, unvisited_neighbour m dirs = Done b.
Proof.
  intros Hok. induction dirs as [|d dirs IH]; intros Hds; [by eexists|].
  apply Forall_cons in Hds as [Hd Hds]. cbn [unvisited_neighbour].
  destruct (is_wall_Done m (self_x m) (self_y m) d (mo_maze _ Hok) Hd) as (b & ->).
  cbn [mbind outcome_bind]. destruct b; [by apply IH|].
  destruct (get_direction_offset_Done (self_x m) (self_y m) d Hd)
    as (dx & dy & -> & _).
  cbn [mbind outcome_bind]. destruct (_ && _); [by eexists | by apply IH].
Qed.

Lemma move_forward_spec w :
  is_direction (direction (self w)) →
  let m := self w in
  let c := neighbor (self_x m, self_y m) (direction m) in
  move_forward w
  = Done (World (set_visited (set_position m c.1 c.2) ({[ c ]} ∪ visited m))
                (tick w) (out w ++ [moveForward])).
Proof.
  intros Hd m c. unfold move_forward. fold m.
  destruct (get_direction_offset_Done (self_x m) (self_y m) (direction m) Hd)
    as (dx & dy & -> & Hn).
  subst c. rewrite Hn. reflexivity.
Qed.

Section CycleFacts.
Variable sensor : nat → bool.
Variables above_70_percent below_90_percent : Z → Z → bool.

Lemma scan_walls_spec w :
  maze_ok (self w) → is_cell (self w) (self_x (self w), self_y (self w)) →
  ∃ ws cmds,
    scan_walls sensor w
    = Done (World (set_walls (self w) ws) (tick w + 4)%nat (out w ++ cmds))
    ∧ grid_shape (width (self w)) (height (self w)) ws
    ∧ Forall (λ c, is_motion c = false) cmds.
Proof.
  intros Hok Hpos. unfold scan_walls, query. cbn -[scan_checks].
  edestruct (scan_checks_spec
               [sensor (tick w); sensor (S (tick w));
                sensor (S (S (tick w))); sensor (S (S (S (tick w))))] 0
               (World (self w) (S (S (S (S (tick w))))) (out w)))
    as (ws & cmds & -> & Hs & Hcmds); [done | done |].
  exists ws, cmds. simpl. replace (tick w + 4)%nat with (S (S (S (S (tick w))))) by lia.
  done.
Qed.

Lemma observe_spec fuel w :
  mouse_ok (self w) →
  (cycle_fuel (width (self w)) (height (self w)) ≤ fuel)%nat →
  ∃ ws g cmds,
    observe sensor fuel w
    = Done (World (set_flood_values (set_walls (self w) ws) g)
                  (tick w + 4)%nat (out w ++ cmds))
    ∧ grid_shape (width (self w)) (height (self w)) ws
    ∧ flood_inv (set_walls (self w) ws) g []
    ∧ Forall (λ c, is_motion c = false) cmds.
Proof.
  intros Hok Hfuel. unfold observe.
  destruct (scan_walls_spec w (mo_maze _ Hok) (mo_pos _ Hok))
    as (ws & cmds & -> & Hs & Hcmds).
  cbn [mbind outcome_bind]. simpl.
  pose proof (mouse_ok_set_walls _ ws Hok Hs) as Hok1.
  destruct (floodfill_spec (set_walls (self w) ws) fuel)
    as (g & cmds' & -> & Hinv & Hcmds').
  - apply Hok1.
  - apply Hok1.
  - apply Hok1.
  - pose proof (mo_goals_len _ Hok). unfold cycle_fuel in Hfuel. simpl. lia.
  - cbn [mbind outcome_bind].
    exists ws, g, (cmds ++ [setColor (self_x (self w)) (self_y (self w))
                            match phase (self w) with
                            | explore => Blue
                            | speed_run => Yellow
                            end] ++ cmds').
    split; [by rewrite <- !app_assoc|]. split; [done|]. split; [done|].
    apply Forall_app. split; [done|]. apply Forall_app. split; [|done].
    by repeat constructor.
Qed.

End CycleFacts.

Lemma mouse_ok_set_goals m p gs :
  mouse_ok m → Forall (is_cell m) gs → (length gs ≤ 4)%nat →
  mouse_ok (set_goals (set_phase m p) gs).
Proof.
  intros [[Hw Hh Hws] Hfv Hgs Hlen Hpos Hdir] Hgs' Hlen'.
  constructor;
    [constructor; [exact Hw | exact Hh | exact Hws]
    | exact Hfv | exact Hgs' | exact Hlen' | exact Hpos | exact Hdir].
Qed.

Lemma mouse_ok_moved m d c vs :
  mouse_ok m → is_direction d → is_cell m c →
  mouse_ok (set_visited (set_position (set_direction m d) c.1 c.2) vs).
Proof.
  intros [[Hw Hh Hws] Hfv Hgs Hlen Hpos Hdir] Hd Hc.
  constructor;
    [constructor; [exact Hw | exact Hh | exact Hws]
    | exact Hfv | exact Hgs | exact Hlen | exact Hc | exact Hd].
Qed.

Section AdvanceFacts.
Variables above_70_percent below_90_percent : Z → Z → bool.

Lemma should_explore_more_Done m :
  mouse_ok m →
  ∃ b, should_explore_more above_70_percent below_90_percent m = Done b.
Proof.
  intros Hok. unfold should_explore_more. destruct (phase m); [|by eexists].
  destruct (mo_pos _ Hok) as [Hx Hy]; simpl in Hx, Hy.
  destruct (grid_get_Done _ _ _ _ _ (mo_flood _ Hok) Hx Hy) as (v & ->).
  cbn [mbind outcome_bind].
  destruct (unvisited_neighbour_Done m (range 4) Hok) as (b & ->).
  { apply Forall_forall. apply range_4_direction. }
  cbn [mbind outcome_bind]. destruct b; [by eexists|].
  destruct (_ && _); by eexists.
Qed.

Lemma advance_ok fuel step_count w :
  mouse_ok (self w) → (1 ≤ fuel)%nat →
  ∃ w' fl,
    advance above_70_percent below_90_percent fuel step_count w = Done (w', fl)
    ∧ mouse_ok (self w')
    ∧ width (self w') = width (self w) ∧ height (self w') = height (self w).
Proof.
  intros Hok Hfuel. unfold advance.
  destruct (at_goal (self w)).
  { destruct (phase (self w)); do 2 eexists; (split; [done|]); simpl;
      (split; [|done]); [|done].
    apply mouse_ok_set_goals; [done | | simpl; lia].
    pose proof (maze_width_pos _ (mo_maze _ Hok)).
    pose proof (maze_height_pos _ (mo_maze _ Hok)).
    repeat constructor; simpl; lia. }
  destruct (should_explore_more_Done (self w) Hok) as (more & ->).
  cbn [mbind outcome_bind].
  assert (∃ o, (if more && bool_decide (phase (self w) = explore)
                then explore_direction (self w)
                else get_best_direction (self w)) = Done o
               ∧ open_move (self w) o) as (o & -> & Ho).
  { destruct (_ && _); [by apply explore_direction_ok | by apply get_best_direction_ok]. }
  cbn [mbind outcome_bind].
  destruct o as [d|]; [|by do 2 eexists].
  destruct (Ho d eq_refl) as (Hd & _ & Hcell).
  rewrite turn_to_direction_turns by (try done; apply Hok).
  cbn [mbind outcome_bind].
  rewrite move_forward_spec by done.
  cbn [mbind outcome_bind]. simpl.
  pose proof (mouse_ok_moved (self w) d
                (neighbor (self_x (self w), self_y (self w)) d)
                ({[neighbor (self_x (self w), self_y (self w)) d]}
                 ∪ visited (self w)) Hok Hd Hcell) as Hok'.
  destruct (bool_decide _); do 2 eexists; done.
Qed.

End AdvanceFacts.

(** ** Reset and the whole cycle *)

Lemma fresh_mouse_ok w h ws fv :
  1 ≤ w → 1 ≤ h →
  grid_is w h ws (boundary_mask w h) → grid_shape w h fv →
  mouse_ok (Mouse w h 0 0 0 ws fv (center_goals w h) explore {[ (0, 0) ]}).
Proof.
  intros Hw Hh [Hws _] Hfv.
  destruct (center_goals_spec w h Hw Hh) as (_ & Hc & Hlen).
  constructor; simpl.
  - by constructor.
  - done.
  - eapply Forall_impl; [exact Hc|]. by intros c [? _].
  - rewrite Hlen. repeat case_bool_decide; lia.
  - split; simpl; lia.
  - unfold is_direction. lia.
Qed.

Lemma init_mouse_ok w h :
  1 ≤ w → 1 ≤ h →
  ∃ m, init w h = Done m ∧ mouse_ok m ∧ width m = w ∧ height m = h
       ∧ self_x m = 0 ∧ self_y m = 0.
Proof.
  intros Hw Hh. destruct (init_Done w h Hw Hh) as (ws & -> & Hws).
  eexists. split; [done|]. split; [|done].
  apply fresh_mouse_ok; [done | done | done | apply make_grid_shape; lia].
Qed.

Lemma reset_self_ok m :
  1 ≤ width m → 1 ≤ height m →
  grid_shape (width m) (height m) (flood_values m) →
  ∃ m', reset_self m = Done m' ∧ mouse_ok m'
        ∧ width m' = width m ∧ height m' = height m
        ∧ flood_values m' = flood_values m.
Proof.
  intros Hw Hh Hfv.
  destruct (init_Done (width m) (height m) Hw Hh) as (ws & Hinit & Hws).
  rewrite (reset_self_init _ _ _ m Hinit eq_refl eq_refl).
  eexists. split; [done|]. split; [|done]. simpl.
  by apply fresh_mouse_ok.
Qed.

Section CycleOk.
Variable sensor : nat → bool.
Variables above_70_percent below_90_percent : Z → Z → bool.

Lemma cycle_ok fuel step_count w :
  mouse_ok (self w) →
  (cycle_fuel (width (self w)) (height (self w)) ≤ fuel)%nat →
  ∃ w' fl,
    cycle sensor above_70_percent below_90_percent fuel step_count w
    = Done (w', fl)
    ∧ mouse_ok (self w')
    ∧ width (self w') = width (self w) ∧ height (self w') = height (self w).
Proof.
  intros Hok Hfuel. unfold cycle, query.
  destruct (sensor (tick w)).
  - unfold reset_handler. cbn [self tick out].
    destruct (reset_self_ok (self w)) as (m' & -> & Hok' & Hw' & Hh' & _);
      [apply Hok ..|].
    cbn [mbind outcome_bind]. do 2 eexists. done.
  - destruct (observe_spec sensor fuel
                (World (self w) (S (tick w)) (out w)) Hok Hfuel)
      as (ws & g & cmds & -> & Hws & Hinv & _).
    cbn [mbind outcome_bind]. cbn [self tick out].
    pose proof (mouse_ok_set_walls _ ws Hok Hws) as Hok1.
    pose proof (mouse_ok_set_flood_values _ g Hok1 (fi_shape _ _ _ Hinv)) as Hok2.
    unfold cycle_fuel in Hfuel.
    edestruct (advance_ok above_70_percent below_90_percent fuel step_count)
      as (w' & fl & -> & Hok' & Hw' & Hh'); [| |by exists w', fl].
    + exact Hok2.
    + lia.
Qed.

Lemma cycles_ok fuel n :
  ∀ step_count w,
    mouse_ok (self w) →
    (cycle_fuel (width (self w)) (height (self w)) ≤ fuel)%nat →
    ∃ step_count' w' fl,
      cycles sensor above_70_percent below_90_percent n fuel step_count w
      = Done (step_count', w', fl)
      ∧ mouse_ok (self w')
      ∧ width (self w') = width (self w) ∧ height (self w') = height (self w).
Proof.
  induction n as [|n IH]; intros step_count w Hok Hfuel.
  - do 3 eexists. done.
  - cbn [cycles].
    destruct (cycle_ok fuel (step_count + 1) w Hok Hfuel)
      as (w1 & fl & -> & Hok1 & Hw1 & Hh1).
    cbn [mbind outcome_bind].
    destruct fl; [|by do 3 eexists].
    destruct (IH (step_count + 1) w1 Hok1) as (sc & w2 & fl & -> & ? & ? & ?).
    { by rewrite Hw1, Hh1. }
    do 3 eexists. split; [done|]. split; [done|]. split; congruence.
Qed.

End CycleOk.

(** * Properties of the navigation loop *)

(** C3 — Reaching a goal.  In a navigation cycle that sees no reset and in
    which the robot's cell is in the goal set: when exploring, the cycle
    ends with the phase [speed_run] and the goal list [(0,0)], the loop
    continues, and the commands issued in the cycle contain no turn and no
    move (position and heading are unchanged); when already speed running,
    the cycle leaves the loop, so [run]'s loop stops at this iteration
    however many iterations were still allowed. *)
Theorem goal_reached (sensor : nat → bool)
    (above_70_percent below_90_percent : Z → Z → bool)
    (fuel : nat) (step_count : Z) (w : world) :
  mouse_ok (self w) →
  (cycle_fuel (width (self w)) (height (self w)) ≤ fuel)%nat →
  sensor (tick w) = false →
  at_goal (self w) = true →
  ∃ w' cmds,
    out w' = out w ++ cmds
    ∧ match phase (self w) with
      | explore =>
        cycle sensor above_70_percent below_90_percent fuel (step_count + 1) w
        = Done (w', Continue)
        ∧ phase (self w') = speed_run
        ∧ goals (self w') = [(0, 0)]
        ∧ Forall (λ c, is_motion c = false) cmds
        ∧ self_x (self w') = self_x (self w)
        ∧ self_y (self w') = self_y (self w)
        ∧ direction (self w') = direction (self w)
      | speed_run =>
        cycle sensor above_70_percent below_90_percent fuel (step_count + 1) w
        = Done (w', Break speed_run_complete)
        ∧ ∀ n, cycles sensor above_70_percent below_90_percent (S n) fuel
                 step_count w
               = Done (step_count + 1, w', Break speed_run_complete)
      end.
Proof.
  intros Hok Hfuel Hreset Hgoal.
  assert (∀ sc, cycle sensor above_70_percent below_90_percent fuel sc w
          = w1 ← observe sensor fuel (World (self w) (S (tick w)) (out w));
            advance above_70_percent below_90_percent fuel sc w1) as Hcycle.
  { intros sc. unfold cycle, query. by rewrite Hreset. }
  destruct (observe_spec sensor fuel (World (self w) (S (tick w)) (out w)) Hok Hfuel)
    as (ws & g & cmds & Hobs & _ & _ & Hcmds).
  cbn [self tick out] in Hobs.
  assert (∀ sc, cycle sensor above_70_percent below_90_percent fuel sc w
          = advance above_70_percent below_90_percent fuel sc
              (World (set_flood_values (set_walls (self w) ws) g)
                     (S (tick w) + 4)%nat (out w ++ cmds))) as Hadv.
  { intros sc. rewrite Hcycle, Hobs. done. }
  assert (at_goal (set_flood_values (set_walls (self w) ws) g) = true) as Hgoal'
    by exact Hgoal.
  destruct (phase (self w)) eqn:Hphase.
  - eexists. exists (cmds ++ [setColor (self_x (self w)) (self_y (self w)) Green]).
    split; [|split].
    2:{ rewrite Hadv. unfold advance. cbn [self]. rewrite Hgoal'.
        change (phase (set_flood_values (set_walls (self w) ws) g))
          with (phase (self w)).
        rewrite Hphase. reflexivity. }
    + simpl. by rewrite <- app_assoc.
    + simpl. split; [done|]. split; [done|]. split; [|done].
      apply Forall_app. split; [done|]. by repeat constructor.
  - assert (cycle sensor above_70_percent below_90_percent fuel (step_count + 1) w
            = Done (World (set_flood_values (set_walls (self w) ws) g)
                          (S (tick w) + 4)%nat
                          ((out w ++ cmds)
                           ++ [setColor (self_x (self w)) (self_y (self w)) Green]),
                    Break speed_run_complete)) as Hrun.
    { rewrite Hadv. unfold advance. cbn [self]. rewrite Hgoal'.
      change (phase (set_flood_values (set_walls (self w) ws) g))
        with (phase (self w)).
      rewrite Hphase. reflexivity. }
    eexists. exists (cmds ++ [setColor (self_x (self w)) (self_y (self w)) Green]).
    split; [|split; [exact Hrun|]].
    + simpl. by rewrite <- app_assoc.
    + intros n. cbn [cycles]. rewrite Hrun. reflexivity.
Qed.

Lemma goal_reached_witness :
  ∃ w' cmds,
    out w' = [] ++ cmds
    ∧ cycle (λ _, false) (λ _ _, false) (λ _ _, false) 13 1
            (World (set_position maze_3x3 1 1) 0 [])
      = Done (w', Continue)
    ∧ phase (self w') = speed_run
    ∧ goals (self w') = [(0, 0)]
    ∧ Forall (λ c, is_motion c = false) cmds
    ∧ self_x (self w') = 1
    ∧ self_y (self w') = 1
    ∧ direction (self w') = 0.
Proof.
  refine (goal_reached (λ _, false) (λ _ _, false) (λ _ _, false) 13 0
            (World (set_position maze_3x3 1 1) 0 []) _ _ _ _).
  - destruct maze_3x3_ok as (Hok & _ & Hfv & Hgs).
    constructor;
      [destruct Hok as [? ? ?]; constructor; assumption
      | exact Hfv | exact Hgs | simpl; lia | split; simpl; lia
      | unfold is_direction; simpl; lia].
  - vm_compute. lia.
  - reflexivity.
  - reflexivity.
Defined.

(** C7 — The step ceiling.  With a simulator that signals a reset in every
    cycle, the loop of [run] is still running after any number [n] of
    iterations, with [step_count = n]: the [continue] of the reset branch
    skips the check [step_count > 10000] at the end of the body.  So the
    loop goes past 10000 iterations, and [run] does not return within any
    number of iterations. *)
Theorem step_ceiling_skipped_by_reset (n fuel : nat) :
  (∃ w, cycles (λ _, true) (λ _ _, false) (λ _ _, false) n fuel 0 (start maze_3x3)
        = Done (Z.of_nat n, w, Continue))
  ∧ run (λ _, true) (λ _ _, false) (λ _ _, false) n fuel maze_3x3 = Timeout.
Proof.
  assert (∀ k step_count w,
            1 ≤ width (self w) → 1 ≤ height (self w) →
            grid_shape (width (self w)) (height (self w)) (flood_values (self w)) →
            ∃ w', cycles (λ _, true) (λ _ _, false) (λ _ _, false) k fuel step_count w
                  = Done (step_count + Z.of_nat k, w', Continue)) as Hloop.
  { induction k as [|k IH]; intros step_count w Hw Hh Hfv.
    - exists w. simpl. do 3 f_equal. lia.
    - cbn [cycles]. unfold cycle, query, reset_handler. cbn [self tick out].
      destruct (reset_self_ok (self w) Hw Hh Hfv) as (m' & -> & _ & Hw' & Hh' & Hfv').
      cbn [mbind outcome_bind].
      edestruct (IH (step_count + 1)) as (w' & ->).
      + cbn [self]. by rewrite Hw'.
      + cbn [self]. by rewrite Hh'.
      + cbn [self]. by rewrite Hw', Hh', Hfv'.
      + exists w'. do 3 f_equal. lia. }
  destruct (Hloop n 0 (start maze_3x3)) as (w & Hw).
  - simpl. lia.
  - simpl. lia.
  - apply make_grid_shape; lia.
  - rewrite Z.add_0_l in Hw. split; [by exists w|].
    unfold run. rewrite Hw. reflexivity.
Qed.

(** ** Reset *)

(** C8 (as the code has it) — Reset.  Handling a reset twice in a row
    leaves the controller in the state one handling leaves it in; that
    state has the position, heading, phase, visited set, walls and goal
    list of a freshly constructed controller of the same dimensions, and
    the flood values the controller had before the reset. *)
Theorem reset_idempotent (w h : Z) (wd : world) :
  1 ≤ w → 1 ≤ h → width (self wd) = w → height (self wd) = h →
  ∃ m0 w1 w2,
    init w h = Done m0
    ∧ reset_handler wd = Done w1
    ∧ reset_handler w1 = Done w2
    ∧ self w2 = self w1
    ∧ self w1 = set_flood_values m0 (flood_values (self wd))
    ∧ (self_x (self w1), self_y (self w1), direction (self w1), phase (self w1),
       visited (self w1), walls (self w1), goals (self w1))
      = (self_x m0, self_y m0, direction m0, phase m0, visited m0, walls m0,
         goals m0)
    ∧ flood_values (self w1) = flood_values (self wd).
Proof.
  intros Hw Hh Hwd Hhd.
  destruct (init_Done w h Hw Hh) as (ws & Hinit & _).
  set (m0 := Mouse w h 0 0 0 ws (make_grid w h (Fin 0)) (center_goals w h)
                   explore {[ (0, 0) ]}) in *.
  set (m1 := set_flood_values m0 (flood_values (self wd))).
  assert (∀ wx, self wx = m1 ∨ wx = wd →
            reset_handler wx
            = Done (World m1 (tick wx)
                      (out wx ++ [ackReset]
                       ++ [clearAllColor; clearAllText; setColor 0 0 Green]
                       ++ mark_goals (goals m1)))) as Hreset.
  { intros wx Hwx. unfold reset_handler.
    rewrite (reset_self_init w h m0 (self wx) Hinit).
    - destruct Hwx as [-> | ->]; reflexivity.
    - destruct Hwx as [-> | ->]; [reflexivity | done].
    - destruct Hwx as [-> | ->]; [reflexivity | done]. }
  exists m0. do 2 eexists.
  split; [exact Hinit|].
  split; [apply Hreset; by right|].
  split; [apply Hreset; by left|].
  done.
Qed.

Lemma reset_idempotent_witness :
  ∃ m0 w1 w2,
    init 3 3 = Done m0
    ∧ reset_handler (World (set_position maze_3x3 1 1) 7 []) = Done w1
    ∧ reset_handler w1 = Done w2
    ∧ self w2 = self w1
    ∧ self w1 = set_flood_values m0 (flood_values maze_3x3)
    ∧ (self_x (self w1), self_y (self w1), direction (self w1), phase (self w1),
       visited (self w1), walls (self w1), goals (self w1))
      = (self_x m0, self_y m0, direction m0, phase m0, visited m0, walls m0,
         goals m0)
    ∧ flood_values (self w1) = flood_values maze_3x3.
Proof.
  apply (reset_idempotent 3 3 (World (set_position maze_3x3 1 1) 7 []));
    [lia | lia | reflexivity | reflexivity].
Defined.

(** C8, the claim as stated, fails on the flood-value map: on a 3 by 3
    maze, after one ordinary cycle and then a cycle that handles a reset,
    the flood values are those of the first cycle's flood fill, not the
    zeros of a freshly constructed controller. *)
Lemma reset_keeps_flood_values :
  ∃ w2,
    cycles (λ k, bool_decide (k = 5%nat)) (λ _ _, false) (λ _ _, false)
           2 13 0 (start maze_3x3)
    = Done (2, w2, Continue)
    ∧ init 3 3 = Done maze_3x3
    ∧ flood_values (self w2)
      = [[Fin 2; Fin 1; Fin 2]; [Fin 1; Fin 0; Fin 1]; [Fin 2; Fin 1; Fin 2]]
    ∧ flood_values maze_3x3
      = [[Fin 0; Fin 0; Fin 0]; [Fin 0; Fin 0; Fin 0]; [Fin 0; Fin 0; Fin 0]]
    ∧ self w2 ≠ maze_3x3.
Proof.
  eexists. split; [vm_compute; reflexivity|].
  split; [apply init_3x3|]. split; [reflexivity|]. split; [reflexivity|].
  intros Heq. apply (f_equal flood_values) in Heq. vm_compute in Heq.
  discriminate Heq.
Qed.

(** ** The position invariant *)

(** C10 — Position in bounds.  From construction on, after any number of
    navigation cycles and whatever the simulator answers, the loop has run
    without error and the robot's position is a cell of the grid; each
    cycle keeps the controller invariant [mouse_ok], of which this is a
    part.  Both move selections only return a direction whose side is not
    walled and whose neighbouring cell is in the grid, and the boundary
    walls of a fresh or reset maze block every direction leaving the
    grid. *)
Theorem position_stays_in_bounds (sensor : nat → bool)
    (above_70_percent below_90_percent : Z → Z → bool)
    (w h : Z) (fuel n : nat) :
  1 ≤ w → 1 ≤ h → (cycle_fuel w h ≤ fuel)%nat →
  ∃ m0,
    init w h = Done m0
    ∧ (∃ step_count wd fl,
         cycles sensor above_70_percent below_90_percent n fuel 0 (start m0)
         = Done (step_count, wd, fl)
         ∧ 0 ≤ self_x (self wd) < w ∧ 0 ≤ self_y (self wd) < h)
    ∧ (∀ step_count wd,
         mouse_ok (self wd) → width (self wd) = w → height (self wd) = h →
         ∃ wd' fl,
           cycle sensor above_70_percent below_90_percent fuel step_count wd
           = Done (wd', fl)
           ∧ mouse_ok (self wd')
           ∧ 0 ≤ self_x (self wd') < w ∧ 0 ≤ self_y (self wd') < h)
    ∧ (∀ m o, mouse_ok m →
         explore_direction m = Done o ∨ get_best_direction m = Done o →
         open_move m o)
    ∧ (∀ m1 x y d,
         m1 = m0 ∨ (∃ m, width m = w ∧ height m = h ∧ reset_self m = Done m1) →
         is_direction d → ¬ is_cell m1 (neighbor (x, y) d) →
         is_wall m1 x y d = Done true).
Proof.
  intros Hw Hh Hfuel.
  destruct (init_Done w h Hw Hh) as (ws & Hinit & Hws).
  pose proof (fresh_mouse_ok w h ws (make_grid w h (Fin 0)) Hw Hh Hws
                (make_grid_shape w h (Fin 0) ltac:(lia) ltac:(lia))) as Hok0.
  eexists. split; [exact Hinit|]. split; [|split; [|split]].
  - edestruct (cycles_ok sensor above_70_percent below_90_percent fuel n 0
                 (start _) Hok0) as (sc & wd & fl & Hrun & Hok & Hwd & Hhd);
      [exact Hfuel|].
    exists sc, wd, fl. split; [exact Hrun|].
    destruct (mo_pos _ Hok) as [Hx Hy]. simpl in Hx, Hy, Hwd, Hhd.
    rewrite Hwd in Hx. rewrite Hhd in Hy. done.
  - intros sc wd Hok Hwd Hhd.
    destruct (cycle_ok sensor above_70_percent below_90_percent fuel sc wd Hok)
      as (wd' & fl & Hrun & Hok' & Hwd' & Hhd').
    { by rewrite Hwd, Hhd. }
    exists wd', fl. split; [exact Hrun|]. split; [exact Hok'|].
    destruct (mo_pos _ Hok') as [Hx Hy]. simpl in Hx, Hy.
    rewrite Hwd', Hwd in Hx. rewrite Hhd', Hhd in Hy. done.
  - intros m o Hok [Ho | Ho].
    + destruct (explore_direction_ok m Hok) as (o' & Ho' & Hopen).
      rewrite Ho in Ho'. injection Ho' as <-. exact Hopen.
    + destruct (get_best_direction_ok m Hok) as (o' & Ho' & Hopen).
      rewrite Ho in Ho'. injection Ho' as <-. exact Hopen.
  - intros m1 x y d Hm1 Hd Hout.
    assert (is_wall m1 x y d
            = is_wall (Mouse w h 0 0 0 ws (make_grid w h (Fin 0))
                             (center_goals w h) explore {[ (0, 0) ]}) x y d
            ∧ ∀ c, is_cell m1 c
                   ↔ is_cell (Mouse w h 0 0 0 ws (make_grid w h (Fin 0))
                                    (center_goals w h) explore {[ (0, 0) ]}) c)
      as [-> Hcell].
    { destruct Hm1 as [-> | (m & Hwm & Hhm & Hreset)]; [done|].
      rewrite (reset_self_init w h _ m Hinit Hwm Hhm) in Hreset.
      injection Hreset as <-. done. }
    rewrite (fresh_is_wall w h ws _ x y d eq_refl Hws Hd). f_equal.
    rewrite (bool_decide_eq_false_2 (is_cell _ (neighbor (x, y) d)))
      by (by rewrite <- Hcell).
    apply orb_true_r.
Qed.

Lemma position_stays_in_bounds_witness :
  ∃ m0,
    init 3 3 = Done m0
    ∧ (∃ step_count wd fl,
         cycles (λ _, false) (λ _ _, false) (λ _ _, false) 4 13 0 (start m0)
         = Done (step_count, wd, fl)
         ∧ 0 ≤ self_x (self wd) < 3 ∧ 0 ≤ self_y (self wd) < 3)
    ∧ (∀ step_count wd,
         mouse_ok (self wd) → width (self wd) = 3 → height (self wd) = 3 →
         ∃ wd' fl,
           cycle (λ _, false) (λ _ _, false) (λ _ _, false) 13 step_count wd
           = Done (wd', fl)
           ∧ mouse_ok (self wd')
           ∧ 0 ≤ self_x (self wd') < 3 ∧ 0 ≤ self_y (self wd') < 3)
    ∧ (∀ m o, mouse_ok m →
         explore_direction m = Done o ∨ get_best_direction m = Done o →
         open_move m o)
    ∧ (∀ m1 x y d,
         m1 = m0 ∨ (∃ m, width m = 3 ∧ height m = 3 ∧ reset_self m = Done m1) →
         is_direction d → ¬ is_cell m1 (neighbor (x, y) d) →
         is_wall m1 x y d = Done true).
Proof.
  apply (position_stays_in_bounds (λ _, false) (λ _ _, false) (λ _ _, false)
           3 3 13 4); [lia | lia | vm_compute; lia].
Defined.

(** * Further properties of the maze model *)

Lemma grid_get_lookup {A} w h (g : list (list A)) x y v :
  grid_shape w h g → 0 ≤ x < w → 0 ≤ y < h →
  grid_get g x y = Done v ↔
  ∃ col, g !! Z.to_nat x = Some col ∧ col !! Z.to_nat y = Some v.
Proof.
  intros [Hl Hc] Hx Hy.
  destruct (py_get_in g x) as (col & Hcol & Hget); [lia|].
  assert (Z.of_nat (length col) = h) as Hlen.
  { eapply (Forall_lookup_1 _ _ _ _ Hc Hcol). }
  destruct (py_get_in col y) as (v' & Hv' & Hget'); [lia|].
  unfold grid_get. rewrite Hget. cbn [mbind outcome_bind]. rewrite Hget'.
  split.
  - intros [= <-]. eauto.
  - intros (col' & Hcol' & Hv). congruence.
Qed.

Lemma grid_set_same {A} w h (g : list (list A)) x y v :
  grid_shape w h g → 0 ≤ x < w → 0 ≤ y < h →
  grid_get g x y = Done v → grid_set g x y v = Done g.
Proof.
  intros Hs Hx Hy Hget.
  apply (grid_get_lookup w h g x y v Hs Hx Hy) in Hget as (col & Hcol & Hv).
  destruct Hs as [Hl Hc].
  assert (Z.of_nat (length col) = h) as Hlen.
  { eapply (Forall_lookup_1 _ _ _ _ Hc Hcol). }
  destruct (py_get_in g x) as (col' & Hcol' & Hgetc); [lia|].
  assert (col' = col) as -> by congruence.
  unfold grid_set. rewrite Hgetc. cbn [mbind outcome_bind].
  rewrite py_set_in by lia. cbn [mbind outcome_bind].
  rewrite py_set_in by lia.
  rewrite (list_insert_id col _ v Hv). by rewrite (list_insert_id g _ col Hcol).
Qed.

Lemma grid_ext {A} w h (g g' : list (list A)) :
  grid_shape w h g → grid_shape w h g' →
  (∀ x y, 0 ≤ x < w → 0 ≤ y < h → grid_get g x y = grid_get g' x y) →
  g = g'.
Proof.
  intros Hs Hs' Heq. apply list_eq. intros i.
  destruct (decide (Z.of_nat i < w)) as [Hi|Hi].
  2:{ destruct Hs as [Hl _], Hs' as [Hl' _].
      rewrite !lookup_ge_None_2 by lia. done. }
  destruct (lookup_lt_is_Some_2 g i) as [col Hcol]; [destruct Hs; lia|].
  destruct (lookup_lt_is_Some_2 g' i) as [col' Hcol']; [destruct Hs'; lia|].
  rewrite Hcol, Hcol'. f_equal.
  assert (Z.of_nat (length col) = h) as Hlen
    by (destruct Hs as [_ Hc]; eapply (Forall_lookup_1 _ _ _ _ Hc Hcol)).
  assert (Z.of_nat (length col') = h) as Hlen'
    by (destruct Hs' as [_ Hc]; eapply (Forall_lookup_1 _ _ _ _ Hc Hcol')).
  apply list_eq. intros j.
  destruct (decide (Z.of_nat j < h)) as [Hj|Hj].
  2:{ rewrite !lookup_ge_None_2 by lia. done. }
  destruct (lookup_lt_is_Some_2 col j) as [v Hv]; [lia|].
  assert (grid_get g (Z.of_nat i) (Z.of_nat j) = Done v) as Hget.
  { apply (grid_get_lookup w h); [done | lia | lia |].
    exists col. by rewrite !Nat2Z.id. }
  rewrite Heq in Hget by lia.
  apply (grid_get_lookup w h) in Hget as (c & Hc & Hv'); [| done | lia | lia].
  rewrite !Nat2Z.id in *. congruence.
Qed.

Lemma set_wall_grid m a b e :
  maze_ok m → is_cell m (a, b) → is_direction e →
  ∃ ws w0,
    grid_get (walls m) a b = Done w0
    ∧ set_wall m a b e = Done (set_walls m ws)
    ∧ grid_shape (width m) (height m) ws
    ∧ grid_get ws a b = Done (Z.lor w0 (Z.shiftl 1 e))
    ∧ (is_cell m (neighbor (a, b) e) →
       ∃ w1, grid_get (walls m) (neighbor (a, b) e).1 (neighbor (a, b) e).2 = Done w1
             ∧ grid_get ws (neighbor (a, b) e).1 (neighbor (a, b) e).2
               = Done (Z.lor w1 (Z.shiftl 1 (opposite e)))).
Proof.
  intros [Hw Hh Hs] Hab He. unfold set_wall.
  rewrite (proj2 (in_bounds_true m a b)) by done.
  destruct (Hab) as [Ha Hb]; simpl in Ha, Hb.
  destruct (grid_get_Done _ _ _ a b Hs Ha Hb) as (w0 & Hw0). rewrite Hw0.
  cbn [mbind outcome_bind].
  rewrite (get_direction_bit_Done e) by (unfold is_direction in He; lia).
  cbn [mbind outcome_bind].
  destruct (grid_set_Done _ _ _ a b (Z.lor w0 (Z.shiftl 1 e)) Hs Ha Hb)
    as (ws1 & -> & Hs1 & Hsame1 & Hother1).
  cbn [mbind outcome_bind].
  destruct (get_direction_offset_Done a b e He) as (dx & dy & -> & Hn).
  cbn [mbind outcome_bind].
  pose proof (neighbor_neq (a, b) e He) as Hne. rewrite Hn in *. simpl.
  pose proof (opposite_direction e He) as Hopp.
  destruct (in_bounds m (a + dx) (b + dy)) eqn:Hadj.
  - apply in_bounds_true in Hadj. destruct (Hadj) as [Hax Hay]; simpl in Hax, Hay.
    destruct (grid_get_Done _ _ _ (a + dx) (b + dy) Hs1 Hax Hay) as (w' & Hw').
    rewrite Hw'. cbn [mbind outcome_bind].
    rewrite get_direction_bit_Done
      by (unfold is_direction in Hopp; fold (opposite e); lia).
    cbn [mbind outcome_bind].
    destruct (grid_set_Done _ _ _ (a + dx) (b + dy)
                (Z.lor w' (Z.shiftl 1 ((e + 2) `mod` 4))) Hs1 Hax Hay)
      as (ws2 & -> & Hs2 & Hsame2 & Hother2).
    cbn [mbind outcome_bind].
    exists ws2, w0. split; [done|]. split; [done|]. split; [done|]. split.
    + rewrite Hother2 by (try done; congruence). done.
    + intros _. exists w'. split; [|done].
      rewrite <- Hw'. symmetry. apply Hother1; done.
  - apply in_bounds_false in Hadj.
    exists ws1, w0. split; [done|]. split; [done|]. split; [done|].
    split; [done|]. intros Hc. done.
Qed.

Lemma get_direction_bit_negative d :
  d < 0 → get_direction_bit d = Raise ValueError.
Proof. intros H. unfold get_direction_bit. by rewrite bool_decide_eq_true_2. Qed.

Lemma set_wall_negative m a b e :
  maze_ok m → is_cell m (a, b) → e < 0 → set_wall m a b e = Raise ValueError.
Proof.
  intros [Hw Hh Hs] Hab He. unfold set_wall.
  rewrite (proj2 (in_bounds_true m a b)) by done.
  destruct Hab as [Ha Hb]; simpl in Ha, Hb.
  destruct (grid_get_Done _ _ _ a b Hs Ha Hb) as (w0 & ->).
  cbn [mbind outcome_bind]. by rewrite (get_direction_bit_negative e).
Qed.

Lemma set_wall_large m a b e :
  maze_ok m → is_cell m (a, b) → 4 ≤ e → set_wall m a b e = Raise IndexError.
Proof.
  intros [Hw Hh Hs] Hab He. unfold set_wall.
  rewrite (proj2 (in_bounds_true m a b)) by done.
  destruct Hab as [Ha Hb]; simpl in Ha, Hb.
  destruct (grid_get_Done _ _ _ a b Hs Ha Hb) as (w0 & ->).
  cbn [mbind outcome_bind].
  rewrite (get_direction_bit_Done e) by lia. cbn [mbind outcome_bind].
  destruct (grid_set_Done _ _ _ a b (Z.lor w0 (Z.shiftl 1 e)) Hs Ha Hb)
    as (ws1 & -> & _).
  cbn [mbind outcome_bind].
  unfold get_direction_offset, py_get, py_norm. simpl length.
  rewrite bool_decide_eq_false_2 by lia.
  rewrite bool_decide_eq_false_2 by lia. done.
Qed.

(** X1 — What [set_wall] changes.  On a cell of the grid and a direction
    0..3, [set_wall] returns; afterwards [is_wall] is true on that side of
    the cell and on the opposite side of the neighbouring cell, and on
    every other side of every cell it is what it was.  No wall is ever
    removed. *)
Theorem set_wall_effect (m : mouse) (a b e : Z) :
  maze_ok m → is_cell m (a, b) → is_direction e →
  ∃ m',
    set_wall m a b e = Done m'
    ∧ m' = set_walls m (walls m')
    ∧ is_wall m' a b e = Done true
    ∧ (∀ x y d, is_cell m (x, y) → is_direction d →
         ∃ b0, is_wall m x y d = Done b0
               ∧ is_wall m' x y d = Done (b0 || touched a b e x y d))
    ∧ (∀ x y d, is_direction d →
         is_wall m x y d = Done true → is_wall m' x y d = Done true).
Proof.
  intros Hok Hab He.
  destruct (set_wall_inside m a b e Hok Hab He) as (ws & Hset & Hs & Hbits).
  exists (set_walls m ws). split; [done|]. split; [done|]. split; [|split].
  - destruct (Hbits a b e Hab He) as (b0 & _ & ->).
    unfold touched. rewrite bool_decide_eq_true_2 by done.
    by rewrite orb_true_r.
  - done.
  - intros x y d Hd Hwall.
    destruct (decide (is_cell m (x, y))) as [Hc|Hc].
    + destruct (Hbits x y d Hc Hd) as (b0 & Hb0 & ->).
      rewrite Hwall in Hb0. by injection Hb0 as <-.
    + by apply is_wall_outside.
Qed.

Lemma set_wall_effect_witness :
  ∃ m',
    set_wall maze_3x3 1 1 0 = Done m'
    ∧ m' = set_walls maze_3x3 (walls m')
    ∧ is_wall m' 1 1 0 = Done true
    ∧ (∀ x y d, is_cell maze_3x3 (x, y) → is_direction d →
         ∃ b0, is_wall maze_3x3 x y d = Done b0
               ∧ is_wall m' x y d = Done (b0 || touched 1 1 0 x y d))
    ∧ (∀ x y d, is_direction d →
         is_wall maze_3x3 x y d = Done true → is_wall m' x y d = Done true).
Proof.
  apply (set_wall_effect maze_3x3 1 1 0).
  - apply maze_3x3_ok.
  - split; simpl; lia.
  - unfold is_direction. lia.
Defined.

(** X2 — [set_wall] is idempotent: when a call returns, repeating it with
    the same arguments returns the maze of the first call unchanged. *)
Theorem set_wall_idempotent (m m' : mouse) (a b e : Z) :
  maze_ok m → set_wall m a b e = Done m' → set_wall m' a b e = Done m'.
Proof.
  intros Hok Hset.
  destruct (decide (is_cell m (a, b))) as [Hab|Hab].
  2:{ unfold set_wall in Hset.
      rewrite (proj2 (in_bounds_false m a b) Hab) in Hset.
      injection Hset as <-. unfold set_wall.
      by rewrite (proj2 (in_bounds_false m a b) Hab). }
  destruct (decide (is_direction e)) as [He|He].
  2:{ destruct (decide (e < 0)).
      - rewrite set_wall_negative in Hset by done. discriminate.
      - rewrite set_wall_large in Hset
          by (try done; unfold is_direction in He; lia).
        discriminate. }
  destruct (set_wall_grid m a b e Hok Hab He)
    as (ws & w0 & Hw0 & Hset' & Hs & Hab' & Hadj').
  rewrite Hset' in Hset. injection Hset as <-.
  unfold set_wall.
  change (in_bounds (set_walls m ws) a b) with (in_bounds m a b).
  rewrite (proj2 (in_bounds_true m a b) Hab).
  change (walls (set_walls m ws)) with ws.
  rewrite Hab'. cbn [mbind outcome_bind].
  rewrite (get_direction_bit_Done e) by (unfold is_direction in He; lia).
  cbn [mbind outcome_bind].
  rewrite <- Z.lor_assoc, Z.lor_diag.
  destruct (Hab) as [Ha Hb]; simpl in Ha, Hb.
  rewrite (grid_set_same _ _ ws a b _ Hs Ha Hb Hab').
  cbn [mbind outcome_bind].
  destruct (get_direction_offset_Done a b e He) as (dx & dy & -> & Hn).
  cbn [mbind outcome_bind]. rewrite Hn in Hadj'. simpl in Hadj'.
  change (in_bounds (set_walls m ws) (a + dx) (b + dy))
    with (in_bounds m (a + dx) (b + dy)).
  destruct (in_bounds m (a + dx) (b + dy)) eqn:Hin; [|done].
  apply in_bounds_true in Hin.
  destruct (Hadj' Hin) as (w1 & _ & Hw1). rewrite Hw1.
  cbn [mbind outcome_bind].
  pose proof (opposite_direction e He) as Hopp.
  rewrite get_direction_bit_Done
    by (unfold is_direction in Hopp; fold (opposite e); lia).
  cbn [mbind outcome_bind]. fold (opposite e).
  rewrite <- Z.lor_assoc, Z.lor_diag.
  destruct (Hin) as [Hx Hy]; simpl in Hx, Hy.
  rewrite (grid_set_same _ _ ws _ _ _ Hs Hx Hy Hw1). done.
Qed.

Lemma set_wall_idempotent_witness :
  ∃ m', set_wall maze_3x3 0 0 1 = Done m' ∧ set_wall m' 0 0 1 = Done m'.
Proof.
  eexists. split; [vm_compute; reflexivity|].
  apply (set_wall_idempotent maze_3x3 _ 0 0 1);
    [apply maze_3x3_ok | vm_compute; reflexivity].
Defined.



(** X4 — [turn_to_direction] with a target outside 0..3 never ends: the
    heading stays within 0..3 and never equals the target, so the loop
    exhausts any amount of fuel. *)
Theorem turn_to_direction_diverges (fuel : nat) (target : Z) (w : world) :
  is_direction (direction (self w)) → ¬ is_direction target →
  turn_to_direction fuel target w = Timeout.
Proof.
  revert w. induction fuel as [|fuel IH]; intros w Hh Ht.
  - cbn [turn_to_direction].
    rewrite bool_decide_eq_true_2; [done|]. intros Heq. by rewrite Heq in Hh.
  - cbn [turn_to_direction].
    rewrite bool_decide_eq_true_2 by (intros Heq; by rewrite Heq in Hh).
    apply IH; [|done].
    repeat case_bool_decide; cbn [self direction set_direction];
      first [done | apply Z.mod_pos_bound; lia].
Qed.

Lemma turn_to_direction_diverges_witness :
  turn_to_direction 1000 4 (World maze_3x3 0 []) = Timeout.
Proof.
  apply (turn_to_direction_diverges 1000 4 (World maze_3x3 0 []));
    unfold is_direction; simpl; lia.
Defined.

(** * Further properties of move selection *)

Ltac fval_solve :=
  repeat match goal with
  | v : fval |- _ => destruct v
  end;
  simpl in *; repeat case_bool_decide; simplify_eq; try done; try lia.

Lemma select_least (score : Z → option fval)
    (step : Z → option Z * fval → outcome (option Z * fval)) :
  (∀ d best, is_direction d →
     step d best
     = Done (match score d with
             | Some v => if fval_lt v best.2 then (Some d, v) else best
             | None => best
             end)) →
  ∃ best, for_each (range 4) step (None, Inf) = Done best
          ∧ least_first score best.1.
Proof.
  intros Hstep.
  destruct (for_each_range_ind
    (λ k best,
       match best.1 with
       | None =>
         best.2 = Inf
         ∧ ∀ d' v', 0 ≤ d' < k → score d' = Some v' → v' = Inf
       | Some d =>
         0 ≤ d < k
         ∧ ∃ v, best.2 = Fin v ∧ score d = Some (Fin v)
                ∧ ∀ d' v', 0 ≤ d' < k → score d' = Some v' →
                    fval_lt v' (Fin v) = false
                    ∧ (d' < d → fval_lt (Fin v) v' = true)
       end)
    step 4 (None, Inf)) as (best & Hrun & Hbest).
  - lia.
  - simpl. split; [done|]. intros; lia.
  - intros k [bd bv] Hk Hinv. rewrite Hstep by done. simpl in *.
    eexists. split; [done|].
    destruct (score k) as [v|] eqn:Hsk.
    2:{ destruct bd as [d|].
        - destruct Hinv as (Hd & v & -> & Hsd & Hmin).
          split; [lia|]. exists v. split; [done|]. split; [done|].
          intros d' v' Hd' Hs'. apply Hmin; [|done].
          destruct (decide (d' = k)) as [->|]; [congruence | lia].
        - destruct Hinv as (-> & Hmin). split; [done|].
          intros d' v' Hd' Hs'.
          destruct (decide (d' = k)) as [->|]; [congruence|].
          apply (Hmin d'); [lia | done]. }
    destruct (fval_lt v bv) eqn:Hlt; simpl.
    + split; [lia|]. destruct v as [n|]; [|done].
      exists n. split; [done|]. split; [done|].
      intros d' v' Hd' Hs'.
      destruct (decide (d' = k)) as [->|Hne].
      { rewrite Hsk in Hs'. injection Hs' as <-. split; [|lia].
        simpl. apply bool_decide_eq_false_2. lia. }
      destruct bd as [d|].
      * destruct Hinv as (Hd & b & -> & Hsd & Hmin).
        destruct (Hmin d' v') as [Hge _]; [lia | done |].
        split; [|intros _]; fval_solve.
      * destruct Hinv as (-> & Hmin).
        rewrite (Hmin d' v') by (try done; lia). done.
    + destruct bd as [d|].
      * destruct Hinv as (Hd & b & -> & Hsd & Hmin).
        split; [lia|]. exists b. split; [done|]. split; [done|].
        intros d' v' Hd' Hs'.
        destruct (decide (d' = k)) as [->|Hne].
        { rewrite Hsk in Hs'. injection Hs' as <-. split; [done | lia]. }
        apply Hmin; [lia | done].
      * destruct Hinv as (-> & Hmin). split; [done|].
        intros d' v' Hd' Hs'.
        destruct (decide (d' = k)) as [->|Hne].
        { rewrite Hsk in Hs'. injection Hs' as <-. by destruct v. }
        apply (Hmin d'); [lia | done].
  - exists best. split; [done|]. unfold least_first.
    destruct best as [[d|] bv]; simpl in *.
    + destruct Hbest as (Hd & v & _ & Hsd & Hmin).
      split; [done|]. exists v. split; [done|]. done.
    + by destruct Hbest.
Qed.

Lemma best_step_eq m d best :
  mouse_ok m → is_direction d →
  best_step m d best
  = Done (match candidate m d with
          | Some v => if fval_lt v best.2 then (Some d, v) else best
          | None => best
          end).
Proof.
  intros Hok Hd. destruct best as [bd bv]. unfold best_step, candidate.
  destruct (is_wall_Done m (self_x m) (self_y m) d (mo_maze _ Hok) Hd) as (b & ->).
  cbn [mbind outcome_bind]. destruct b; [done|].
  destruct (get_direction_offset_Done (self_x m) (self_y m) d Hd)
    as (dx & dy & -> & ->).
  cbn [mbind outcome_bind fst snd].
  destruct (in_bounds m _ _) eqn:Hin; [|done].
  apply in_bounds_true in Hin. destruct Hin as [Hx Hy]; simpl in Hx, Hy.
  destruct (grid_get_Done _ _ _ _ _ (mo_flood _ Hok) Hx Hy) as (v & ->).
  cbn [mbind outcome_bind fst snd]. by destruct (fval_lt _ bv).
Qed.

Lemma explore_step_eq m d best :
  mouse_ok m → is_direction d →
  explore_step m d best
  = Done (match explore_score m d with
          | Some v => if fval_lt v best.2 then (Some d, v) else best
          | None => best
          end).
Proof.
  intros Hok Hd. destruct best as [bd bv].
  unfold explore_step, explore_score, candidate.
  destruct (is_wall_Done m (self_x m) (self_y m) d (mo_maze _ Hok) Hd) as (b & ->).
  cbn [mbind outcome_bind]. destruct b; [done|].
  destruct (get_direction_offset_Done (self_x m) (self_y m) d Hd)
    as (dx & dy & -> & ->).
  cbn [mbind outcome_bind fst snd].
  destruct (in_bounds m _ _) eqn:Hin; [|done].
  apply in_bounds_true in Hin. destruct Hin as [Hx Hy]; simpl in Hx, Hy.
  destruct (grid_get_Done _ _ _ _ _ (mo_flood _ Hok) Hx Hy) as (v & ->).
  cbn [mbind outcome_bind fst snd]. by destruct (fval_lt _ bv).
Qed.

Lemma get_best_direction_select m :
  mouse_ok m →
  ∃ o, get_best_direction m = Done o ∧ least_first (candidate m) o.
Proof.
  intros Hok. unfold get_best_direction.
  destruct (mo_pos _ Hok) as [Hx Hy]; simpl in Hx, Hy.
  destruct (grid_get_Done _ _ _ _ _ (mo_flood _ Hok) Hx Hy) as (v & ->).
  cbn [mbind outcome_bind].
  destruct (select_least (candidate m) (best_step m)) as (best & -> & Hbest).
  { intros d best Hd. by apply best_step_eq. }
  by exists best.1.
Qed.

Lemma explore_direction_select m :
  mouse_ok m →
  ∃ o, explore_direction m = Done o ∧ least_first (explore_score m) o.
Proof.
  intros Hok. unfold explore_direction.
  destruct (select_least (explore_score m) (explore_step m)) as (best & -> & Hbest).
  { intros d best Hd. by apply explore_step_eq. }
  by exists best.1.
Qed.

(** X5 — [get_best_direction] returns the first direction, in the order
    North, East, South, West, whose open neighbouring cell has the least
    flood value, that value being finite; it returns [None] exactly when
    every open neighbouring cell is at infinity (or there is none). *)
Theorem get_best_direction_least (m : mouse) :
  mouse_ok m →
  ∃ o, get_best_direction m = Done o
       ∧ match o with
         | Some d =>
           is_direction d
           ∧ ∃ v, candidate m d = Some (Fin v)
                  ∧ ∀ d' v', is_direction d' → candidate m d' = Some v' →
                      fval_lt v' (Fin v) = false
                      ∧ (d' < d → fval_lt (Fin v) v' = true)
         | None =>
           ∀ d' v', is_direction d' → candidate m d' = Some v' → v' = Inf
         end.
Proof. intros Hok. by apply get_best_direction_select. Qed.

Lemma get_best_direction_least_witness :
  ∃ o, get_best_direction maze_3x3 = Done o
       ∧ match o with
         | Some d =>
           is_direction d
           ∧ ∃ v, candidate maze_3x3 d = Some (Fin v)
                  ∧ ∀ d' v', is_direction d' → candidate maze_3x3 d' = Some v' →
                      fval_lt v' (Fin v) = false
                      ∧ (d' < d → fval_lt (Fin v) v' = true)
         | None =>
           ∀ d' v', is_direction d' → candidate maze_3x3 d' = Some v' → v' = Inf
         end.
Proof.
  apply (get_best_direction_least maze_3x3).
  destruct maze_3x3_ok as (Hok & _ & Hfv & Hgs).
  constructor; [done | done | done | simpl; lia | split; simpl; lia
               | unfold is_direction; simpl; lia].
Defined.

(** X6 — The exploration branch of [run] selects the first direction with
    the least score, the score of an open neighbouring cell being its
    flood value, less 100 when the cell has not been visited; a neighbour
    at infinity is never selected. *)
Theorem explore_direction_least (m : mouse) :
  mouse_ok m →
  ∃ o, explore_direction m = Done o
       ∧ match o with
         | Some d =>
           is_direction d
           ∧ ∃ v, explore_score m d = Some (Fin v)
                  ∧ ∀ d' v', is_direction d' → explore_score m d' = Some v' →
                      fval_lt v' (Fin v) = false
                      ∧ (d' < d → fval_lt (Fin v) v' = true)
         | None =>
           ∀ d' v', is_direction d' → candidate m d' = Some v' → v' = Inf
         end.
Proof.
  intros Hok.
  destruct (explore_direction_select m Hok) as (o & Ho & Hleast).
  exists o. split; [done|]. destruct o as [d|]; [done|].
  intros d' v' Hd' Hc. simpl in Hleast.
  assert (explore_score m d'
          = Some (if bool_decide (neighbor (self_x m, self_y m) d' ∉ visited m)
                  then fval_add v' (-100) else v')) as Hs
    by (unfold explore_score; by rewrite Hc).
  apply (Hleast d' _ Hd') in Hs.
  destruct v'; [|done]. by case_bool_decide.
Qed.

Lemma explore_direction_least_witness :
  ∃ o, explore_direction maze_3x3 = Done o
       ∧ match o with
         | Some d =>
           is_direction d
           ∧ ∃ v, explore_score maze_3x3 d = Some (Fin v)
                  ∧ ∀ d' v', is_direction d' →
                      explore_score maze_3x3 d' = Some v' →
                      fval_lt v' (Fin v) = false
                      ∧ (d' < d → fval_lt (Fin v) v' = true)
         | None =>
           ∀ d' v', is_direction d' → candidate maze_3x3 d' = Some v' → v' = Inf
         end.
Proof.
  apply (explore_direction_least maze_3x3).
  destruct maze_3x3_ok as (Hok & _ & Hfv & Hgs).
  constructor; [done | done | done | simpl; lia | split; simpl; lia
               | unfold is_direction; simpl; lia].
Defined.

(** X7 — Unvisited cells first.  When every finite flood value around the
    robot is between 0 and 99, and some open neighbouring cell is
    unvisited and at a finite distance, the exploration branch selects an
    unvisited cell. *)
Theorem explore_prefers_unvisited (m : mouse) (d0 v0 : Z) :
  mouse_ok m →
  (∀ d v, is_direction d → candidate m d = Some (Fin v) → 0 ≤ v < 100) →
  is_direction d0 → candidate m d0 = Some (Fin v0) →
  neighbor (self_x m, self_y m) d0 ∉ visited m →
  ∃ d, explore_direction m = Done (Some d)
       ∧ is_direction d
       ∧ neighbor (self_x m, self_y m) d ∉ visited m.
Proof.
  intros Hok Hrange Hd0 Hc0 Hnew.
  destruct (explore_direction_select m Hok) as (o & Ho & Hleast).
  assert (explore_score m d0 = Some (Fin (v0 + -100))) as Hs0.
  { unfold explore_score. rewrite Hc0. by rewrite bool_decide_eq_true_2. }
  pose proof (Hrange d0 v0 Hd0 Hc0) as Hv0.
  destruct o as [d|]; simpl in Hleast.
  - destruct Hleast as (Hd & v & Hsd & Hmin).
    exists d. split; [done|]. split; [done|].
    destruct (Hmin d0 _ Hd0 Hs0) as [Hge _].
    unfold explore_score in Hsd.
    destruct (candidate m d) as [c|] eqn:Hc; [|done].
    case_bool_decide as Hvis; [done|].
    injection Hsd as ->.
    pose proof (Hrange d v Hd Hc). simpl in Hge.
    apply bool_decide_eq_false in Hge. lia.
  - specialize (Hleast d0 _ Hd0 Hs0). done.
Qed.

Lemma explore_prefers_unvisited_witness :
  ∃ d, explore_direction
         (set_flood_values maze_3x3
            [[Fin 2; Fin 1; Fin 2]; [Fin 1; Fin 0; Fin 1]; [Fin 2; Fin 1; Fin 2]])
       = Done (Some d)
       ∧ is_direction d
       ∧ neighbor (0, 0) d ∉ ({[ (0, 0) ]} : gset cell).
Proof.
  apply (explore_prefers_unvisited
           (set_flood_values maze_3x3
              [[Fin 2; Fin 1; Fin 2]; [Fin 1; Fin 0; Fin 1]; [Fin 2; Fin 1; Fin 2]])
           0 1).
  - apply mouse_ok_set_flood_values.
    + destruct maze_3x3_ok as (Hok & _ & Hfv & Hgs).
      constructor; [done | done | done | simpl; lia | split; simpl; lia
                   | unfold is_direction; simpl; lia].
    + split; [reflexivity | repeat constructor].
  - intros d v Hd.
    dir_cases d; intros H; vm_compute in H;
      first [discriminate H | injection H as <-; lia].
  - unfold is_direction. lia.
  - reflexivity.
  - vm_compute. set_solver.
Defined.

Lemma candidate_hop m d v :
  mouse_ok m → is_direction d →
  candidate m d = Some v ↔
  hop m (self_x m, self_y m) d (neighbor (self_x m, self_y m) d)
  ∧ flood_at (flood_values m) (neighbor (self_x m, self_y m) d) = Done v.
Proof.
  intros Hok Hd. unfold candidate, hop, flood_at.
  destruct (neighbor (self_x m, self_y m) d) as [cx cy] eqn:Hn.
  cbn [fst snd].
  destruct (is_wall_Done m (self_x m) (self_y m) d (mo_maze _ Hok) Hd) as (b & ->).
  destruct b.
  { split; [done|]. by intros [(_ & ? & _) _]. }
  destruct (in_bounds m cx cy) eqn:Hin.
  - apply in_bounds_true in Hin. destruct (Hin) as [Hx Hy]; simpl in Hx, Hy.
    destruct (grid_get_Done _ _ _ _ _ (mo_flood _ Hok) Hx Hy) as (v' & ->).
    split.
    + intros [= ->]. done.
    + by intros [_ [= ->]].
  - apply in_bounds_false in Hin. split; [done|].
    by intros [(_ & _ & _ & Hc) _].
Qed.

(** X8 — Descent.  In a maze with symmetric walls, after [floodfill]: when
    the robot's cell is at a finite distance [k > 0], [get_best_direction]
    selects an open side whose neighbouring cell is at distance [k - 1];
    when the robot's cell is at infinity it selects nothing. *)
Theorem get_best_direction_descends (m : mouse) (fuel : nat) :
  mouse_ok m →
  walls_symmetric m →
  (cycle_fuel (width m) (height m) ≤ fuel)%nat →
  ∃ g cmds,
    floodfill fuel m = Done (set_flood_values m g, cmds)
    ∧ (∀ k, flood_at g (self_x m, self_y m) = Done (Fin k) → 0 < k →
         ∃ d, get_best_direction (set_flood_values m g) = Done (Some d)
              ∧ hop m (self_x m, self_y m) d (neighbor (self_x m, self_y m) d)
              ∧ flood_at g (neighbor (self_x m, self_y m) d) = Done (Fin (k - 1)))
    ∧ (flood_at g (self_x m, self_y m) = Done Inf →
         get_best_direction (set_flood_values m g) = Done None).
Proof.
  intros Hok Hsym Hfuel.
  destruct (floodfill_spec m fuel (mo_maze _ Hok) (mo_flood _ Hok) (mo_goals _ Hok))
    as (g & cmds & Hrun & Hinv & _).
  { pose proof (mo_goals_len _ Hok). unfold cycle_fuel in Hfuel. lia. }
  exists g, cmds. split; [done|].
  pose proof (mouse_ok_set_flood_values m g Hok (fi_shape _ _ _ Hinv)) as Hok'.
  set (c := (self_x m, self_y m)).
  assert (is_cell m c) as Hc by apply Hok.
  assert (∀ u d u' j, hop m u d u' → flood_at g u = Done (Fin j) → is_cell m u →
            ∃ j', flood_at g u' = Done (Fin j') ∧ j' ≤ j + 1) as Hdown.
  { intros u d u' j Hhop Hj Hu.
    destruct (fi_closed m g [] Hinv u j Hu Hj) as [Hin | Hcl];
      [by apply elem_of_nil in Hin | by eapply Hcl]. }
  assert (∀ d v, is_direction d →
            candidate (set_flood_values m g) d = Some v ↔
            hop m c d (neighbor c d) ∧ flood_at g (neighbor c d) = Done v) as Hcand.
  { intros d v Hd. by apply (candidate_hop (set_flood_values m g) d v Hok' Hd). }
  destruct (get_best_direction_select _ Hok') as (o & Ho & Hleast).
  split.
  - intros k Hk Hpos.
    destruct (fi_sound m g [] Hinv c k Hc Hk) as [_ Hfl].
    destruct (Z.to_nat k) as [|n] eqn:Hn; [lia|].
    inversion Hfl as [| u d0 c0 n0 Hflu Hhop]; subst.
    destruct (flood_inv_complete m g (mo_goals _ Hok) Hinv u n Hflu)
      as (j & Hj & Hjn).
    assert (is_cell m u) as Hu by (by eapply flooded_is_cell; [apply Hok|]).
    destruct (Hdown u d0 c j Hhop Hj Hu) as (k' & Hk' & Hle).
    rewrite Hk in Hk'. injection Hk' as <-.
    assert (j = k - 1) as -> by lia.
    pose proof (hop_reverse m u d0 c Hsym Hhop) as Hback.
    assert (neighbor c (opposite d0) = u) as Hnu by (by destruct Hback as (_ & _ & ? & _)).
    assert (candidate (set_flood_values m g) (opposite d0) = Some (Fin (k - 1)))
      as Hc0.
    { apply Hcand; [by destruct Hback|]. by rewrite Hnu. }
    destruct o as [d|]; simpl in Hleast.
    2:{ by specialize (Hleast _ _ (proj1 Hback) Hc0). }
    destruct Hleast as (Hd & v & Hv & Hmin).
    apply Hcand in Hv as [Hhopd Hvd]; [|done].
    exists d. split; [done|]. split; [done|].
    destruct (Hmin _ _ (proj1 Hback) Hc0) as [Hge _].
    simpl in Hge. apply bool_decide_eq_false in Hge.
    pose proof (hop_reverse m c d _ Hsym Hhopd) as Hbackd.
    destruct (Hdown _ _ _ v Hbackd Hvd) as (k' & Hk' & Hle');
      [by destruct Hhopd as (_ & _ & _ & ?)|].
    rewrite Hk in Hk'. injection Hk' as <-.
    rewrite Hvd. do 2 f_equal. lia.
  - intros Hinf. destruct o as [d|]; [|done]. simpl in Hleast.
    destruct Hleast as (Hd & v & Hv & _).
    apply Hcand in Hv as [Hhopd Hvd]; [|done].
    pose proof (hop_reverse m c d _ Hsym Hhopd) as Hbackd.
    destruct (Hdown _ _ _ v Hbackd Hvd) as (k' & Hk' & _);
      [by destruct Hhopd as (_ & _ & _ & ?)|].
    rewrite Hinf in Hk'. discriminate.
Qed.

Lemma maze_3x3_mouse_ok : mouse_ok maze_3x3.
Proof.
  destruct maze_3x3_ok as (Hok & _ & Hfv & Hgs).
  constructor; [done | done | done | simpl; lia | split; simpl; lia
               | unfold is_direction; simpl; lia].
Qed.

Lemma get_best_direction_descends_witness :
  ∃ g cmds,
    floodfill 13 maze_3x3 = Done (set_flood_values maze_3x3 g, cmds)
    ∧ (∀ k, flood_at g (0, 0) = Done (Fin k) → 0 < k →
         ∃ d, get_best_direction (set_flood_values maze_3x3 g) = Done (Some d)
              ∧ hop maze_3x3 (0, 0) d (neighbor (0, 0) d)
              ∧ flood_at g (neighbor (0, 0) d) = Done (Fin (k - 1)))
    ∧ (flood_at g (0, 0) = Done Inf →
         get_best_direction (set_flood_values maze_3x3 g) = Done None).
Proof.
  apply (get_best_direction_descends maze_3x3 13).
  - apply maze_3x3_mouse_ok.
  - apply maze_3x3_ok.
  - vm_compute. lia.
Defined.

(** * Further properties of the flood fill *)

Lemma flood_loop_ignores_flood_values m fv' fuel :
  ∀ g queue,
    flood_loop fuel (set_flood_values m fv') g queue = flood_loop fuel m g queue.
Proof.
  induction fuel as [|fuel IH]; intros g [|[x y] rest]; cbn [flood_loop]; try done.
  destruct (grid_get g x y) as [cv| |]; cbn [mbind outcome_bind]; try done.
  change (flood_step (set_flood_values m fv') x y cv) with (flood_step m x y cv).
  destruct (for_each (range 4) (flood_step m x y cv) (g, rest)) as [[g' q']| |];
    cbn [mbind outcome_bind]; try done.
Qed.

Lemma floodfill_ignores_flood_values m fv' fuel :
  0 ≤ width m → 0 ≤ height m →
  grid_shape (width m) (height m) (flood_values m) →
  grid_shape (width m) (height m) fv' →
  floodfill fuel (set_flood_values m fv') = floodfill fuel m.
Proof.
  intros Hw Hh Hfv Hfv'. unfold floodfill.
  destruct (fill_inf_Done m Hw Hh Hfv) as (g0 & -> & Hg0).
  destruct (fill_inf_Done (set_flood_values m fv') Hw Hh Hfv') as (g0' & -> & Hg0').
  assert (g0' = g0) as ->.
  { destruct Hg0 as [Hs0 Hat0], Hg0' as [Hs0' Hat0']. simpl in *.
    apply (grid_ext (width m) (height m)); [done | done |].
    intros x y Hx Hy. by rewrite Hat0, Hat0'. }
  cbn [mbind outcome_bind].
  change (goals (set_flood_values m fv')) with (goals m).
  destruct (seed_goals (goals m) g0 []) as [[g1 q]| |];
    cbn [mbind outcome_bind]; try done.
  rewrite flood_loop_ignores_flood_values.
  destruct (flood_loop fuel m g1 q) as [g2| |]; cbn [mbind outcome_bind]; done.
Qed.

(** X9 — The flood fill is a total recomputation: its outcome (flood
    values, commands, exception or not) does not depend on the flood
    values stored before the call. *)
Theorem floodfill_recomputes (m : mouse) (fv' : list (list fval)) (fuel : nat) :
  0 ≤ width m → 0 ≤ height m →
  grid_shape (width m) (height m) (flood_values m) →
  grid_shape (width m) (height m) fv' →
  floodfill fuel (set_flood_values m fv') = floodfill fuel m.
Proof. apply floodfill_ignores_flood_values. Qed.

Lemma floodfill_recomputes_witness :
  floodfill 13 (set_flood_values maze_3x3
                  [[Inf; Fin 7; Inf]; [Fin 1; Fin 1; Fin 1]; [Inf; Fin 0; Fin 3]])
  = floodfill 13 maze_3x3.
Proof.
  apply (floodfill_recomputes maze_3x3
           [[Inf; Fin 7; Inf]; [Fin 1; Fin 1; Fin 1]; [Inf; Fin 0; Fin 3]] 13).
  - simpl. lia.
  - simpl. lia.
  - apply maze_3x3_ok.
  - split; [reflexivity | repeat constructor].
Defined.

(** X10 — The flood fill is idempotent: run again on its own result, it
    returns the same flood values and issues the same commands. *)
Theorem floodfill_idempotent (m : mouse) (fuel : nat) :
  mouse_ok m →
  (cycle_fuel (width m) (height m) ≤ fuel)%nat →
  ∃ m1 cmds,
    floodfill fuel m = Done (m1, cmds)
    ∧ floodfill fuel m1 = Done (m1, cmds).
Proof.
  intros Hok Hfuel.
  destruct (floodfill_spec m fuel (mo_maze _ Hok) (mo_flood _ Hok) (mo_goals _ Hok))
    as (g & cmds & Hrun & Hinv & _).
  { pose proof (mo_goals_len _ Hok). unfold cycle_fuel in Hfuel. lia. }
  exists (set_flood_values m g), cmds. split; [done|].
  pose proof (maze_width_pos _ (mo_maze _ Hok)).
  pose proof (maze_height_pos _ (mo_maze _ Hok)).
  rewrite floodfill_ignores_flood_values;
    [done | lia | lia | apply Hok | apply (fi_shape _ _ _ Hinv)].
Qed.

Lemma floodfill_idempotent_witness :
  ∃ m1 cmds,
    floodfill 13 maze_3x3 = Done (m1, cmds)
    ∧ floodfill 13 m1 = Done (m1, cmds).
Proof.
  apply (floodfill_idempotent maze_3x3 13);
    [apply maze_3x3_mouse_ok | vm_compute; lia].
Defined.

Lemma flooded_goal_members m gs' c k :
  (∀ c, c ∈ gs' ↔ c ∈ goals m) →
  flooded m c k ↔ flooded (set_goals m gs') c k.
Proof.
  intros Hmem. split.
  - induction 1 as [c Hc | u d c n Hfl IH Hhop].
    + apply flooded_goal. simpl. by apply Hmem.
    + by eapply flooded_hop; [exact IH|].
  - induction 1 as [c Hc | u d c n Hfl IH Hhop].
    + apply flooded_goal. by apply Hmem.
    + by eapply flooded_hop; [exact IH|].
Qed.

Lemma floodfill_display fuel m m' cmds :
  floodfill fuel m = Done (m', cmds) → display_flood_values m' = Done cmds.
Proof.
  unfold floodfill. intros H.
  apply bind_Done_inv in H as (g0 & _ & H).
  apply bind_Done_inv in H as ([g1 q] & _ & H).
  apply bind_Done_inv in H as (g2 & _ & H).
  apply bind_Done_inv in H as (cmds' & Hd & H).
  by injection H as <- <-.
Qed.

(** X11 — The flood values depend on the goals as a set only: two goal
    lists with the same members (in any order, with any repetitions) give
    the same flood values and the same displayed text. *)
Theorem floodfill_goal_order (m : mouse) (gs' : list cell) (fuel : nat) :
  mouse_ok m →
  (∀ c, c ∈ gs' ↔ c ∈ goals m) →
  (length (goals m) + Z.to_nat (width m * height m) ≤ fuel)%nat →
  (length gs' + Z.to_nat (width m * height m) ≤ fuel)%nat →
  ∃ g cmds,
    floodfill fuel m = Done (set_flood_values m g, cmds)
    ∧ floodfill fuel (set_goals m gs')
      = Done (set_flood_values (set_goals m gs') g, cmds).
Proof.
  intros Hok Hmem Hfuel Hfuel'.
  assert (Forall (is_cell m) gs') as Hgs'.
  { apply Forall_forall. intros c Hc. apply Hmem in Hc.
    pose proof (mo_goals _ Hok) as Hgs. rewrite Forall_forall in Hgs. auto. }
  assert (maze_ok (set_goals m gs')) as Hok2.
  { destruct (mo_maze _ Hok) as [? ? ?]. by constructor. }
  destruct (floodfill_spec m fuel (mo_maze _ Hok) (mo_flood _ Hok) (mo_goals _ Hok)
              Hfuel) as (g & cmds & Hrun & Hinv & _).
  destruct (floodfill_spec (set_goals m gs') fuel Hok2 (mo_flood _ Hok) Hgs' Hfuel')
    as (g2 & cmds2 & Hrun2 & Hinv2 & _).
  assert (g2 = g) as ->.
  { apply (grid_ext (width m) (height m));
      [apply (fi_shape _ _ _ Hinv2) | apply (fi_shape _ _ _ Hinv) |].
    intros x y Hx Hy.
    destruct (grid_get_Done _ _ g x y (fi_shape _ _ _ Hinv) Hx Hy) as (v & Hv).
    destruct (grid_get_Done _ _ g2 x y (fi_shape _ _ _ Hinv2) Hx Hy) as (v2 & Hv2).
    rewrite Hv, Hv2. f_equal.
    assert (is_cell m (x, y)) as Hc by done.
    destruct v as [k|], v2 as [k2|]; try done.
    - destruct (fi_sound _ _ _ Hinv (x, y) k Hc Hv) as [Hk Hfl].
      destruct (fi_sound _ _ _ Hinv2 (x, y) k2 Hc Hv2) as [Hk2 Hfl2].
      apply (flooded_goal_members m gs' _ _ Hmem) in Hfl.
      apply (flooded_goal_members m gs' _ _ Hmem) in Hfl2.
      destruct (flood_inv_complete (set_goals m gs') g2 Hgs' Hinv2 _ _ Hfl) as (j & Hj & Hle).
      destruct (flood_inv_complete _ _ (mo_goals _ Hok) Hinv _ _ Hfl2)
        as (j2 & Hj2 & Hle2).
      unfold flood_at in Hj, Hj2. simpl in Hj, Hj2.
      assert (j = k2) by congruence. assert (j2 = k) by congruence.
      f_equal. lia.
    - destruct (fi_sound _ _ _ Hinv (x, y) k Hc Hv) as [Hk Hfl].
      apply (flooded_goal_members m gs' _ _ Hmem) in Hfl.
      destruct (flood_inv_complete (set_goals m gs') g2 Hgs' Hinv2 _ _ Hfl) as (j & Hj & _).
      unfold flood_at in Hj. simpl in Hj. congruence.
    - destruct (fi_sound _ _ _ Hinv2 (x, y) k2 Hc Hv2) as [Hk2 Hfl2].
      apply (flooded_goal_members m gs' _ _ Hmem) in Hfl2.
      destruct (flood_inv_complete _ _ (mo_goals _ Hok) Hinv _ _ Hfl2)
        as (j2 & Hj2 & _).
      unfold flood_at in Hj2. simpl in Hj2. congruence. }
  exists g, cmds. split; [done|]. rewrite Hrun2. do 2 f_equal.
  apply floodfill_display in Hrun. apply floodfill_display in Hrun2.
  change (display_flood_values (set_flood_values (set_goals m gs') g))
    with (display_flood_values (set_flood_values m g)) in Hrun2.
  congruence.
Qed.

Lemma floodfill_goal_order_witness :
  ∃ g cmds,
    floodfill 16 (set_goals maze_3x3 [(1, 1); (0, 2)])
    = Done (set_flood_values (set_goals maze_3x3 [(1, 1); (0, 2)]) g, cmds)
    ∧ floodfill 16 (set_goals (set_goals maze_3x3 [(1, 1); (0, 2)])
                      [(0, 2); (1, 1); (0, 2)])
      = Done (set_flood_values
                (set_goals (set_goals maze_3x3 [(1, 1); (0, 2)])
                           [(0, 2); (1, 1); (0, 2)]) g, cmds).
Proof.
  apply (floodfill_goal_order (set_goals maze_3x3 [(1, 1); (0, 2)])
           [(0, 2); (1, 1); (0, 2)] 16).
  - apply (mouse_ok_set_goals maze_3x3 explore);
      [apply maze_3x3_mouse_ok | repeat constructor; simpl; lia | simpl; lia].
  - intros c. simpl. set_solver.
  - simpl. lia.
  - simpl. lia.
Defined.

Lemma py_get_outside {A} (l : list A) i :
  ¬ (- Z.of_nat (length l) ≤ i < Z.of_nat (length l)) →
  py_get l i = Raise IndexError.
Proof.
  intros H. unfold py_get, py_norm.
  rewrite bool_decide_eq_false_2 by lia.
  rewrite bool_decide_eq_false_2 by lia. done.
Qed.

Lemma py_set_outside {A} (l : list A) i v :
  ¬ (- Z.of_nat (length l) ≤ i < Z.of_nat (length l)) →
  py_set l i v = Raise IndexError.
Proof.
  intros H. unfold py_set, py_norm.
  rewrite bool_decide_eq_false_2 by lia.
  rewrite bool_decide_eq_false_2 by lia. done.
Qed.

Lemma py_norm_cases {A} (l : list A) i :
  py_norm l i = Raise IndexError
  ∨ ∃ k, py_norm l i = Done k ∧ (k < length l)%nat.
Proof.
  unfold py_norm. repeat case_bool_decide; [right | right | by left];
    eexists; (split; [done|]); lia.
Qed.

Lemma grid_set_cases {A} w h (g : list (list A)) x y v :
  grid_shape w h g →
  grid_set g x y v = Raise IndexError
  ∨ ∃ g', grid_set g x y v = Done g' ∧ grid_shape w h g'.
Proof.
  intros [Hl Hc]. unfold grid_set, py_get, py_set.
  destruct (py_norm_cases g x) as [-> | (k & -> & Hk)]; [by left|].
  cbn [mbind outcome_bind].
  destruct (lookup_lt_is_Some_2 g k Hk) as [col Hcol]. rewrite Hcol.
  cbn [mbind outcome_bind].
  destruct (py_norm_cases col y) as [-> | (k' & -> & Hk')]; [by left|].
  cbn [mbind outcome_bind]. right. eexists. split; [done|].
  split; [by rewrite length_insert|].
  apply Forall_insert; [done|]. rewrite length_insert.
  eapply (Forall_lookup_1 _ _ _ _ Hc Hcol).
Qed.

Lemma grid_set_outside {A} w h (g : list (list A)) x y v :
  0 ≤ h → grid_shape w h g → outside_indexing w h (x, y) →
  grid_set g x y v = Raise IndexError.
Proof.
  intros Hh [Hl Hc] Hout. unfold grid_set.
  destruct (decide (- w ≤ x < w)) as [Hx|Hx].
  2:{ rewrite py_get_outside by lia. done. }
  destruct Hout as [Hout|Hout]; [done|]. simpl in Hout.
  unfold py_get.
  destruct (py_norm_cases g x) as [-> | (k & -> & Hk)]; [done|].
  cbn [mbind outcome_bind].
  destruct (lookup_lt_is_Some_2 g k Hk) as [col Hcol]. rewrite Hcol.
  cbn [mbind outcome_bind].
  rewrite py_set_outside; [done|].
  rewrite (Forall_lookup_1 _ _ _ _ Hc Hcol). done.
Qed.

Lemma seed_goals_outside w h gs :
  0 ≤ h → Exists (outside_indexing w h) gs →
  ∀ g queue, grid_shape w h g → seed_goals gs g queue = Raise IndexError.
Proof.
  intros Hh. induction gs as [|[gx gy] gs IH]; intros Hex g queue Hs.
  - by apply Exists_nil in Hex.
  - cbn [seed_goals].
    destruct (grid_set_cases w h g gx gy (Fin 0) Hs) as [-> | (g' & Hset & Hs')];
      [done|].
    apply Exists_cons in Hex as [Hbad | Hex].
    + rewrite (grid_set_outside w h g gx gy _ Hh Hs Hbad) in Hset. discriminate.
    + rewrite Hset. cbn [mbind outcome_bind]. by apply IH.
Qed.

(** X12 — A goal that the grid's indexing rejects (column outside
    [-width, width) or row outside [-height, height)) makes [floodfill]
    raise [IndexError], whatever the other goals and the fuel. *)
Theorem floodfill_goal_outside (m : mouse) (fuel : nat) :
  0 ≤ width m → 0 ≤ height m →
  grid_shape (width m) (height m) (flood_values m) →
  Exists (outside_indexing (width m) (height m)) (goals m) →
  floodfill fuel m = Raise IndexError.
Proof.
  intros Hw Hh Hfv Hex. unfold floodfill.
  destruct (fill_inf_Done m Hw Hh Hfv) as (g0 & -> & [Hs0 _]).
  cbn [mbind outcome_bind].
  by rewrite (seed_goals_outside _ _ _ Hh Hex g0 [] Hs0).
Qed.

Lemma floodfill_goal_outside_witness :
  floodfill 13 (set_goals maze_3x3 [(1, 1); (3, 0)]) = Raise IndexError.
Proof.
  apply (floodfill_goal_outside (set_goals maze_3x3 [(1, 1); (3, 0)]) 13).
  - simpl. lia.
  - simpl. lia.
  - apply maze_3x3_ok.
  - apply Exists_cons. right. apply Exists_cons. left.
    left. simpl. lia.
Defined.

(** X13 — Dimensions below 1.  [__init__] raises [IndexError] in
    [initialize_boundaries] when exactly one of width and height is below
    1, and returns a controller with empty grids when both are. *)
Theorem init_small_dimensions (w h : Z) :
  (1 ≤ w → h ≤ 0 → init w h = Raise IndexError)
  ∧ (w ≤ 0 → 1 ≤ h → init w h = Raise IndexError)
  ∧ (w ≤ 0 → h ≤ 0 →
     init w h = Done (Mouse w h 0 0 0 [] [] (center_goals w h) explore
                            {[ (0, 0) ]})).
Proof.
  assert (∀ n, n ≤ 0 → range n = []) as Hnil
    by (intros n Hn; unfold range; by rewrite seqZ_nil).
  assert (∀ n, 1 ≤ n → range n = 0 :: seqZ 1 (n - 1)) as Hcons.
  { intros n Hn. unfold range. rewrite seqZ_cons by lia. f_equal. }
  split; [|split].
  - intros Hw Hh. unfold init, initialize_boundaries. cbn [width height walls].
    rewrite (Hcons w Hw). cbn [for_each].
    unfold or_wall at 1. unfold grid_get, make_grid.
    replace (Z.to_nat h) with 0%nat by lia.
    destruct (Z.to_nat w) as [|n] eqn:Hn; [lia|]. reflexivity.
  - intros Hw Hh. unfold init, initialize_boundaries. cbn [width height walls].
    rewrite (Hnil w Hw), (Hcons h Hh). cbn [for_each mbind outcome_bind].
    unfold make_grid. replace (Z.to_nat w) with 0%nat by lia. reflexivity.
  - intros Hw Hh. unfold init, initialize_boundaries. cbn [width height walls].
    rewrite (Hnil w Hw), (Hnil h Hh). cbn [for_each mbind outcome_bind].
    unfold make_grid. replace (Z.to_nat w) with 0%nat by lia. reflexivity.
Qed.

Lemma init_small_dimensions_witness :
  init 3 0 = Raise IndexError
  ∧ init 0 3 = Raise IndexError
  ∧ init 0 0 = Done (Mouse 0 0 0 0 0 [] [] (center_goals 0 0) explore {[ (0, 0) ]}).
Proof.
  destruct (init_small_dimensions 3 0) as (H1 & _ & _).
  destruct (init_small_dimensions 0 3) as (_ & H2 & _).
  destruct (init_small_dimensions 0 0) as (_ & _ & H3).
  split; [apply H1; lia | split; [apply H2; lia | apply H3; lia]].
Defined.

(** * Further properties of the navigation cycle *)

Lemma touched_self a b e : touched a b e a b e = true.
Proof. unfold touched. by rewrite bool_decide_eq_true_2. Qed.

Lemma nsew_letter e : is_direction e → py_get nsew e = Done (wall_letter e).
Proof. intros He. by dir_cases e. Qed.

Lemma scan_commands_length a b dir checks :
  ∀ i, length (scan_commands a b dir i checks)
       = length (filter (λ s, s = true) checks).
Proof.
  induction checks as [|[] checks IH]; intros i; [done| |].
  - rewrite filter_cons_True by done. simpl. by rewrite IH.
  - rewrite filter_cons_False by done. simpl. by rewrite IH.
Qed.

Lemma scan_checks_effect checks :
  ∀ i w,
    maze_ok (self w) → is_cell (self w) (self_x (self w), self_y (self w)) →
    ∃ ws cmds,
      scan_checks i checks w
      = Done (World (set_walls (self w) ws) (tick w) (out w ++ cmds))
      ∧ grid_shape (width (self w)) (height (self w)) ws
      ∧ Forall (λ c, is_motion c = false) cmds
      ∧ cmds = scan_commands (self_x (self w)) (self_y (self w))
                 (direction (self w)) i checks
      ∧ ∀ x y d, is_cell (self w) (x, y) → is_direction d →
          ∃ b0, is_wall (self w) x y d = Done b0
                ∧ is_wall (set_walls (self w) ws) x y d
                  = Done (b0 || scanned (self_x (self w)) (self_y (self w))
                                  (direction (self w)) i checks x y d).
Proof.
  induction checks as [|has_wall checks IH]; intros i w Hok Hpos.
  - exists (walls (self w)), []. rewrite app_nil_r.
    split; [by destruct w as [[] ? ?]|].
    split; [by destruct Hok|]. split; [done|]. split; [done|].
    intros x y d Hc Hd.
    destruct (is_wall_Done (self w) x y d Hok Hd) as (b0 & Hb0).
    exists b0. split; [done|]. rewrite orb_false_r. rewrite <- Hb0.
    by destruct w as [[] ? ?].
  - cbn [scan_checks]. destruct has_wall.
    2:{ destruct (IH (i + 1) w Hok Hpos) as (ws & cmds & -> & ? & ? & Hlen & ?).
        exists ws, cmds. split; [done|]. split; [done|]. split; [done|].
        split; [exact Hlen|]. done. }
    set (e := (direction (self w) + i) `mod` 4).
    assert (is_direction e) as He by (apply Z.mod_pos_bound; lia).
    destruct (set_wall_inside (self w) _ _ e Hok Hpos He) as (ws & -> & Hs & Hbits).
    cbn [mbind outcome_bind].
    rewrite (nsew_letter e He).
    cbn [mbind outcome_bind]. set (c := wall_letter e).
    edestruct (IH (i + 1)
                 (World (set_walls (self w) ws) (tick w)
                    (out w ++ [setWall (self_x (self w)) (self_y (self w)) c])))
      as (ws' & cmds & -> & Hs' & Hcmds & Hlen & Hbits').
    { destruct Hok. constructor; simpl; done. }
    { done. }
    exists ws', (setWall (self_x (self w)) (self_y (self w)) c :: cmds).
    cbn [self tick out] in *.
    split; [by rewrite <- app_assoc|]. split; [done|].
    split; [by constructor|].
    split; [cbn [scan_commands app]; fold e; fold c; by rewrite Hlen|].
    intros x y d Hc Hd.
    destruct (Hbits x y d Hc Hd) as (b0 & Hb0 & Hb1).
    destruct (Hbits' x y d Hc Hd) as (b1 & Hb1' & Hb2).
    exists b0. split; [done|].
    change (set_walls (set_walls (self w) ws) ws') with (set_walls (self w) ws') in Hb2.
    rewrite Hb2. rewrite Hb1 in Hb1'. injection Hb1' as <-.
    cbn [scanned andb]. fold e. by rewrite orb_assoc.
Qed.

Lemma scan_walls_bits (sensor : nat → bool) w :
  maze_ok (self w) → is_cell (self w) (self_x (self w), self_y (self w)) →
  ∃ ws cmds,
    scan_walls sensor w
    = Done (World (set_walls (self w) ws) (tick w + 4)%nat (out w ++ cmds))
    ∧ grid_shape (width (self w)) (height (self w)) ws
    ∧ Forall (λ c, is_motion c = false) cmds
    ∧ cmds = scan_commands (self_x (self w)) (self_y (self w))
               (direction (self w)) 0
               [sensor (tick w); sensor (tick w + 1)%nat;
                sensor (tick w + 2)%nat; sensor (tick w + 3)%nat]
    ∧ ∀ x y d, is_cell (self w) (x, y) → is_direction d →
        ∃ b0, is_wall (self w) x y d = Done b0
              ∧ is_wall (set_walls (self w) ws) x y d
                = Done (b0 || scanned (self_x (self w)) (self_y (self w))
                                (direction (self w)) 0
                                [sensor (tick w); sensor (tick w + 1)%nat;
                                 sensor (tick w + 2)%nat; sensor (tick w + 3)%nat]
                                x y d).
Proof.
  intros Hok Hpos. unfold scan_walls, query. cbn -[scan_checks].
  replace (tick w + 1)%nat with (S (tick w)) by lia.
  replace (tick w + 2)%nat with (S (S (tick w))) by lia.
  replace (tick w + 3)%nat with (S (S (S (tick w)))) by lia.
  replace (tick w + 4)%nat with (S (S (S (S (tick w))))) by lia.
  apply (scan_checks_effect
           [sensor (tick w); sensor (S (tick w));
            sensor (S (S (tick w))); sensor (S (S (S (tick w))))] 0
           (World (self w) (S (S (S (S (tick w))))) (out w)) Hok Hpos).
Qed.

(** X14 — What [scan_walls] does.  It asks four questions (front, right,
    back, left) and returns; for each reading that is true it sets the
    wall in the absolute direction (heading + relative direction) mod 4 of
    the robot's cell and announces it with one [setWall] command: the
    commands added to the output are exactly [setWall x y c], one per true
    reading in the order front, right, back, left, with [(x, y)] the
    robot's cell and [c] the character of ['nsew'] at the index of the
    absolute direction.  Every other side of every cell keeps its state,
    and nothing else of the controller changes. *)
Theorem scan_walls_effect (sensor : nat → bool) (w : world) :
  mouse_ok (self w) →
  ∃ w' cmds,
    scan_walls sensor w = Done w'
    ∧ tick w' = (tick w + 4)%nat
    ∧ out w' = out w ++ cmds
    ∧ cmds
      = (if sensor (tick w)
         then [setWall (self_x (self w)) (self_y (self w))
                 (wall_letter (direction (self w) `mod` 4))] else [])
        ++ (if sensor (tick w + 1)%nat
            then [setWall (self_x (self w)) (self_y (self w))
                    (wall_letter ((direction (self w) + 1) `mod` 4))] else [])
        ++ (if sensor (tick w + 2)%nat
            then [setWall (self_x (self w)) (self_y (self w))
                    (wall_letter ((direction (self w) + 2) `mod` 4))] else [])
        ++ (if sensor (tick w + 3)%nat
            then [setWall (self_x (self w)) (self_y (self w))
                    (wall_letter ((direction (self w) + 3) `mod` 4))] else [])
    ∧ cmds = scan_commands (self_x (self w)) (self_y (self w))
               (direction (self w)) 0
               [sensor (tick w); sensor (tick w + 1)%nat;
                sensor (tick w + 2)%nat; sensor (tick w + 3)%nat]
    ∧ length cmds
      = length (filter (λ s, s = true)
                  [sensor (tick w); sensor (tick w + 1)%nat;
                   sensor (tick w + 2)%nat; sensor (tick w + 3)%nat])
    ∧ self w' = set_walls (self w) (walls (self w'))
    ∧ (∀ x y d, is_cell (self w) (x, y) → is_direction d →
         ∃ b0, is_wall (self w) x y d = Done b0
               ∧ is_wall (self w') x y d
                 = Done (b0 || scanned (self_x (self w)) (self_y (self w))
                                 (direction (self w)) 0
                                 [sensor (tick w); sensor (tick w + 1)%nat;
                                  sensor (tick w + 2)%nat; sensor (tick w + 3)%nat]
                                 x y d))
    ∧ (∀ i, (i < 4)%nat → sensor (tick w + i)%nat = true →
         is_wall (self w') (self_x (self w)) (self_y (self w))
                 ((direction (self w) + Z.of_nat i) `mod` 4)
         = Done true).
Proof.
  intros Hok.
  destruct (scan_walls_bits sensor w (mo_maze _ Hok) (mo_pos _ Hok))
    as (ws & cmds & Hrun & Hs & Hcmds & Hlen & Hbits).
  eexists. exists cmds. split; [exact Hrun|]. cbn [self tick out walls].
  split; [done|]. split; [done|].
  split; [rewrite Hlen; cbn [scan_commands]; by rewrite Z.add_0_r, app_nil_r|].
  split; [done|].
  split; [rewrite Hlen; apply scan_commands_length|].
  split; [done|]. split; [done|].
  intros i Hi Hsense.
  edestruct (Hbits (self_x (self w)) (self_y (self w))
               ((direction (self w) + Z.of_nat i) `mod` 4))
    as (b0 & _ & ->); [apply Hok | apply Z.mod_pos_bound; lia |].
  f_equal. apply orb_true_iff. right.
  destruct i as [|[|[|[|i]]]]; [| | | | lia];
    simpl Z.of_nat; cbn [scanned];
    rewrite ?Nat.add_0_r in Hsense; rewrite Hsense; cbn [andb Z.add];
    rewrite touched_self; rewrite ?orb_true_r; done.
Qed.

Lemma scan_walls_effect_witness :
  ∃ w', scan_walls (λ k, bool_decide (k = 1%nat)) (World maze_3x3 0 []) = Done w'
        ∧ tick w' = 4%nat
        ∧ out w' = [setWall 0 0 "s"%char]
        ∧ is_wall (self w') 0 0 1 = Done true.
Proof.
  destruct (scan_walls_effect (λ k, bool_decide (k = 1%nat))
              (World maze_3x3 0 []) maze_3x3_mouse_ok)
    as (w' & cmds & Hrun & Htick & Hout & Hcmds & _ & _ & _ & _ & Hsensed).
  exists w'. split; [exact Hrun|]. split; [exact Htick|].
  split; [rewrite Hout, Hcmds; reflexivity|].
  apply (Hsensed 1%nat); [lia | reflexivity].
Defined.

Lemma explore_direction_none m :
  mouse_ok m → explore_direction m = Done None →
  ∀ d v, is_direction d → candidate m d = Some v → v = Inf.
Proof.
  intros Hok Hnone d v Hd Hc.
  destruct (explore_direction_select m Hok) as (o & Ho & Hleast).
  rewrite Hnone in Ho. injection Ho as <-. simpl in Hleast.
  assert (explore_score m d
          = Some (if bool_decide (neighbor (self_x m, self_y m) d ∉ visited m)
                  then fval_add v (-100) else v)) as Hs
    by (unfold explore_score; by rewrite Hc).
  apply (Hleast d _ Hd) in Hs. destruct v; [|done]. by case_bool_decide.
Qed.

Lemma get_best_direction_none m :
  mouse_ok m → get_best_direction m = Done None →
  ∀ d v, is_direction d → candidate m d = Some v → v = Inf.
Proof.
  intros Hok Hnone d v Hd Hc.
  destruct (get_best_direction_select m Hok) as (o & Ho & Hleast).
  rewrite Hnone in Ho. injection Ho as <-. simpl in Hleast. by eapply Hleast.
Qed.

Section CycleCases.
Variable sensor : nat → bool.
Variables above_70_percent below_90_percent : Z → Z → bool.

Lemma observe_effect fuel w :
  mouse_ok (self w) →
  (cycle_fuel (width (self w)) (height (self w)) ≤ fuel)%nat →
  ∃ ws g cmds,
    observe sensor fuel w
    = Done (World (set_flood_values (set_walls (self w) ws) g)
                  (tick w + 4)%nat (out w ++ cmds))
    ∧ grid_shape (width (self w)) (height (self w)) ws
    ∧ flood_inv (set_walls (self w) ws) g []
    ∧ Forall (λ c, is_motion c = false) cmds
    ∧ ∀ x y d, is_cell (self w) (x, y) → is_direction d →
        ∃ b0, is_wall (self w) x y d = Done b0
              ∧ is_wall (set_walls (self w) ws) x y d
                = Done (b0 || scanned (self_x (self w)) (self_y (self w))
                                (direction (self w)) 0
                                [sensor (tick w); sensor (tick w + 1)%nat;
                                 sensor (tick w + 2)%nat; sensor (tick w + 3)%nat]
                                x y d).
Proof.
  intros Hok Hfuel. unfold observe.
  destruct (scan_walls_bits sensor w (mo_maze _ Hok) (mo_pos _ Hok))
    as (ws & cmds & -> & Hs & Hcmds & _ & Hbits).
  cbn [mbind outcome_bind]. cbn [self tick out emit].
  pose proof (mouse_ok_set_walls _ ws Hok Hs) as Hok1.
  destruct (floodfill_spec (set_walls (self w) ws) fuel)
    as (g & cmds' & -> & Hinv & Hcmds').
  - apply Hok1.
  - apply Hok1.
  - apply Hok1.
  - pose proof (mo_goals_len _ Hok). unfold cycle_fuel in Hfuel. simpl. lia.
  - cbn [mbind outcome_bind].
    eexists ws, g, (cmds ++ [_] ++ cmds').
    split; [by rewrite <- !app_assoc|]. split; [done|]. split; [done|].
    split; [|done].
    apply Forall_app. split; [done|]. apply Forall_app. split; [|done].
    by repeat constructor.
Qed.

Lemma cycle_cases fuel step_count w :
  mouse_ok (self w) →
  (cycle_fuel (width (self w)) (height (self w)) ≤ fuel)%nat →
  ∃ w' fl cmds,
    cycle sensor above_70_percent below_90_percent fuel step_count w
    = Done (w', fl)
    ∧ out w' = out w ++ cmds
    ∧ mouse_ok (self w')
    ∧ ((sensor (tick w) = true ∧ fl = Continue
        ∧ Forall (λ c, is_motion c = false) cmds
        ∧ ∃ m0, init (width (self w)) (height (self w)) = Done m0
                ∧ self w' = set_flood_values m0 (flood_values (self w)))
       ∨ (sensor (tick w) = false
          ∧ ∃ ws g,
              (∀ x y d, is_cell (self w) (x, y) → is_direction d →
                 ∃ b0, is_wall (self w) x y d = Done b0
                       ∧ is_wall (set_walls (self w) ws) x y d
                         = Done (b0 || scanned (self_x (self w)) (self_y (self w))
                                         (direction (self w)) 0
                                         [sensor (tick w + 1)%nat;
                                          sensor (tick w + 2)%nat;
                                          sensor (tick w + 3)%nat;
                                          sensor (tick w + 4)%nat]
                                         x y d))
              ∧ ((at_goal (self w) = true ∧ phase (self w) = explore
                  ∧ fl = Continue
                  ∧ Forall (λ c, is_motion c = false) cmds
                  ∧ self w'
                    = set_goals
                        (set_phase (set_flood_values (set_walls (self w) ws) g)
                                   speed_run) [(0, 0)])
                 ∨ (at_goal (self w) = true ∧ phase (self w) = speed_run
                    ∧ fl = Break speed_run_complete
                    ∧ Forall (λ c, is_motion c = false) cmds
                    ∧ self w' = set_flood_values (set_walls (self w) ws) g)
                 ∨ (at_goal (self w) = false
                    ∧ fl = Break no_valid_moves
                    ∧ Forall (λ c, is_motion c = false) cmds
                    ∧ self w' = set_flood_values (set_walls (self w) ws) g
                    ∧ ∀ d v, is_direction d →
                        candidate (set_flood_values (set_walls (self w) ws) g) d
                        = Some v → v = Inf)
                 ∨ (at_goal (self w) = false
                    ∧ ∃ d pre,
                        open_move (set_flood_values (set_walls (self w) ws) g)
                                  (Some d)
                        ∧ self w'
                          = moved (set_flood_values (set_walls (self w) ws) g) d
                        ∧ cmds = pre ++ turns ((d - direction (self w)) `mod` 4)
                                     ++ [moveForward]
                        ∧ Forall (λ c, is_motion c = false) pre
                        ∧ fl = (if bool_decide (step_count > 10000)
                                then Break maximum_steps else Continue))))).
Proof.
  intros Hok Hfuel. unfold cycle, query.
  destruct (sensor (tick w)) eqn:Hreset.
  - unfold reset_handler. cbn [self tick out].
    pose proof (maze_width_pos _ (mo_maze _ Hok)) as Hw.
    pose proof (maze_height_pos _ (mo_maze _ Hok)) as Hh.
    destruct (init_Done _ _ Hw Hh) as (ws & Hinit & Hws).
    rewrite (reset_self_init _ _ _ (self w) Hinit eq_refl eq_refl).
    cbn [mbind outcome_bind].
    do 3 eexists. split; [done|]. cbn [self out]. split; [done|].
    split.
    { apply mouse_ok_set_flood_values; [|apply Hok].
      apply fresh_mouse_ok; [done | done | done | apply make_grid_shape; lia]. }
    left. split; [done|]. split; [done|]. split; [|eauto].
    repeat (apply Forall_cons; split; [done|]).
    unfold mark_goals. apply Forall_fmap. by apply Forall_true.
  - destruct (observe_effect fuel (World (self w) (S (tick w)) (out w)) Hok Hfuel)
      as (ws & g & cmds & -> & Hws & Hinv & Hcmds & Hbits).
    cbn [mbind outcome_bind]. cbn [self tick out] in *.
    replace (S (tick w)) with (tick w + 1)%nat in Hbits by lia.
    replace (tick w + 1 + 1)%nat with (tick w + 2)%nat in Hbits by lia.
    replace (tick w + 1 + 2)%nat with (tick w + 3)%nat in Hbits by lia.
    replace (tick w + 1 + 3)%nat with (tick w + 4)%nat in Hbits by lia.
    pose proof (mouse_ok_set_walls _ ws Hok Hws) as Hok1.
    pose proof (mouse_ok_set_flood_values _ g Hok1 (fi_shape _ _ _ Hinv)) as Hok2.
    set (m2 := set_flood_values (set_walls (self w) ws) g) in *.
    unfold advance. cbn [self tick out].
    change (at_goal m2) with (at_goal (self w)).
    change (phase m2) with (phase (self w)).
    destruct (at_goal (self w)) eqn:Hgoal.
    { destruct (phase (self w)) eqn:Hphase.
      - do 3 eexists. split; [done|]. cbn [self out].
        split; [by rewrite <- app_assoc|]. split.
        { apply mouse_ok_set_goals; [done | | simpl; lia].
          pose proof (maze_width_pos _ (mo_maze _ Hok)).
          pose proof (maze_height_pos _ (mo_maze _ Hok)).
          repeat constructor; simpl; lia. }
        right. split; [done|]. exists ws, g. split; [done|].
        left. split; [done|]. split; [done|]. split; [done|]. split; [|done].
        apply Forall_app. split; [done|]. by repeat constructor.
      - do 3 eexists. split; [done|]. cbn [self out emit].
        split; [by rewrite <- app_assoc|]. split; [done|].
        right. split; [done|]. exists ws, g. split; [done|].
        right. left. split; [done|]. split; [done|]. split; [done|].
        split; [|done].
        apply Forall_app. split; [done|]. by repeat constructor. }
    destruct (should_explore_more_Done above_70_percent below_90_percent m2 Hok2)
      as (more & ->).
    cbn [mbind outcome_bind].
    change (phase m2) with (phase (self w)).
    assert (∃ o, (if more && bool_decide (phase (self w) = explore)
                  then explore_direction m2 else get_best_direction m2) = Done o
                 ∧ open_move m2 o
                 ∧ (o = None → ∀ d v, is_direction d → candidate m2 d = Some v →
                               v = Inf))
      as (o & -> & Ho & Hnone).
    { destruct (_ && _).
      - destruct (explore_direction_ok m2 Hok2) as (o & Ho & Hopen).
        exists o. split; [done|]. split; [done|]. intros ->.
        by apply explore_direction_none.
      - destruct (get_best_direction_ok m2 Hok2) as (o & Ho & Hopen).
        exists o. split; [done|]. split; [done|]. intros ->.
        by apply get_best_direction_none. }
    cbn [mbind outcome_bind].
    destruct o as [d|].
    2:{ do 3 eexists. split; [done|]. cbn [self out].
        split; [done|]. split; [done|].
        right. split; [done|]. exists ws, g. split; [done|].
        right. right. left. split; [done|]. split; [done|]. split; [done|].
        split; [done|]. by apply Hnone. }
    destruct (Ho d eq_refl) as (Hd & _ & Hcell).
    unfold cycle_fuel in Hfuel.
    rewrite turn_to_direction_turns by (try done; try apply Hok; lia).
    cbn [mbind outcome_bind].
    rewrite move_forward_spec by done.
    cbn [mbind outcome_bind]. cbn [self tick out].
    pose proof (mouse_ok_moved m2 d (neighbor (self_x m2, self_y m2) d)
                  ({[neighbor (self_x m2, self_y m2) d]} ∪ visited m2)
                  Hok2 Hd Hcell) as Hok'.
    exists (World (moved m2 d) (tick w + 1 + 4)%nat
              (((out w ++ cmds) ++ turns ((d - direction m2) `mod` 4))
               ++ [moveForward])).
    exists (if bool_decide (step_count > 10000)
            then Break maximum_steps else Continue).
    exists (cmds ++ turns ((d - direction (self w)) `mod` 4) ++ [moveForward]).
    split.
    { replace (S (tick w) + 4)%nat with (tick w + 1 + 4)%nat by lia.
      by destruct (bool_decide (step_count > 10000)). }
    cbn [self out]. split; [by rewrite <- !app_assoc|]. split; [exact Hok'|].
    right. split; [done|]. exists ws, g. split; [done|].
    right. right. right. split; [done|]. exists d, cmds.
    split; [done|]. split; [done|]. split; [done|]. split; [done|]. done.
Qed.

End CycleCases.

Lemma scanned_all_sides a b dir d :
  is_direction dir → is_direction d →
  scanned a b dir 0 [true; true; true; true] a b d = true.
Proof.
  intros Hdir Hd.
  dir_cases dir; dir_cases d; cbn [scanned andb Z.add Z.modulo];
    simpl; rewrite touched_self; rewrite ?orb_true_r; reflexivity.
Qed.

Section RunFacts.
Variable sensor : nat → bool.
Variables above_70_percent below_90_percent : Z → Z → bool.

Lemma cycle_run_inv fuel step_count w :
  mouse_ok (self w) → position_visited (self w) → goals_by_phase (self w) →
  (cycle_fuel (width (self w)) (height (self w)) ≤ fuel)%nat →
  ∃ w' fl,
    cycle sensor above_70_percent below_90_percent fuel step_count w
    = Done (w', fl)
    ∧ mouse_ok (self w') ∧ position_visited (self w') ∧ goals_by_phase (self w')
    ∧ width (self w') = width (self w) ∧ height (self w') = height (self w).
Proof.
  intros Hok Hvis Hgoals Hfuel.
  destruct (cycle_cases sensor above_70_percent below_90_percent fuel step_count
              w Hok Hfuel) as (w' & fl & cmds & Hrun & _ & Hok' & Hcases).
  exists w', fl. split; [done|]. split; [done|].
  destruct Hcases as [(_ & _ & _ & m0 & Hinit & ->) | (_ & ws & g & _ & Hcases)].
  - pose proof (maze_width_pos _ (mo_maze _ Hok)) as Hw.
    pose proof (maze_height_pos _ (mo_maze _ Hok)) as Hh.
    destruct (init_Done _ _ Hw Hh) as (ws & Hinit' & _).
    rewrite Hinit' in Hinit. injection Hinit as <-.
    unfold position_visited, goals_by_phase. simpl.
    split; [set_solver|]. done.
  - destruct Hcases as [(_ & _ & _ & _ & ->) | [(_ & Hp & _ & _ & ->)
                       | [(_ & _ & _ & -> & _) | (_ & d & pre & _ & -> & _)]]].
    + done.
    + done.
    + done.
    + unfold position_visited, goals_by_phase, moved in *. simpl in *.
      split; [|done]. destruct (neighbor _ d). simpl. set_solver.
Qed.

Lemma cycles_run_inv fuel n :
  ∀ step_count w,
    mouse_ok (self w) → position_visited (self w) → goals_by_phase (self w) →
    (cycle_fuel (width (self w)) (height (self w)) ≤ fuel)%nat →
    ∃ step_count' w' fl,
      cycles sensor above_70_percent below_90_percent n fuel step_count w
      = Done (step_count', w', fl)
      ∧ position_visited (self w') ∧ goals_by_phase (self w').
Proof.
  induction n as [|n IH]; intros step_count w Hok Hvis Hgoals Hfuel.
  - do 3 eexists. done.
  - cbn [cycles].
    destruct (cycle_run_inv fuel (step_count + 1) w Hok Hvis Hgoals Hfuel)
      as (w1 & fl & -> & Hok1 & Hvis1 & Hgoals1 & Hw1 & Hh1).
    cbn [mbind outcome_bind].
    destruct fl; [|by do 3 eexists].
    apply IH; [done | done | done |]. by rewrite Hw1, Hh1.
Qed.

End RunFacts.

(** X15 — The robot's cell is always in the visited set: from
    construction on, after any number of cycles and whatever the
    simulator answers (resets included). *)
Theorem position_always_visited (sensor : nat → bool)
    (above_70_percent below_90_percent : Z → Z → bool)
    (w h : Z) (fuel n : nat) :
  1 ≤ w → 1 ≤ h → (cycle_fuel w h ≤ fuel)%nat →
  ∃ m0 step_count wd fl,
    init w h = Done m0
    ∧ cycles sensor above_70_percent below_90_percent n fuel 0 (start m0)
      = Done (step_count, wd, fl)
    ∧ (self_x (self wd), self_y (self wd)) ∈ visited (self wd).
Proof.
  intros Hw Hh Hfuel.
  destruct (init_Done w h Hw Hh) as (ws & Hinit & Hws).
  pose proof (fresh_mouse_ok w h ws (make_grid w h (Fin 0)) Hw Hh Hws
                (make_grid_shape w h (Fin 0) ltac:(lia) ltac:(lia))) as Hok0.
  edestruct (cycles_run_inv sensor above_70_percent below_90_percent fuel n 0
               (start _) Hok0) as (sc & wd & fl & Hrun & Hvis & _).
  - unfold position_visited. simpl. set_solver.
  - done.
  - exact Hfuel.
  - eexists. exists sc, wd, fl. split; [exact Hinit|]. split; [exact Hrun|]. done.
Qed.

Lemma position_always_visited_witness :
  ∃ m0 step_count wd fl,
    init 3 3 = Done m0
    ∧ cycles (λ _, false) (λ _ _, false) (λ _ _, false) 3 13 0 (start m0)
      = Done (step_count, wd, fl)
    ∧ (self_x (self wd), self_y (self wd)) ∈ visited (self wd).
Proof.
  apply (position_always_visited (λ _, false) (λ _ _, false) (λ _ _, false)
           3 3 13 3); [lia | lia | vm_compute; lia].
Defined.

(** X16 — The goal list follows the phase: from construction on, after
    any number of cycles, it is the centre of the maze while the phase is
    [explore] and the single start cell (0,0) while it is [speed_run]. *)
Theorem goals_follow_phase (sensor : nat → bool)
    (above_70_percent below_90_percent : Z → Z → bool)
    (w h : Z) (fuel n : nat) :
  1 ≤ w → 1 ≤ h → (cycle_fuel w h ≤ fuel)%nat →
  ∃ m0 step_count wd fl,
    init w h = Done m0
    ∧ cycles sensor above_70_percent below_90_percent n fuel 0 (start m0)
      = Done (step_count, wd, fl)
    ∧ match phase (self wd) with
      | explore => goals (self wd) = center_goals w h
      | speed_run => goals (self wd) = [(0, 0)]
      end.
Proof.
  intros Hw Hh Hfuel.
  destruct (init_Done w h Hw Hh) as (ws & Hinit & Hws).
  pose proof (fresh_mouse_ok w h ws (make_grid w h (Fin 0)) Hw Hh Hws
                (make_grid_shape w h (Fin 0) ltac:(lia) ltac:(lia))) as Hok0.
  destruct (cycles_ok sensor above_70_percent below_90_percent fuel n 0
              (start _) Hok0 Hfuel) as (sc' & wd' & fl' & Hrun' & _ & Hwd & Hhd).
  edestruct (cycles_run_inv sensor above_70_percent below_90_percent fuel n 0
               (start _) Hok0) as (sc & wd & fl & Hrun & _ & Hgoals).
  - unfold position_visited. simpl. set_solver.
  - done.
  - exact Hfuel.
  - rewrite Hrun in Hrun'. injection Hrun' as <- <- <-.
    eexists. exists sc, wd, fl. split; [exact Hinit|]. split; [exact Hrun|].
    unfold goals_by_phase in Hgoals. simpl in Hwd, Hhd.
    by rewrite Hwd, Hhd in Hgoals.
Qed.

Lemma goals_follow_phase_witness :
  ∃ m0 step_count wd fl,
    init 3 3 = Done m0
    ∧ cycles (λ _, false) (λ _ _, false) (λ _ _, false) 3 13 0 (start m0)
      = Done (step_count, wd, fl)
    ∧ match phase (self wd) with
      | explore => goals (self wd) = center_goals 3 3
      | speed_run => goals (self wd) = [(0, 0)]
      end.
Proof.
  apply (goals_follow_phase (λ _, false) (λ _ _, false) (λ _ _, false)
           3 3 13 3); [lia | lia | vm_compute; lia].
Defined.

(** X17 — One cycle, at most one cell.  A cycle either handles a reset
    (position (0,0), heading North, no turn or move command), or leaves
    position and heading as they were and issues no turn or move command,
    or turns to a direction [d] whose side is open, moves to the
    neighbouring cell of the grid in that direction and issues, last, the
    turns for [d] and one [moveForward]. *)
Theorem cycle_moves_one_cell (sensor : nat → bool)
    (above_70_percent below_90_percent : Z → Z → bool)
    (fuel : nat) (step_count : Z) (w : world) :
  mouse_ok (self w) →
  (cycle_fuel (width (self w)) (height (self w)) ≤ fuel)%nat →
  ∃ w' fl cmds,
    cycle sensor above_70_percent below_90_percent fuel step_count w
    = Done (w', fl)
    ∧ out w' = out w ++ cmds
    ∧ ((sensor (tick w) = true
        ∧ (self_x (self w'), self_y (self w'), direction (self w')) = (0, 0, 0)
        ∧ Forall (λ c, is_motion c = false) cmds)
       ∨ (sensor (tick w) = false
          ∧ (self_x (self w'), self_y (self w'), direction (self w'))
            = (self_x (self w), self_y (self w), direction (self w))
          ∧ Forall (λ c, is_motion c = false) cmds)
       ∨ (sensor (tick w) = false
          ∧ ∃ d pre,
              is_direction d
              ∧ (self_x (self w'), self_y (self w'))
                = neighbor (self_x (self w), self_y (self w)) d
              ∧ is_cell (self w) (self_x (self w'), self_y (self w'))
              ∧ direction (self w') = d
              ∧ is_wall (self w') (self_x (self w)) (self_y (self w)) d
                = Done false
              ∧ cmds = pre ++ turns ((d - direction (self w)) `mod` 4)
                           ++ [moveForward]
              ∧ Forall (λ c, is_motion c = false) pre)).
Proof.
  intros Hok Hfuel.
  destruct (cycle_cases sensor above_70_percent below_90_percent fuel step_count
              w Hok Hfuel) as (w' & fl & cmds & Hrun & Hout & Hok' & Hcases).
  exists w', fl, cmds. split; [done|]. split; [done|].
  destruct Hcases as [(Hr & _ & Hcmds & m0 & Hinit & ->)
                     | (Hr & ws & g & _ & Hcases)].
  - left. split; [done|]. split; [|done].
    pose proof (maze_width_pos _ (mo_maze _ Hok)) as Hw.
    pose proof (maze_height_pos _ (mo_maze _ Hok)) as Hh.
    destruct (init_Done _ _ Hw Hh) as (ws & Hinit' & _).
    rewrite Hinit' in Hinit. by injection Hinit as <-.
  - right.
    destruct Hcases as [(_ & _ & _ & Hcmds & ->) | [(_ & _ & _ & Hcmds & ->)
                       | [(_ & _ & Hcmds & -> & _)
                         | (_ & d & pre & Hopen & -> & -> & Hpre & _)]]].
    + left. done.
    + left. done.
    + left. done.
    + right. split; [done|]. exists d, pre.
      destruct (Hopen d eq_refl) as (Hd & Hwall & Hcell).
      split; [done|]. unfold moved. simpl.
      split; [by destruct (neighbor _ d)|].
      split; [by destruct (neighbor _ d)|]. done.
Qed.

Lemma cycle_moves_one_cell_witness :
  ∃ w' fl cmds,
    cycle (λ _, false) (λ _ _, false) (λ _ _, false) 13 1 (World maze_3x3 0 [])
    = Done (w', fl)
    ∧ out w' = [] ++ cmds.
Proof.
  destruct (cycle_moves_one_cell (λ _, false) (λ _ _, false) (λ _ _, false)
              13 1 (World maze_3x3 0 []) maze_3x3_mouse_ok)
    as (w' & fl & cmds & Hrun & Hout & _); [vm_compute; lia|].
  exists w', fl, cmds. split; [exact Hrun | exact Hout].
Defined.

(** X18 — Walls are only ever added.  A cycle that handles no reset keeps
    every wall the controller knew before it: [is_wall] true before is
    [is_wall] true after. *)
Theorem walls_never_forgotten (sensor : nat → bool)
    (above_70_percent below_90_percent : Z → Z → bool)
    (fuel : nat) (step_count : Z) (w : world) :
  mouse_ok (self w) →
  (cycle_fuel (width (self w)) (height (self w)) ≤ fuel)%nat →
  sensor (tick w) = false →
  ∃ w' fl,
    cycle sensor above_70_percent below_90_percent fuel step_count w
    = Done (w', fl)
    ∧ ∀ x y d, is_direction d →
        is_wall (self w) x y d = Done true → is_wall (self w') x y d = Done true.
Proof.
  intros Hok Hfuel Hreset.
  destruct (cycle_cases sensor above_70_percent below_90_percent fuel step_count
              w Hok Hfuel) as (w' & fl & cmds & Hrun & _ & _ & Hcases).
  exists w', fl. split; [done|].
  destruct Hcases as [(Hr & _) | (_ & ws & g & Hbits & Hcases)]; [congruence|].
  assert (∀ x y d, is_direction d → is_wall (self w) x y d = Done true →
            is_wall (set_walls (self w) ws) x y d = Done true) as Hkeep.
  { intros x y d Hd Hwall.
    destruct (decide (is_cell (self w) (x, y))) as [Hc|Hc].
    - destruct (Hbits x y d Hc Hd) as (b0 & Hb0 & ->).
      rewrite Hwall in Hb0. by injection Hb0 as <-.
    - by apply is_wall_outside. }
  destruct Hcases as [(_ & _ & _ & _ & ->) | [(_ & _ & _ & _ & ->)
                     | [(_ & _ & _ & -> & _) | (_ & d & pre & _ & -> & _)]]];
    exact Hkeep.
Qed.

Lemma walls_never_forgotten_witness :
  ∃ w' fl,
    cycle (λ k, bool_decide (k = 2%nat)) (λ _ _, false) (λ _ _, false) 13 1
          (World maze_3x3 0 [])
    = Done (w', fl)
    ∧ ∀ x y d, is_direction d →
        is_wall maze_3x3 x y d = Done true → is_wall (self w') x y d = Done true.
Proof.
  apply (walls_never_forgotten (λ k, bool_decide (k = 2%nat)) (λ _ _, false)
           (λ _ _, false) 13 1 (World maze_3x3 0 []));
    [apply maze_3x3_mouse_ok | vm_compute; lia | reflexivity].
Defined.

(** X19 — Walled in.  In a cycle without reset in which the four wall
    readings are all true and the robot's cell is not a goal, no direction
    is selected: the loop ends with [no_valid_moves], the robot stays
    where it is and no turn or move command is issued. *)
Theorem walled_in_stops (sensor : nat → bool)
    (above_70_percent below_90_percent : Z → Z → bool)
    (fuel : nat) (step_count : Z) (w : world) :
  mouse_ok (self w) →
  (cycle_fuel (width (self w)) (height (self w)) ≤ fuel)%nat →
  sensor (tick w) = false →
  (∀ i, (1 ≤ i ≤ 4)%nat → sensor (tick w + i)%nat = true) →
  at_goal (self w) = false →
  ∃ w' cmds,
    cycle sensor above_70_percent below_90_percent fuel step_count w
    = Done (w', Break no_valid_moves)
    ∧ out w' = out w ++ cmds
    ∧ Forall (λ c, is_motion c = false) cmds
    ∧ (self_x (self w'), self_y (self w')) = (self_x (self w), self_y (self w)).
Proof.
  intros Hok Hfuel Hreset Hwalls Hgoal.
  destruct (cycle_cases sensor above_70_percent below_90_percent fuel step_count
              w Hok Hfuel) as (w' & fl & cmds & Hrun & Hout & _ & Hcases).
  destruct Hcases as [(Hr & _) | (_ & ws & g & Hbits & Hcases)]; [congruence|].
  destruct Hcases as [(Hg & _) | [(Hg & _)
                     | [(_ & -> & Hcmds & Hself & _)
                       | (_ & d & pre & Hopen & _)]]]; try congruence.
  - exists w', cmds. rewrite Hself. done.
  - exfalso. destruct (Hopen d eq_refl) as (Hd & Hwall & _).
    destruct (Hbits (self_x (self w)) (self_y (self w)) d (mo_pos _ Hok) Hd)
      as (b0 & _ & Hafter).
    rewrite !Hwalls in Hafter by lia.
    rewrite scanned_all_sides in Hafter by (try done; apply Hok).
    rewrite orb_true_r in Hafter.
    change (is_wall (set_walls (self w) ws) (self_x (self w)) (self_y (self w)) d)
      with (is_wall (set_flood_values (set_walls (self w) ws) g)
              (self_x (set_flood_values (set_walls (self w) ws) g))
              (self_y (set_flood_values (set_walls (self w) ws) g)) d) in Hafter.
    congruence.
Qed.

Lemma walled_in_stops_witness :
  ∃ w' cmds,
    cycle (λ k, negb (bool_decide (k = 0%nat))) (λ _ _, false) (λ _ _, false)
          13 1 (World maze_3x3 0 [])
    = Done (w', Break no_valid_moves)
    ∧ out w' = [] ++ cmds
    ∧ Forall (λ c, is_motion c = false) cmds
    ∧ (self_x (self w'), self_y (self w')) = (0, 0).
Proof.
  apply (walled_in_stops (λ k, negb (bool_decide (k = 0%nat))) (λ _ _, false)
           (λ _ _, false) 13 1 (World maze_3x3 0 [])).
  - apply maze_3x3_mouse_ok.
  - vm_compute. lia.
  - reflexivity.
  - intros i Hi. simpl. apply negb_true_iff, bool_decide_eq_false_2. lia.
  - reflexivity.
Defined.

Lemma unvisited_neighbour_spec m dirs :
  mouse_ok m → Forall is_direction dirs →
  ∃ b, unvisited_neighbour m dirs = Done b
       ∧ (b = true ↔
          ∃ d, d ∈ dirs
               ∧ hop m (self_x m, self_y m) d (neighbor (self_x m, self_y m) d)
               ∧ neighbor (self_x m, self_y m) d ∉ visited m).
Proof.
  intros Hok. induction dirs as [|d dirs IH]; intros Hds.
  - exists false. split; [done|]. split; [done|].
    intros (d & Hd & _). by apply elem_of_nil in Hd.
  - apply Forall_cons in Hds as [Hd Hds]. cbn [unvisited_neighbour].
    destruct (IH Hds) as (b & Hb & Hiff).
    assert (¬ (hop m (self_x m, self_y m) d (neighbor (self_x m, self_y m) d)
               ∧ neighbor (self_x m, self_y m) d ∉ visited m) →
            (b = true ↔
             ∃ d', d' ∈ d :: dirs
                   ∧ hop m (self_x m, self_y m) d'
                         (neighbor (self_x m, self_y m) d')
                   ∧ neighbor (self_x m, self_y m) d' ∉ visited m)) as Hext.
    { intros Hno. rewrite Hiff. split.
      - intros (d' & ? & ?). exists d'. split; [by right | done].
      - intros (d' & Hin & Hhop & Hnv).
        apply elem_of_cons in Hin as [-> | Hin]; [by destruct Hno|].
        exists d'. done. }
    destruct (is_wall_Done m (self_x m) (self_y m) d (mo_maze _ Hok) Hd)
      as (bw & Hbw).
    rewrite Hbw. cbn [mbind outcome_bind].
    destruct bw.
    { exists b. split; [done|]. apply Hext.
      intros [(_ & Hopen & _) _]. simpl in Hopen. congruence. }
    destruct (get_direction_offset_Done (self_x m) (self_y m) d Hd)
      as (dx & dy & -> & Hn).
    cbn [mbind outcome_bind]. rewrite <- Hn.
    destruct (in_bounds m _ _) eqn:Hin.
    + apply in_bounds_true in Hin.
      case_bool_decide as Hv; cbn [andb].
      * exists true. split; [done|]. split; [|done]. intros _.
        exists d. split; [by left|]. split; [|exact Hv].
        split; [done|]. split; [exact Hbw|]. split; [done|].
        rewrite Hn. exact Hin.
      * exists b. split; [done|]. apply Hext.
        intros [_ Hnv]. done.
    + apply in_bounds_false in Hin. cbn [andb].
      exists b. split; [done|]. apply Hext.
      intros [(_ & _ & _ & Hc) _]. by rewrite Hn in Hc.
Qed.

(** X20 — [should_explore_more].  In [speed_run] it is false.  In
    [explore] it is true whenever some open side of the robot's cell
    leads to an unvisited cell of the grid, whatever the coverage; with no
    such side it is false on a goal cell once more than 70% of the cells
    are visited, and otherwise true exactly while fewer than 90% are. *)
Theorem should_explore_more_spec
    (above_70_percent below_90_percent : Z → Z → bool) (m : mouse) :
  mouse_ok m →
  ∃ b, should_explore_more above_70_percent below_90_percent m = Done b
       ∧ (phase m = speed_run → b = false)
       ∧ (phase m = explore →
          (∃ d, is_direction d
                ∧ hop m (self_x m, self_y m) d (neighbor (self_x m, self_y m) d)
                ∧ neighbor (self_x m, self_y m) d ∉ visited m) →
          b = true)
       ∧ (phase m = explore →
          (∀ d, is_direction d →
                hop m (self_x m, self_y m) d (neighbor (self_x m, self_y m) d) →
                neighbor (self_x m, self_y m) d ∈ visited m) →
          b = if at_goal m
                 && above_70_percent (Z.of_nat (size (visited m)))
                                     (width m * height m)
              then false
              else below_90_percent (Z.of_nat (size (visited m)))
                                    (width m * height m)).
Proof.
  intros Hok. unfold should_explore_more.
  destruct (phase m) eqn:Hphase.
  2:{ exists false. done. }
  destruct (mo_pos _ Hok) as [Hx Hy]; simpl in Hx, Hy.
  destruct (grid_get_Done _ _ _ _ _ (mo_flood _ Hok) Hx Hy) as (v & ->).
  cbn [mbind outcome_bind].
  destruct (unvisited_neighbour_spec m (range 4) Hok) as (found & -> & Hfound).
  { apply Forall_forall. apply range_4_direction. }
  cbn [mbind outcome_bind].
  assert (∀ d, d ∈ range 4 ↔ is_direction d) as Hrange.
  { intros d. rewrite range_4. unfold is_direction. split.
    - set_solver by lia.
    - intros Hd. assert (d = 0 ∨ d = 1 ∨ d = 2 ∨ d = 3) as Hc by lia.
      set_solver. }
  destruct found.
  - exists true. split; [done|]. split; [done|]. split; [done|].
    intros _ Hall. destruct (proj1 Hfound eq_refl) as (d & Hd & Hhop & Hnew).
    destruct Hnew. apply Hall; [by apply Hrange | done].
  - exists (if at_goal m
                 && above_70_percent (Z.of_nat (size (visited m)))
                                     (width m * height m)
            then false
            else below_90_percent (Z.of_nat (size (visited m)))
                                  (width m * height m)).
    split; [by destruct (_ && _)|]. split; [done|]. split; [|done].
    intros _ (d & Hd & Hhop & Hnew).
    assert (false = true) as Habs; [|discriminate Habs].
    apply Hfound. exists d. split; [by apply Hrange | done].
Qed.

Lemma should_explore_more_spec_witness :
  ∃ b, should_explore_more (λ _ _, false) (λ _ _, false) maze_3x3 = Done b
       ∧ b = true.
Proof.
  destruct (should_explore_more_spec (λ _ _, false) (λ _ _, false) maze_3x3
              maze_3x3_mouse_ok) as (b & Hrun & _ & Htrue & _).
  exists b. split; [exact Hrun|]. apply Htrue; [reflexivity|].
  exists 0. split; [unfold is_direction; lia|]. split.
  - split; [unfold is_direction; lia|]. split; [reflexivity|].
    split; [reflexivity | split; simpl; lia].
  - vm_compute. set_solver.
Defined.

(** X21 — The step ceiling applies after a move only.  A cycle leaves the
    loop with [maximum_steps] exactly when it ended with a [moveForward]
    and the step count exceeds 10000. *)
Theorem maximum_steps_after_move (sensor : nat → bool)
    (above_70_percent below_90_percent : Z → Z → bool)
    (fuel : nat) (step_count : Z) (w : world) :
  mouse_ok (self w) →
  (cycle_fuel (width (self w)) (height (self w)) ≤ fuel)%nat →
  ∃ w' fl cmds,
    cycle sensor above_70_percent below_90_percent fuel step_count w
    = Done (w', fl)
    ∧ out w' = out w ++ cmds
    ∧ (fl = Break maximum_steps ↔
       step_count > 10000 ∧ ∃ pre, cmds = pre ++ [moveForward]).
Proof.
  intros Hok Hfuel.
  destruct (cycle_cases sensor above_70_percent below_90_percent fuel step_count
              w Hok Hfuel) as (w' & fl & cmds & Hrun & Hout & _ & Hcases).
  exists w', fl, cmds. split; [done|]. split; [done|].
  assert (Forall (λ c, is_motion c = false) cmds →
          ¬ ∃ pre, cmds = pre ++ [moveForward]) as Hstill.
  { intros Hall (pre & ->). apply Forall_app in Hall as [_ Hall].
    apply Forall_cons in Hall as [Hm _]. done. }
  destruct Hcases as [(_ & -> & Hcmds & _) | (_ & ws & g & _ & Hcases)].
  { split; [done|]. intros [_ Hmv]. by apply Hstill in Hmv. }
  destruct Hcases as [(_ & _ & -> & Hcmds & _) | [(_ & _ & -> & Hcmds & _)
                     | [(_ & -> & Hcmds & _)
                       | (_ & d & pre & _ & _ & -> & _ & ->)]]].
  - split; [done|]. intros [_ Hmv]. by apply Hstill in Hmv.
  - split; [done|]. intros [_ Hmv]. by apply Hstill in Hmv.
  - split; [done|]. intros [_ Hmv]. by apply Hstill in Hmv.
  - case_bool_decide as Hsc.
    + split; [|done]. intros _. split; [done|].
      exists (pre ++ turns ((d - direction (self w)) `mod` 4)).
      by rewrite <- app_assoc.
    + split; [done|]. intros [Hgt _]. done.
Qed.

Lemma maximum_steps_after_move_witness :
  ∃ w' fl cmds,
    cycle (λ _, false) (λ _ _, false) (λ _ _, false) 13 10001
          (World maze_3x3 0 [])
    = Done (w', fl)
    ∧ out w' = [] ++ cmds
    ∧ (fl = Break maximum_steps ↔
       10001 > 10000 ∧ ∃ pre, cmds = pre ++ [moveForward]).
Proof.
  apply (maximum_steps_after_move (λ _, false) (λ _ _, false) (λ _ _, false)
           13 10001 (World maze_3x3 0 []));
    [apply maze_3x3_mouse_ok | vm_compute; lia].
Defined.

(** * The simulator protocol *)

Lemma skip_acknowledgments_spec strip lines :
  ∀ response,
    match skip_acknowledgments strip response lines with
    | Some (r, rest) =>
      (r ∉ ["ack"; "reset"]%string)
      ∧ ((r = response ∧ rest = lines)
         ∨ (response ∈ ["ack"; "reset"]%string
            ∧ ∃ skipped line,
                lines = skipped ++ line :: rest
                ∧ Forall (λ s, strip s ∈ ["ack"; "reset"]%string) skipped
                ∧ strip line = r))
    | None =>
      response ∈ ["ack"; "reset"]%string
      ∧ Forall (λ s, strip s ∈ ["ack"; "reset"]%string) lines
    end.
Proof.
  induction lines as [|line lines IH]; intros response;
    cbn [skip_acknowledgments]; case_bool_decide as Hack; try done.
  - split; [done|]. by left.
  - specialize (IH (strip line)).
    destruct (skip_acknowledgments strip (strip line) lines) as [[r rest]|].
    + destruct IH as [Hr [[-> ->] | (Hs & skipped & l & -> & Hsk & <-)]].
      * split; [done|]. right. split; [done|]. by exists [], line.
      * split; [done|]. right. split; [done|].
        exists (line :: skipped), l. split; [done|]. split; [|done].
        by constructor.
    + destruct IH as [Hs Hall]. split; [done|]. by constructor.
  - split; [done|]. by left.
Qed.

(** X22 — [API.query] returns the first line of standard input that,
    stripped, is neither [ack] nor [reset], stripped, and leaves the lines
    after it; the lines before it are skipped.  When every line left
    strips to [ack] or [reset], or none is left, [input()] raises
    [EOFError]. *)
Theorem API_query_skips (strip : string → string) (lines : list string) :
  match API_query strip lines with
  | Some (r, rest) =>
    (r ∉ ["ack"; "reset"]%string)
    ∧ ∃ skipped line,
        lines = skipped ++ line :: rest
        ∧ Forall (λ s, strip s ∈ ["ack"; "reset"]%string) skipped
        ∧ strip line = r
        ∧ API_query_bool strip lines = Some (bool_decide (r = "true"%string), rest)
  | None =>
    Forall (λ s, strip s ∈ ["ack"; "reset"]%string) lines
    ∧ API_query_bool strip lines = None
  end.
Proof.
  unfold API_query_bool, API_query. destruct lines as [|line lines]; [done|].
  pose proof (skip_acknowledgments_spec strip lines (strip line)) as Hspec.
  destruct (skip_acknowledgments strip (strip line) lines) as [[r rest]|].
  - destruct Hspec as [Hr [[-> ->] | (Hs & skipped & l & -> & Hsk & <-)]].
    + split; [done|]. by exists [], line.
    + split; [done|]. exists (line :: skipped), l.
      split; [done|]. split; [by constructor | done].
  - destruct Hspec as [Hs Hall]. split; [by constructor | done].
Qed.

(** * Further properties of initialisation and display *)

(** X23 — A fresh maze has its boundary walls and no others: after
    [__init__] the controller's [width] and [height] are the reported
    ones and [is_wall x y d] is false exactly when [(x, y)] and its
    neighbour in direction [d] are both cells of the grid. *)
Theorem fresh_maze_walls (w h : Z) :
  1 ≤ w → 1 ≤ h →
  ∃ m, init w h = Done m
       ∧ (width m = w ∧ height m = h)
       ∧ ∀ x y d, is_direction d →
           is_wall m x y d
           = Done (negb (bool_decide (is_cell m (x, y)
                                      ∧ is_cell m (neighbor (x, y) d)))).
Proof.
  intros Hw Hh. destruct (init_Done w h Hw Hh) as (ws & Hinit & Hws).
  eexists. split; [exact Hinit|]. split; [done|]. intros x y d Hd.
  rewrite (fresh_is_wall w h ws _ x y d eq_refl Hws Hd). f_equal.
  repeat case_bool_decide; simpl; try done; naive_solver.
Qed.

Lemma fresh_maze_walls_witness :
  ∃ m, init 3 3 = Done m
       ∧ (width m = 3 ∧ height m = 3)
       ∧ ∀ x y d, is_direction d →
           is_wall m x y d
           = Done (negb (bool_decide (is_cell m (x, y)
                                      ∧ is_cell m (neighbor (x, y) d)))).
Proof. apply (fresh_maze_walls 3 3); lia. Defined.

(** X24 — With an empty goal list [floodfill] returns at once, whatever
    the fuel: every cell is at infinity and the display is cleared and
    shows no text. *)
Theorem floodfill_no_goals (m : mouse) (fuel : nat) :
  0 ≤ width m → 0 ≤ height m →
  grid_shape (width m) (height m) (flood_values m) →
  goals m = [] →
  ∃ g, floodfill fuel m = Done (set_flood_values m g, [clearAllText])
       ∧ ∀ x y, 0 ≤ x < width m → 0 ≤ y < height m → grid_get g x y = Done Inf.
Proof.
  intros Hw Hh Hfv Hgoals. unfold floodfill.
  destruct (fill_inf_Done m Hw Hh Hfv) as (g0 & -> & [Hs0 Hat0]).
  cbn [mbind outcome_bind]. rewrite Hgoals. cbn [seed_goals mbind outcome_bind].
  assert (flood_loop fuel m g0 [] = Done g0) as -> by (by destruct fuel).
  cbn [mbind outcome_bind].
  assert (display_flood_values (set_flood_values m g0) = Done [clearAllText])
    as ->.
  { unfold display_flood_values. cbn [width height flood_values set_flood_values].
    destruct (for_each_range_ind
      (λ _ cmds, cmds = [clearAllText])
      (λ x cmds, for_each (range (height m)) (λ y cmds,
         v ← grid_get g0 x y;
         match v with
         | Fin n => Done (cmds ++ [setText x y n])
         | Inf => Done cmds
         end) cmds)
      (width m) [clearAllText]) as (cmds & -> & ->); [done | done | | done].
    intros x cmds Hx ->.
    apply (for_each_range_ind (λ _ cmds, cmds = [clearAllText])); [done | done |].
    intros y cmds' Hy ->. rewrite Hat0 by done. by eexists. }
  cbn [mbind outcome_bind]. exists g0. done.
Qed.

Lemma floodfill_no_goals_witness :
  ∃ g, floodfill 0 (set_goals maze_3x3 [])
       = Done (set_flood_values (set_goals maze_3x3 []) g, [clearAllText])
       ∧ ∀ x y, 0 ≤ x < 3 → 0 ≤ y < 3 → grid_get g x y = Done Inf.
Proof.
  apply (floodfill_no_goals (set_goals maze_3x3 []) 0);
    [simpl; lia | simpl; lia | apply maze_3x3_ok | reflexivity].
Defined.

(** X25 — [display_flood_values] first clears all text and then only
    writes text for cells of the grid at a finite distance, the text
    being the cell's flood value. *)
Theorem display_shows_flood_values (m : mouse) :
  0 ≤ width m → 0 ≤ height m →
  grid_shape (width m) (height m) (flood_values m) →
  ∃ texts,
    display_flood_values m = Done (clearAllText :: texts)
    ∧ Forall (λ c, ∃ x y n,
                c = setText x y n
                ∧ 0 ≤ x < width m ∧ 0 ≤ y < height m
                ∧ grid_get (flood_values m) x y = Done (Fin n)) texts.
Proof.
  intros Hw Hh Hs. unfold display_flood_values.
  set (shown := λ cmds : list command,
         ∃ texts, cmds = clearAllText :: texts
                  ∧ Forall (λ c, ∃ x y n,
                              c = setText x y n
                              ∧ 0 ≤ x < width m ∧ 0 ≤ y < height m
                              ∧ grid_get (flood_values m) x y = Done (Fin n))
                           texts).
  destruct (for_each_range_ind
    (λ _ cmds, shown cmds)
    (λ x cmds, for_each (range (height m)) (λ y cmds,
       v ← grid_get (flood_values m) x y;
       match v with
       | Fin n => Done (cmds ++ [setText x y n])
       | Inf => Done cmds
       end) cmds)
    (width m) [clearAllText]) as (cmds & Hrun & texts & -> & Htexts).
  - done.
  - by exists [].
  - intros x cmds Hx Hcmds.
    apply (for_each_range_ind (λ _ cmds, shown cmds)); [done | done |].
    intros y cmds' Hy (texts & -> & Htexts).
    destruct (grid_get_Done _ _ _ x y Hs Hx Hy) as (v & Hv). rewrite Hv.
    cbn [mbind outcome_bind].
    destruct v as [n|]; eexists; (split; [done|]); [|by exists texts].
    exists (texts ++ [setText x y n]). split; [done|].
    apply Forall_app. split; [done|]. apply Forall_cons. split; [|done].
    by exists x, y, n.
  - exists texts. done.
Qed.

Lemma display_shows_flood_values_witness :
  ∃ texts,
    display_flood_values maze_3x3 = Done (clearAllText :: texts)
    ∧ Forall (λ c, ∃ x y n,
                c = setText x y n
                ∧ 0 ≤ x < 3 ∧ 0 ≤ y < 3
                ∧ grid_get (flood_values maze_3x3) x y = Done (Fin n)) texts.
Proof.
  apply (display_shows_flood_values maze_3x3);
    [simpl; lia | simpl; lia | apply maze_3x3_ok].
Defined.
